(** * plc_ros_demo: the file-slot exchange between OpenPLC and MQTT

    A shallow embedding of the three programs of the repository

      - [PSM_annotated.py]                (the scan driver run inside OpenPLC),
      - [mqtt_input_bridge_annotated.py]  (MQTT -> /tmp/input.json),
      - [mqtt_output_bridge_annotated.py] (/tmp/output.json -> MQTT),

    together with the parts of the Python runtime they call: the [json]
    encoder and decoder, the UTF-8 codec, the file operations used by the
    write-then-rename protocol, and [print].

    Conventions.
      - A Python [str] is a list of code points ([pystr]); [bytes] is a list
        of byte values.
      - A Python [dict] is an association list in insertion order whose keys
        are pairwise distinct.
      - Python floats are kept abstract (class [PyFloat]): the development
        never looks inside a float, it only passes it between [float()] and
        [float.__repr__].
      - Effects are threaded through a [world]: the file system, the lines
        printed so far, the controller and the trace of external calls. *)

From Stdlib Require Import ZArith NArith List Bool Lia String Ascii.
From Stdlib Require Import DecimalPos DecimalN DecimalZ DecimalFacts.
From stdpp Require Import base gmap strings list sorting.
Import ListNotations.

Local Open Scope N_scope.

Reserved Notation "x <- m ;; k"
  (at level 100, m at next level, right associativity).
Reserved Notation "m ;;; k" (at level 100, right associativity).

(* ===================================================================== *)
(** ** Python strings *)
(* ===================================================================== *)

(** A Python [str]: a sequence of code points. *)
Abbreviation pystr := (list N).

(** [bytes]: a sequence of byte values (each below 256). *)
Abbreviation pybytes := (list N).

(** The [str] denoted by an ASCII literal of the source. *)
Definition str (s : string) : pystr :=
  List.map N_of_ascii (list_ascii_of_string s).

Definition chr (c : ascii) : N := N_of_ascii c.

(** The same, with each apostrophe of the literal standing for a double
    quote: [qstr "{'a': 1}"] is the JSON text of an object with key [a]. *)
Definition qstr (s : string) : pystr :=
  List.map (fun c => if c =? 39 then 34 else c) (str s).

(** [s.startswith(p)] *)
Fixpoint startswith (p s : pystr) : bool :=
  match p, s with
  | [], _ => true
  | a :: p', b :: s' => (a =? b) && startswith p' s'
  | _ :: _, [] => false
  end.

(** [s[n:]] *)
Definition drop_chars (n : nat) (s : pystr) : pystr := skipn n s.

(** [a == b] on [str] *)
Fixpoint pystr_eqb (a b : pystr) : bool :=
  match a, b with
  | [], [] => true
  | x :: a', y :: b' => (x =? y) && pystr_eqb a' b'
  | _, _ => false
  end.

(** [a < b] on [str]: lexicographic on code points, a proper prefix first. *)
Fixpoint pystr_ltb (a b : pystr) : bool :=
  match a, b with
  | _, [] => false
  | [], _ :: _ => true
  | x :: a', y :: b' => (x <? y) || ((x =? y) && pystr_ltb a' b')
  end.

Definition pystr_leb (a b : pystr) : bool := negb (pystr_ltb b a).

(** [sep.join(parts)] *)
Fixpoint join (sep : pystr) (parts : list pystr) : pystr :=
  match parts with
  | [] => []
  | [p] => p
  | p :: ps => p ++ sep ++ join sep ps
  end.

(* ===================================================================== *)
(** ** Python floats, abstractly *)
(* ===================================================================== *)

(** The three operations of [float] that the [json] module uses. *)
Class PyFloat := {
  pyfloat : Type;
  (** [float(text)] on a JSON number token with a fraction or an exponent,
      and on the constants [NaN], [Infinity], [-Infinity] *)
  float_of_str : pystr -> pyfloat;
  (** [json.encoder.floatstr]: [float.__repr__], or one of the constants *)
  floatstr : pyfloat -> pystr;
  (** [==] on floats *)
  float_eqb : pyfloat -> pyfloat -> bool;
  (** the text of a float is made of ASCII characters *)
  floatstr_ascii : forall f, Forall (fun c => c < 128) (floatstr f)
}.

(* ===================================================================== *)
(** ** JSON values *)
(* ===================================================================== *)

Section Json.
Context `{PyFloat}.

(** What [json.loads] can return and what [json.dumps] is given here:
    [None], [bool], [int], [float], [str], [list], [dict] with [str] keys. *)
#[local] Unset Elimination Schemes.
Inductive json :=
| JNull
| JBool (b : bool)
| JInt (z : Z)
| JFloat (f : pyfloat)
| JStr (s : pystr)
| JArr (items : list json)
| JObj (entries : list (pystr * json)).
#[local] Set Elimination Schemes.

(** [isinstance(data, dict)] *)
Definition is_dict (v : json) : bool :=
  match v with JObj _ => true | _ => false end.

(** [d.get(k)] on the association list of a dict *)
Fixpoint dict_get {A} (k : pystr) (d : list (pystr * A)) : option A :=
  match d with
  | [] => None
  | (k', v) :: d' => if pystr_eqb k k' then Some v else dict_get k d'
  end.

(** [d[k] = v]: an existing key keeps its position, a new key goes last. *)
Fixpoint dict_set {A} (k : pystr) (v : A) (d : list (pystr * A))
  : list (pystr * A) :=
  match d with
  | [] => [(k, v)]
  | (k', v') :: d' =>
      if pystr_eqb k k' then (k, v) :: d' else (k', v') :: dict_set k v d'
  end.

(** [dict(pairs)] *)
Definition dict_of_pairs {A} (pairs : list (pystr * A)) : list (pystr * A) :=
  fold_left (fun d kv => dict_set (fst kv) (snd kv) d) pairs [].

Definition keys {A} (d : list (pystr * A)) : list pystr := List.map fst d.

(** Deep equality, [a == b], between values of the same JSON type: lists
    compare element by element, dicts compare as mappings whatever the
    insertion order. (Python also identifies [True] with [1] and [1] with
    [1.0]; those cross-type equalities are not claimed here, so
    [py_eq a b = true] is sufficient for [a == b].) *)
Fixpoint py_eq (a b : json) : bool :=
  match a, b with
  | JNull, JNull => true
  | JBool x, JBool y => Bool.eqb x y
  | JInt x, JInt y => (x =? y)%Z
  | JFloat x, JFloat y => float_eqb x y
  | JStr x, JStr y => pystr_eqb x y
  | JArr xs, JArr ys =>
      (fix go (l1 l2 : list json) : bool :=
         match l1, l2 with
         | [], [] => true
         | x :: l1', y :: l2' => py_eq x y && go l1' l2'
         | _, _ => false
         end) xs ys
  | JObj m1, JObj m2 =>
      (length m1 =? length m2)%nat &&
      (fix all (l : list (pystr * json)) : bool :=
         match l with
         | [] => true
         | (k, x) :: l' =>
             match dict_get k m2 with
             | Some y => py_eq x y
             | None => false
             end && all l'
         end) m1
  | _, _ => false
  end.

(* ===================================================================== *)
(** ** [json.dumps(obj, separators=(",", ":"), sort_keys=True)] *)
(* ===================================================================== *)

Definition hexdigit (n : N) : N :=
  if n <? 10 then 48 + n else 87 + n.      (* '0'..'9', 'a'..'f' *)

(** ['{0:04x}'.format(n)] for [n < 0x10000] *)
Definition hex4 (n : N) : pystr :=
  [ hexdigit (N.shiftr n 12 mod 16); hexdigit (N.shiftr n 8 mod 16);
    hexdigit (N.shiftr n 4 mod 16); hexdigit (n mod 16) ].

Definition backslash : N := 92.
Definition quote : N := 34.

Definition u_escape (n : N) : pystr := backslash :: 117 :: hex4 n.

(** The replacement [py_encode_basestring_ascii] makes for one character:
    printable ASCII other than the quote and the backslash stays, the rest
    is escaped; a code point above the BMP becomes a surrogate pair. *)
Definition escape_char (c : N) : pystr :=
  if c =? quote then [backslash; quote]
  else if c =? backslash then [backslash; backslash]
  else if (32 <=? c) && (c <=? 126) then [c]
  else if c =? 8 then [backslash; 98]        (* \b *)
  else if c =? 12 then [backslash; 102]      (* \f *)
  else if c =? 10 then [backslash; 110]      (* \n *)
  else if c =? 13 then [backslash; 114]      (* \r *)
  else if c =? 9 then [backslash; 116]       (* \t *)
  else if c <? 65536 then u_escape c
  else
    let n := c - 65536 in
    let s1 := N.lor 55296 (N.land (N.shiftr n 10) 1023) in
    let s2 := N.lor 56320 (N.land n 1023) in
    u_escape s1 ++ u_escape s2.

Definition encode_basestring_ascii (s : pystr) : pystr :=
  quote :: flat_map escape_char s ++ [quote].

Fixpoint chars_of_uint (d : Decimal.uint) : pystr :=
  match d with
  | Decimal.Nil => []
  | Decimal.D0 d' => 48 :: chars_of_uint d'
  | Decimal.D1 d' => 49 :: chars_of_uint d'
  | Decimal.D2 d' => 50 :: chars_of_uint d'
  | Decimal.D3 d' => 51 :: chars_of_uint d'
  | Decimal.D4 d' => 52 :: chars_of_uint d'
  | Decimal.D5 d' => 53 :: chars_of_uint d'
  | Decimal.D6 d' => 54 :: chars_of_uint d'
  | Decimal.D7 d' => 55 :: chars_of_uint d'
  | Decimal.D8 d' => 56 :: chars_of_uint d'
  | Decimal.D9 d' => 57 :: chars_of_uint d'
  end.

(** [int.__repr__] *)
Definition int_repr (z : Z) : pystr :=
  match z with
  | Z0 => [48]
  | Zpos p => chars_of_uint (Pos.to_uint p)
  | Zneg p => 45 :: chars_of_uint (Pos.to_uint p)
  end.

(** Insertion into a list of items sorted by key; [sorted] is stable and the
    keys of a dict are distinct, so any stable sort gives the same list. *)
Fixpoint insert_item {A} (kv : pystr * A) (l : list (pystr * A))
  : list (pystr * A) :=
  match l with
  | [] => [kv]
  | kv' :: l' =>
      if pystr_leb (fst kv) (fst kv') then kv :: kv' :: l'
      else kv' :: insert_item kv l'
  end.

(** [sorted(items)] for items with distinct [str] keys *)
Definition sorted_items {A} (l : list (pystr * A)) : list (pystr * A) :=
  fold_right insert_item [] l.

Definition comma : N := 44.
Definition colon : N := 58.

Definition dump_item (kv : pystr * pystr) : pystr :=
  encode_basestring_ascii (fst kv) ++ colon :: snd kv.

(** The encoder. The items of a dict are ordered by key and each value is
    encoded by the recursive call; as the order depends on the keys only,
    the values are encoded first and the encoded items are sorted. *)
Fixpoint dumps (v : json) : pystr :=
  match v with
  | JNull => str "null"
  | JBool true => str "true"
  | JBool false => str "false"
  | JInt z => int_repr z
  | JFloat f => floatstr f
  | JStr s => encode_basestring_ascii s
  | JArr items => 91 :: join [comma] (List.map dumps items) ++ [93]
  | JObj entries =>
      123 :: join [comma]
               (List.map dump_item
                  (sorted_items
                     (List.map (fun kv => (fst kv, dumps (snd kv))) entries)))
          ++ [125]
  end.

(* ===================================================================== *)
(** ** [json.loads] *)
(* ===================================================================== *)

(** The decoder reads a [str] and returns [None] where Python raises
    [JSONDecodeError]. The sub-scanners return the value read and the rest
    of the text. *)

Definition is_ws (c : N) : bool :=
  (c =? 32) || (c =? 9) || (c =? 10) || (c =? 13).

(** [WHITESPACE.match(s, end).end()] *)
Fixpoint skip_ws (s : pystr) : pystr :=
  match s with
  | c :: r => if is_ws c then skip_ws r else s
  | [] => []
  end.

Definition is_digit (c : N) : bool := (48 <=? c) && (c <=? 57).

(** The longest run of decimal digits at the head of [s]. *)
Fixpoint scan_digits (s : pystr) : pystr * pystr :=
  match s with
  | c :: r =>
      if is_digit c
      then let '(ds, r') := scan_digits r in (c :: ds, r')
      else ([], s)
  | [] => ([], [])
  end.

Definition hexval (c : N) : option N :=
  if is_digit c then Some (c - 48)
  else if (97 <=? c) && (c <=? 102) then Some (c - 87)
  else if (65 <=? c) && (c <=? 70) then Some (c - 55)
  else None.

(** [int(esc, 16)] on the four characters after [\u] *)
Definition hex4val (a b c d : N) : option N :=
  match hexval a, hexval b, hexval c, hexval d with
  | Some a, Some b, Some c, Some d => Some (((a * 16 + b) * 16 + c) * 16 + d)
  | _, _, _, _ => None
  end.

Definition is_high_surrogate (n : N) : bool := (55296 <=? n) && (n <=? 56319).
Definition is_low_surrogate (n : N) : bool := (56320 <=? n) && (n <=? 57343).

(** [BACKSLASH[esc]] *)
Definition unescape (e : N) : option N :=
  if e =? quote then Some quote
  else if e =? backslash then Some backslash
  else if e =? 47 then Some 47
  else if e =? 98 then Some 8
  else if e =? 102 then Some 12
  else if e =? 110 then Some 10
  else if e =? 114 then Some 13
  else if e =? 116 then Some 9
  else None.

Definition prepend {A} (c : N) (res : option (pystr * A)) : option (pystr * A) :=
  match res with
  | Some (t, r) => Some (c :: t, r)
  | None => None
  end.

(** [scanstring(s, end, strict=True)], entered after the opening quote:
    the content up to the closing quote, escapes decoded, and what follows
    the closing quote. *)
Fixpoint scanstring (s : pystr) : option (pystr * pystr) :=
  match s with
  | [] => None                                   (* unterminated *)
  | c :: r =>
      if c =? quote then Some ([], r)
      else if c =? backslash then
        match r with
        | [] => None
        | e :: r1 =>
            if e =? 117 then
              match r1 with
              | a :: b :: c' :: d :: r2 =>
                  match hex4val a b c' d with
                  | None => None
                  | Some uni =>
                      if is_high_surrogate uni then
                        match r2 with
                        | b1 :: u1 :: h1 :: h2 :: h3 :: h4 :: r3 =>
                            if (b1 =? backslash) && (u1 =? 117) then
                              match hex4val h1 h2 h3 h4 with
                              | None => None
                              | Some uni2 =>
                                  if is_low_surrogate uni2
                                  then prepend
                                         (65536 +
                                          N.lor (N.shiftl (uni - 55296) 10)
                                                (uni2 - 56320))
                                         (scanstring r3)
                                  else prepend uni (scanstring r2)
                              end
                            else prepend uni (scanstring r2)
                        | _ => prepend uni (scanstring r2)
                        end
                      else prepend uni (scanstring r2)
                  end
              | _ => None
              end
            else
              match unescape e with
              | Some ch => prepend ch (scanstring r1)
              | None => None
              end
        end
      else if c <? 32 then None                   (* control character *)
      else prepend c (scanstring r)
  end.

Definition digit_of_char (c : N) (d : Decimal.uint) : Decimal.uint :=
  if c =? 48 then Decimal.D0 d else if c =? 49 then Decimal.D1 d
  else if c =? 50 then Decimal.D2 d else if c =? 51 then Decimal.D3 d
  else if c =? 52 then Decimal.D4 d else if c =? 53 then Decimal.D5 d
  else if c =? 54 then Decimal.D6 d else if c =? 55 then Decimal.D7 d
  else if c =? 56 then Decimal.D8 d else Decimal.D9 d.

Fixpoint uint_of_chars (s : pystr) : Decimal.uint :=
  match s with
  | [] => Decimal.Nil
  | c :: r => digit_of_char c (uint_of_chars r)
  end.

(** [int(text)] on a token [-?digits] *)
Definition int_of_str (s : pystr) : Z :=
  match s with
  | c :: r =>
      if c =? 45 then Z.opp (Z.of_uint (uint_of_chars r))
      else Z.of_uint (uint_of_chars s)
  | [] => 0%Z
  end.

(** The three groups of [NUMBER_RE]: an optional minus sign and either a
    single 0 or a digit 1-9 followed by digits; optionally a dot and at
    least one digit; optionally e or E, an optional sign and at least one
    digit. Each optional group is taken whenever it matches. *)
Definition scan_sign (s : pystr) : pystr * pystr :=
  match s with
  | c :: r => if c =? 45 then ([45], r) else ([], s)
  | [] => ([], s)
  end.

Definition scan_int_part (s : pystr) : option (pystr * pystr) :=
  match s with
  | c :: r =>
      if c =? 48 then Some ([48], r)
      else if is_digit c then Some (scan_digits s)
      else None
  | [] => None
  end.

Definition scan_frac (s : pystr) : pystr * pystr :=
  match s with
  | c :: r =>
      if c =? 46 then
        match scan_digits r with
        | ([], _) => ([], s)
        | (ds, r') => (46 :: ds, r')
        end
      else ([], s)
  | [] => ([], s)
  end.

Definition scan_exp (s : pystr) : pystr * pystr :=
  match s with
  | c :: r =>
      if (c =? 101) || (c =? 69) then
        let '(sign, r1) :=
          match r with
          | d :: r' => if (d =? 45) || (d =? 43) then ([d], r') else ([], r)
          | [] => ([], r)
          end in
        match scan_digits r1 with
        | ([], _) => ([], s)
        | (ds, r2) => (c :: sign ++ ds, r2)
        end
      else ([], s)
  | [] => ([], s)
  end.

(** [match_number] and the choice between [parse_int] and [parse_float] *)
Definition match_number (s : pystr) : option (json * pystr) :=
  let '(sign, s1) := scan_sign s in
  match scan_int_part s1 with
  | None => None
  | Some (ip, s2) =>
      let '(frac, s3) := scan_frac s2 in
      let '(ex, s4) := scan_exp s3 in
      match frac, ex with
      | [], [] => Some (JInt (int_of_str (sign ++ ip)), s4)
      | _, _ => Some (JFloat (float_of_str (sign ++ ip ++ frac ++ ex)), s4)
      end
  end.

(** [scan_once], [JSONArray] and [JSONObject]. The three call each other
    on ever shorter text; [fuel] bounds the depth of the calls, and a fuel
    above the length of the text is never used up. [array_items] is entered
    at the first value of a non-empty array, [object_items] after the
    opening quote of a key. *)
Fixpoint scan_once (fuel : nat) (s : pystr) {struct fuel}
  : option (json * pystr) :=
  match fuel with
  | O => None
  | S fuel' =>
      match s with
      | [] => None
      | c :: r =>
          if c =? quote then
            match scanstring r with
            | Some (t, r') => Some (JStr t, r')
            | None => None
            end
          else if c =? 123 then
            match skip_ws r with
            | c1 :: r1 =>
                if c1 =? 125 then Some (JObj [], r1)
                else if c1 =? quote then
                  match object_items fuel' r1 with
                  | Some (pairs, r') => Some (JObj (dict_of_pairs pairs), r')
                  | None => None
                  end
                else None
            | [] => None
            end
          else if c =? 91 then
            match skip_ws r with
            | c1 :: r1 =>
                if c1 =? 93 then Some (JArr [], r1)
                else
                  match array_items fuel' (c1 :: r1) with
                  | Some (vs, r') => Some (JArr vs, r')
                  | None => None
                  end
            | [] => None
            end
          else if startswith (str "null") s then Some (JNull, skipn 4 s)
          else if startswith (str "true") s then Some (JBool true, skipn 4 s)
          else if startswith (str "false") s then Some (JBool false, skipn 5 s)
          else
            match match_number s with
            | Some res => Some res
            | None =>
                if startswith (str "NaN") s
                then Some (JFloat (float_of_str (str "NaN")), skipn 3 s)
                else if startswith (str "Infinity") s
                then Some (JFloat (float_of_str (str "Infinity")), skipn 8 s)
                else if startswith (str "-Infinity") s
                then Some (JFloat (float_of_str (str "-Infinity")), skipn 9 s)
                else None
            end
      end
  end
with array_items (fuel : nat) (s : pystr) {struct fuel}
  : option (list json * pystr) :=
  match fuel with
  | O => None
  | S fuel' =>
      match scan_once fuel' s with
      | None => None
      | Some (v, r) =>
          match skip_ws r with
          | c :: r1 =>
              if c =? 93 then Some ([v], r1)
              else if c =? comma then
                match array_items fuel' (skip_ws r1) with
                | Some (vs, r2) => Some (v :: vs, r2)
                | None => None
                end
              else None
          | [] => None
          end
      end
  end
with object_items (fuel : nat) (s : pystr) {struct fuel}
  : option (list (pystr * json) * pystr) :=
  match fuel with
  | O => None
  | S fuel' =>
      match scanstring s with
      | None => None
      | Some (key, r) =>
          match skip_ws r with
          | c :: r1 =>
              if c =? colon then
                match scan_once fuel' (skip_ws r1) with
                | None => None
                | Some (v, r2) =>
                    match skip_ws r2 with
                    | c2 :: r3 =>
                        if c2 =? 125 then Some ([(key, v)], r3)
                        else if c2 =? comma then
                          match skip_ws r3 with
                          | c3 :: r4 =>
                              if c3 =? quote then
                                match object_items fuel' r4 with
                                | Some (ps, r5) => Some ((key, v) :: ps, r5)
                                | None => None
                                end
                              else None
                          | [] => None
                          end
                        else None
                    | [] => None
                    end
                end
              else None
          | [] => None
          end
      end
  end.

(** [json.loads(s)] for a [str]: an optional run of whitespace, one value,
    whitespace, the end of the text. A leading byte-order mark is refused. *)
Definition loads (s : pystr) : option json :=
  if startswith [65279] s then None
  else
    match scan_once (S (length s)) (skip_ws s) with
    | Some (v, r) =>
        match skip_ws r with
        | [] => Some v
        | _ :: _ => None
        end
    | None => None
    end.

(** *** One step of each scanner *)

(** The bodies of [scan_once], [array_items] and [object_items] with the
    scanners they call taken as arguments: what one call does, given what
    the calls below it return. *)
Definition scan_value
    (arr : pystr -> option (list json * pystr))
    (obj : pystr -> option (list (pystr * json) * pystr))
    (s : pystr) : option (json * pystr) :=
  match s with
  | [] => None
  | c :: r =>
      if c =? quote then
        match scanstring r with
        | Some (t, r') => Some (JStr t, r')
        | None => None
        end
      else if c =? 123 then
        match skip_ws r with
        | c1 :: r1 =>
            if c1 =? 125 then Some (JObj [], r1)
            else if c1 =? quote then
              match obj r1 with
              | Some (pairs, r') => Some (JObj (dict_of_pairs pairs), r')
              | None => None
              end
            else None
        | [] => None
        end
      else if c =? 91 then
        match skip_ws r with
        | c1 :: r1 =>
            if c1 =? 93 then Some (JArr [], r1)
            else
              match arr (c1 :: r1) with
              | Some (vs, r') => Some (JArr vs, r')
              | None => None
              end
        | [] => None
        end
      else if startswith (str "null") s then Some (JNull, skipn 4 s)
      else if startswith (str "true") s then Some (JBool true, skipn 4 s)
      else if startswith (str "false") s then Some (JBool false, skipn 5 s)
      else
        match match_number s with
        | Some res => Some res
        | None =>
            if startswith (str "NaN") s
            then Some (JFloat (float_of_str (str "NaN")), skipn 3 s)
            else if startswith (str "Infinity") s
            then Some (JFloat (float_of_str (str "Infinity")), skipn 8 s)
            else if startswith (str "-Infinity") s
            then Some (JFloat (float_of_str (str "-Infinity")), skipn 9 s)
            else None
        end
  end.

Definition scan_array
    (val : pystr -> option (json * pystr))
    (arr : pystr -> option (list json * pystr))
    (s : pystr) : option (list json * pystr) :=
  match val s with
  | None => None
  | Some (v, r) =>
      match skip_ws r with
      | c :: r1 =>
          if c =? 93 then Some ([v], r1)
          else if c =? comma then
            match arr (skip_ws r1) with
            | Some (vs, r2) => Some (v :: vs, r2)
            | None => None
            end
          else None
      | [] => None
      end
  end.

Definition scan_object
    (val : pystr -> option (json * pystr))
    (obj : pystr -> option (list (pystr * json) * pystr))
    (s : pystr) : option (list (pystr * json) * pystr) :=
  match scanstring s with
  | None => None
  | Some (key, r) =>
      match skip_ws r with
      | c :: r1 =>
          if c =? colon then
            match val (skip_ws r1) with
            | None => None
            | Some (v, r2) =>
                match skip_ws r2 with
                | c2 :: r3 =>
                    if c2 =? 125 then Some ([(key, v)], r3)
                    else if c2 =? comma then
                      match skip_ws r3 with
                      | c3 :: r4 =>
                          if c3 =? quote then
                            match obj r4 with
                            | Some (ps, r5) => Some ((key, v) :: ps, r5)
                            | None => None
                            end
                          else None
                      | [] => None
                      end
                    else None
                | [] => None
                end
            end
          else None
      | [] => None
      end
  end.

(** A scanner [shortens] when what it leaves is shorter than what it was
    given; [upto n a a'] says that [a'] returns whatever [a] returns on at
    most [n] characters of text. *)
Definition shortens {A} (a : pystr -> option (A * pystr)) : Prop :=
  forall s x r, a s = Some (x, r) -> (length r < length s)%nat.

Definition upto {A} (n : nat) (a a' : pystr -> option (A * pystr)) : Prop :=
  forall s x r,
    a s = Some (x, r) -> (length s <= n + length r)%nat -> a' s = Some (x, r).

(** *** What counts as a JSON value *)

(** A string of Unicode text: every element is a code point, and no high
    surrogate is followed by a low surrogate (such a pair is one character
    above the BMP, and is kept as that one code point). *)
Fixpoint str_okb (s : pystr) : bool :=
  match s with
  | [] => true
  | c :: r =>
      (c <? 1114112)
      && (if is_high_surrogate c
          then match r with
               | c2 :: _ => negb (is_low_surrogate c2)
               | [] => true
               end
          else true)
      && str_okb r
  end.

(** What may follow a value in a JSON text: nothing, a comma or a closing
    bracket. *)
Definition delimited (rest : pystr) : Prop :=
  match rest with
  | [] => True
  | c :: _ => c = comma \/ c = 93 \/ c = 125
  end.

(** A float whose text the decoder reads back as a float equal to it:
    what [float.__repr__] promises for every float but [nan]. *)
Definition float_reads_back (f : pyfloat) : Prop :=
  float_eqb (float_of_str (floatstr f)) f = true /\
  forall fuel rest,
    delimited rest ->
    scan_once (S fuel) (floatstr f ++ rest)
      = Some (JFloat (float_of_str (floatstr f)), rest).

(** A JSON value: the keys of every dict are pairwise distinct (as in any
    Python dict), every string is Unicode text, every float reads back. *)
Fixpoint json_ok (v : json) : Prop :=
  match v with
  | JFloat f => float_reads_back f
  | JStr s => str_okb s = true
  | JArr items =>
      (fix all (l : list json) : Prop :=
         match l with
         | [] => True
         | x :: l' => json_ok x /\ all l'
         end) items
  | JObj entries =>
      NoDup (keys entries) /\
      (fix all (l : list (pystr * json)) : Prop :=
         match l with
         | [] => True
         | kv :: l' => (str_okb (fst kv) = true /\ json_ok (snd kv)) /\ all l'
         end) entries
  | _ => True
  end.

(** What the decoder returns for the text of [v]: the same value with the
    items of every dict in the order of their keys, and every float read
    back from its text. *)
Fixpoint canon (v : json) : json :=
  match v with
  | JFloat f => JFloat (float_of_str (floatstr f))
  | JArr items => JArr (List.map canon items)
  | JObj entries =>
      JObj (sorted_items
              (List.map (fun kv => (fst kv, canon (snd kv))) entries))
  | _ => v
  end.

(** The scanner reads the text of [v] back, whatever delimiter follows,
    with any fuel above the length of the text. *)
Definition reads_back (v : json) : Prop :=
  forall fuel rest,
    delimited rest -> (length (dumps v) < fuel)%nat ->
    scan_once fuel (dumps v ++ rest) = Some (canon v, rest).

(** The text of an item after the opening quote of its key. *)
Definition item_body (kv : pystr * json) : pystr :=
  flat_map escape_char (fst kv) ++ quote :: colon :: dumps (snd kv).

(** The characters a value can start with. *)
Definition starts_value (c : N) : bool :=
  (c =? quote) || (c =? 123) || (c =? 91) || is_digit c || (c =? 45)
  || (c =? 110) || (c =? 116) || (c =? 102) || (c =? 78) || (c =? 73).

End Json.

(* ===================================================================== *)
(** ** The UTF-8 codec *)
(* ===================================================================== *)

Definition is_cont (b : N) : bool := (128 <=? b) && (b <? 192).

Definition is_surrogate (n : N) : bool := (55296 <=? n) && (n <=? 57343).

(** [data.decode("utf-8", errors="strict")]; [None] is [UnicodeDecodeError].
    Overlong forms, surrogates and code points above U+10FFFF are refused. *)
Fixpoint utf8_decode (data : pybytes) : option pystr :=
  match data with
  | [] => Some []
  | b0 :: r0 =>
      if b0 <? 128 then option_map (cons b0) (utf8_decode r0)
      else if b0 <? 194 then None
      else if b0 <? 224 then
        match r0 with
        | b1 :: r1 =>
            if is_cont b1
            then option_map (cons ((b0 - 192) * 64 + (b1 - 128)))
                            (utf8_decode r1)
            else None
        | [] => None
        end
      else if b0 <? 240 then
        match r0 with
        | b1 :: b2 :: r2 =>
            let cp := (b0 - 224) * 4096 + (b1 - 128) * 64 + (b2 - 128) in
            if is_cont b1 && is_cont b2 && (2048 <=? cp)
               && negb (is_surrogate cp)
            then option_map (cons cp) (utf8_decode r2)
            else None
        | _ => None
        end
      else if b0 <? 245 then
        match r0 with
        | b1 :: b2 :: b3 :: r3 =>
            let cp := (b0 - 240) * 262144 + (b1 - 128) * 4096
                      + (b2 - 128) * 64 + (b3 - 128) in
            if is_cont b1 && is_cont b2 && is_cont b3
               && (65536 <=? cp) && (cp <? 1114112)
            then option_map (cons cp) (utf8_decode r3)
            else None
        | _ => None
        end
      else None
  end.

(** The bytes of one code point; [None] for a surrogate or a value that is
    no code point ([UnicodeEncodeError]). *)
Definition utf8_encode_char (c : N) : option pybytes :=
  if c <? 128 then Some [c]
  else if c <? 2048 then Some [192 + c / 64; 128 + c mod 64]
  else if is_surrogate c then None
  else if c <? 65536
  then Some [224 + c / 4096; 128 + (c / 64) mod 64; 128 + c mod 64]
  else if c <? 1114112
  then Some [240 + c / 262144; 128 + (c / 4096) mod 64;
             128 + (c / 64) mod 64; 128 + c mod 64]
  else None.

(** [text.encode("utf-8")] *)
Fixpoint utf8_encode (text : pystr) : option pybytes :=
  match text with
  | [] => Some []
  | c :: r =>
      match utf8_encode_char c, utf8_encode r with
      | Some b, Some bs => Some (b ++ bs)
      | _, _ => None
      end
  end.

(* ===================================================================== *)
(** ** Paths *)
(* ===================================================================== *)

Definition slash : ascii := "/"%char.

(** [p[:p.rfind("/") + 1]] *)
Fixpoint upto_last_slash (p : list ascii) : list ascii :=
  match p with
  | [] => []
  | c :: r =>
      match upto_last_slash r with
      | [] => if Ascii.eqb c slash then [c] else []
      | h => c :: h
      end
  end.

(** [head.rstrip("/")] *)
Fixpoint rstrip_slash (p : list ascii) : list ascii :=
  match p with
  | [] => []
  | c :: r =>
      match rstrip_slash r with
      | [] => if Ascii.eqb c slash then [] else [c]
      | t => c :: t
      end
  end.

(** [os.path.dirname] (posixpath) *)
Definition dirname (p : string) : string :=
  let head := upto_last_slash (list_ascii_of_string p) in
  string_of_list_ascii
    (if forallb (Ascii.eqb slash) head then head else rstrip_slash head).

(** [os.path.join(d, name)] for a non-empty [d] and a relative [name] *)
Definition path_join (d name : string) : string :=
  match List.last (list_ascii_of_string d) slash with
  | c => if Ascii.eqb c slash then (d ++ name)%string
         else (d ++ "/" ++ name)%string
  end.

(* ===================================================================== *)
(** ** Exceptions *)
(* ===================================================================== *)

Inductive exn :=
| JSONDecodeError
| UnicodeDecodeError
| UnicodeEncodeError
| FileNotFoundError
| FileExistsError
| OSError (what : string)
| RuntimeError (what : string)
| KeyboardInterrupt
| SystemExit.

(** [isinstance(e, Exception)]: everything but the two that derive from
    [BaseException] directly. *)
Definition is_Exception (e : exn) : bool :=
  match e with
  | KeyboardInterrupt | SystemExit => false
  | _ => true
  end.

Definition is_JSONDecodeError (e : exn) : bool :=
  match e with JSONDecodeError => true | _ => false end.

Definition is_KeyboardInterrupt (e : exn) : bool :=
  match e with KeyboardInterrupt => true | _ => false end.

Inductive result (A : Type) :=
| Ok (a : A)
| Raise (e : exn).
Arguments Ok {A} a.
Arguments Raise {A} e.

(* ===================================================================== *)
(** ** The world the three processes run in *)
(* ===================================================================== *)

Section World.
Context `{PyFloat}.

(** The OpenPLC runtime behind the [psm] module: its variable space and
    what the five calls of the module do to it. Whether a call raises is
    not decided here but by the fault plan of the world. *)
Class Psm := {
  plc : Type;
  plc_start : plc -> plc;
  plc_stop : plc -> plc;
  plc_should_quit : plc -> bool;
  plc_set_var : pystr -> json -> plc -> plc;
  plc_get_var : pystr -> plc -> json
}.
Context `{Psm}.

(** External calls, in the order they are made. A call is recorded when it
    is made, whether it then raises or returns. *)
Inductive event :=
| EvMkstemp (dir file : string)              (* tempfile: create [file] in [dir] *)
| EvWrite (file : string) (text : pystr)     (* [json.dump(obj, tf)] *)
| EvFlush (file : string)                    (* [tf.flush()] *)
| EvFsync (file : string)                    (* [os.fsync(tf.fileno())] *)
| EvClose (file : string)                    (* leaving the [with] block *)
| EvReplace (src dst : string)               (* [os.replace(src, dst)] *)
| EvGetsize (file : string)                  (* [os.path.getsize] *)
| EvOpenRead (file : string)                 (* [open(file, "r")] and the read *)
| EvPsmStart
| EvPsmStop
| EvShouldQuit                               (* [psm.should_quit()] *)
| EvSetVar (name : pystr) (value : json)     (* [psm.set_var] *)
| EvGetVar (name : pystr)                    (* [psm.get_var] *)
| EvPublish (topic : string) (payload : pystr) (qos : nat) (retain : bool).

(** What the programs print. The text of a line is fixed by the program
    apart from the values shown here. *)
Inductive log_line :=
| PsmInitWarning (path : string) (e : exn)
| PsmIgnoringNonObject
| PsmErrorInUpdateInputs (e : exn)
| PsmErrorInUpdateOutputs (e : exn)
| InIgnoredPayload
| InWarningKeys (bad_keys : list pystr)
| InWrote (path : string) (data : json)
| InNotValidJson
| InError (e : exn)
| OutConnected
| OutErrorReading (path : string) (e : exn)
| OutPublished (topic : string) (payload : pystr)
| OutStopping.

Record world := World {
  fs : gmap string pybytes;        (* the regular files, by path *)
  buffers : gmap string pystr;     (* text written to an open file, not flushed yet *)
  stdout : list log_line;          (* the lines printed, oldest first *)
  trace : list event;              (* the external calls, oldest first *)
  controller : plc;                (* the OpenPLC runtime *)
  clock : nat;                     (* how many calls that may raise were made *)
  faults : nat -> option exn;      (* the fault plan: which of them raise *)
  tmp_seq : nat;                   (* how many temporary names were drawn *)
  tmp_names : nat -> string        (* tempfile's sequence of random names *)
}.

Definition set_fs (f : gmap string pybytes -> gmap string pybytes) (w : world) :=
  World (f (fs w)) (buffers w) (stdout w) (trace w) (controller w)
        (clock w) (faults w) (tmp_seq w) (tmp_names w).
Definition set_buffers (f : gmap string pystr -> gmap string pystr) (w : world) :=
  World (fs w) (f (buffers w)) (stdout w) (trace w) (controller w)
        (clock w) (faults w) (tmp_seq w) (tmp_names w).
Definition set_controller (f : plc -> plc) (w : world) :=
  World (fs w) (buffers w) (stdout w) (trace w) (f (controller w))
        (clock w) (faults w) (tmp_seq w) (tmp_names w).
Definition emit (ev : event) (w : world) :=
  World (fs w) (buffers w) (stdout w) (trace w ++ [ev]) (controller w)
        (clock w) (faults w) (tmp_seq w) (tmp_names w).
Definition tick (w : world) :=
  World (fs w) (buffers w) (stdout w) (trace w) (controller w)
        (S (clock w)) (faults w) (tmp_seq w) (tmp_names w).
Definition draw_name (w : world) :=
  World (fs w) (buffers w) (stdout w) (trace w) (controller w)
        (clock w) (faults w) (S (tmp_seq w)) (tmp_names w).

(** *** Programs: state and exceptions *)

Definition M (A : Type) : Type := world -> result A * world.

Definition ret {A} (a : A) : M A := fun w => (Ok a, w).
Definition raise {A} (e : exn) : M A := fun w => (Raise e, w).
Definition bind {A B} (m : M A) (k : A -> M B) : M B :=
  fun w => match m w with
           | (Ok a, w') => k a w'
           | (Raise e, w') => (Raise e, w')
           end.

Notation "x <- m ;; k" := (bind m (fun x => k)).
Notation "m ;;; k" := (bind m (fun _ => k)).

(** [try: body / except C1 as e: h1 / except C2 as e: h2 ...]: each clause
    says which exceptions it takes; the first clause that takes the
    exception handles it, and what a handler raises is not handled here. *)
Fixpoint handle {A} (clauses : list ((exn -> bool) * (exn -> M A))) (e : exn)
  : M A :=
  match clauses with
  | [] => raise e
  | (catches, handler) :: rest =>
      if catches e then handler e else handle rest e
  end.

Definition try_except {A} (body : M A)
    (clauses : list ((exn -> bool) * (exn -> M A))) : M A :=
  fun w => match body w with
           | (Ok a, w') => (Ok a, w')
           | (Raise e, w') => handle clauses e w'
           end.

(** [for x in xs: body x] *)
Fixpoint for_each {A} (xs : list A) (body : A -> M unit) : M unit :=
  match xs with
  | [] => ret tt
  | x :: xs' => body x ;;; for_each xs' body
  end.

(** [print(line)]: the line is added to what was printed. Writing to the
    console is taken to succeed. *)
Definition print (line : log_line) : M unit :=
  fun w => (Ok tt,
            World (fs w) (buffers w) (stdout w ++ [line]) (trace w)
                  (controller w) (clock w) (faults w) (tmp_seq w)
                  (tmp_names w)).

(** An external call that may raise: it is recorded, the fault plan decides
    whether it raises, and only a call that returns has its effect. *)
Definition external {A} (ev : event) (effect : world -> result A * world)
  : M A :=
  fun w =>
    let w1 := tick (emit ev w) in
    match faults w (clock w) with
    | Some e => (Raise e, w1)
    | None => effect w1
    end.

(** *** Files *)

(** [os.path.exists(path)]; it never raises. *)
Definition os_path_exists (path : string) : M bool :=
  fun w => (Ok (bool_decide (is_Some (fs w !! path))), w).

(** [os.path.getsize(path)] *)
Definition os_path_getsize (path : string) : M nat :=
  external (EvGetsize path)
    (fun w => match fs w !! path with
              | Some data => (Ok (length data), w)
              | None => (Raise FileNotFoundError, w)
              end).

(** [with open(path, "r") as f: f.read()]: the whole file as text. The
    text encoding is taken to be UTF-8, as on the Linux hosts the slots
    under [/tmp] belong to. Universal newlines are left out: they turn a
    carriage return into a line feed, the encoder writes neither raw, and
    the decoder treats both as white space. *)
Definition read_text (path : string) : M pystr :=
  external (EvOpenRead path)
    (fun w => match fs w !! path with
              | Some data =>
                  match utf8_decode data with
                  | Some text => (Ok text, w)
                  | None => (Raise UnicodeDecodeError, w)
                  end
              | None => (Raise FileNotFoundError, w)
              end).

(** [json.loads(text)] as a program; the limits of the interpreter
    (recursion depth, memory) are left out. *)
Definition json_loads (text : pystr) : M json :=
  match loads text with
  | Some v => ret v
  | None => raise JSONDecodeError
  end.

Definition TMP_MAX : nat := N.to_nat 10000.

(** The name search of [tempfile._mkstemp_inner]: draw names until one is
    free, at most [TMP_MAX] times. *)
Fixpoint free_name (tries : nat) (dir : string) (w : world)
  : option string * world :=
  match tries with
  | O => (None, w)
  | S tries' =>
      let file := path_join dir ("tmp" ++ tmp_names w (tmp_seq w)) in
      let w' := draw_name w in
      if bool_decide (is_Some (fs w !! file))
      then free_name tries' dir w'
      else (Some file, w')
  end.

(** [tempfile.NamedTemporaryFile("w", dir=dir, delete=False)]: a new empty
    file in [dir], open for writing; the result is its name. [tempfile]
    makes [dir] absolute before it joins the name; [dir] is taken to be
    absolute and in normal form already, as [/tmp] is, the directory of
    both slots. *)
Definition NamedTemporaryFile (dir : string) : M string :=
  fun w =>
    match free_name TMP_MAX dir w with
    | (None, w') => (Raise FileExistsError, w')
    | (Some file, w') =>
        external (EvMkstemp dir file)
          (fun w => (Ok file,
                     set_buffers (insert file [])
                       (set_fs (insert file []) w))) w'
    end.

(** [json.dump(obj, tf, separators=(",", ":"), sort_keys=True)]: the text
    goes to the buffer of the file. *)
Definition json_dump (obj : json) (tf : string) : M unit :=
  external (EvWrite tf (dumps obj))
    (fun w => (Ok tt,
               set_buffers
                 (insert tf (default [] (buffers w !! tf) ++ dumps obj)) w)).

(** Moving the buffer of [tf] into the file. *)
Definition flush_buffer (tf : string) (w : world) : result unit * world :=
  match utf8_encode (default [] (buffers w !! tf)) with
  | Some data =>
      (Ok tt,
       set_buffers (insert tf [])
         (set_fs (insert tf (default [] (fs w !! tf) ++ data)) w))
  | None => (Raise UnicodeEncodeError, w)
  end.

(** [tf.flush()] *)
Definition tf_flush (tf : string) : M unit :=
  external (EvFlush tf) (flush_buffer tf).

(** [os.fsync(tf.fileno())] *)
Definition os_fsync (tf : string) : M unit :=
  external (EvFsync tf) (fun w => (Ok tt, w)).

(** Closing the file at the end of the [with] block: what is still in the
    buffer is written, the file is no longer open. *)
Definition tf_close (tf : string) : M unit :=
  external (EvClose tf)
    (fun w => match flush_buffer tf w with
              | (r, w') => (r, set_buffers (delete tf) w')
              end).

(** [with ... as tf: body]: the file is closed however the body ends; an
    exception of the body is raised again after the close. *)
Definition with_file {A} (tf : string) (body : M A) : M A :=
  fun w => match body w with
           | (Ok a, w') => (tf_close tf ;;; ret a) w'
           | (Raise e, w') =>
               match tf_close tf w' with
               | (Ok _, w'') => (Raise e, w'')
               | (Raise e', w'') => (Raise e', w'')
               end
           end.

(** [os.replace(src, dst)]: [dst] gets the content of [src] in one step and
    [src] is gone. *)
Definition os_replace (src dst : string) : M unit :=
  external (EvReplace src dst)
    (fun w => match fs w !! src with
              | Some data =>
                  (Ok tt, set_fs (fun m => <[dst := data]> (delete src m)) w)
              | None => (Raise FileNotFoundError, w)
              end).

(** *** The controller *)

Definition psm_start : M unit :=
  external EvPsmStart (fun w => (Ok tt, set_controller plc_start w)).
Definition psm_stop : M unit :=
  external EvPsmStop (fun w => (Ok tt, set_controller plc_stop w)).
Definition psm_should_quit : M bool :=
  external EvShouldQuit (fun w => (Ok (plc_should_quit (controller w)), w)).
Definition psm_set_var (name : pystr) (value : json) : M unit :=
  external (EvSetVar name value)
    (fun w => (Ok tt, set_controller (plc_set_var name value) w)).
Definition psm_get_var (name : pystr) : M json :=
  external (EvGetVar name)
    (fun w => (Ok (plc_get_var name (controller w)), w)).

(** *** The broker *)

(** [client.publish(topic, payload, qos=qos, retain=retain)]: the call is
    recorded and is taken to return; the fault plan does not cover it. *)
Definition client_publish (topic : string) (payload : pystr) (qos : nat)
    (retain : bool) : M unit :=
  fun w => (Ok tt, emit (EvPublish topic payload qos retain) w).

End World.

Notation "x <- m ;; k" := (bind m (fun x => k)).
Notation "m ;;; k" := (bind m (fun _ => k)).

(* ===================================================================== *)
(** ** PSM_annotated.py: the scan driver *)
(* ===================================================================== *)

Module PSM.
Section Program.
Context `{PyFloat} `{!Psm}.

Definition INPUT_PATH : string := "/tmp/input.json".
Definition OUTPUT_PATH : string := "/tmp/output.json".

Definition OUTPUT_VARS : list pystr := [ str "QX0.0" ].

(** [directory = os.path.dirname(path) or "."] *)
Definition directory_of (path : string) : string :=
  match dirname path with
  | EmptyString => "."
  | d => d
  end.

Definition _atomic_write_json (path : string) (obj : json) : M unit :=
  let directory := directory_of path in
  tf <- NamedTemporaryFile directory ;;
  temp_name <- with_file tf
                 (json_dump obj tf ;;;
                  tf_flush tf ;;;
                  os_fsync tf ;;;
                  ret tf) ;;
  os_replace temp_name path.

Definition hardware_init : M unit :=
  psm_start ;;;
  try_except (_atomic_write_json OUTPUT_PATH (JObj []))
    [ (is_Exception, fun e => print (PsmInitWarning OUTPUT_PATH e)) ].

(** One entry of [for key, value in data.items()]. A key of a decoded JSON
    object is always a [str], so of the two tests of the source only
    [key.startswith("%")] can fail. *)
Definition apply_entry (entry : pystr * json) : M unit :=
  let '(key, value) := entry in
  if negb (startswith (str "%") key) then ret tt
  else
    let plc_name := drop_chars 1 key in
    psm_set_var plc_name value.

Definition update_inputs : M unit :=
  try_except
    (present <- os_path_exists INPUT_PATH ;;
     if negb present then ret tt
     else
       text <- read_text INPUT_PATH ;;
       data <- json_loads text ;;
       match data with
       | JObj entries => for_each entries apply_entry
       | _ => print PsmIgnoringNonObject
       end)
    [ (is_Exception, fun e => print (PsmErrorInUpdateInputs e)) ].

(** The loop of [update_outputs]: [output[f"%{addr}"] = psm.get_var(addr)]
    for every [addr] of [vars], starting from [output]. *)
Fixpoint collect (vars : list pystr) (output : list (pystr * json))
  : M (list (pystr * json)) :=
  match vars with
  | [] => ret output
  | addr :: vars' =>
      val <- psm_get_var addr ;;
      collect vars' (dict_set (str "%" ++ addr) val output)
  end.

(** [update_outputs] for a given list of exported variables *)
Definition update_outputs_of (vars : list pystr) : M unit :=
  try_except
    (output <- collect vars [] ;;
     _atomic_write_json OUTPUT_PATH (JObj output))
    [ (is_Exception, fun e => print (PsmErrorInUpdateOutputs e)) ].

Definition update_outputs : M unit := update_outputs_of OUTPUT_VARS.

(** One turn of the loop of the main block; [time.sleep(0.1)] has no effect
    on the world of the model. *)
Definition scan : M unit :=
  update_inputs ;;; update_outputs.

(** [while not psm.should_quit(): ...] for at most [periods] turns. The
    result tells whether the loop was left because the controller asked. *)
Fixpoint scan_loop (periods : nat) : M bool :=
  match periods with
  | O => ret false
  | S n =>
      quit <- psm_should_quit ;;
      if quit then ret true
      else scan ;;; scan_loop n
  end.

(** The main block, the loop bounded by [periods] *)
Definition main (periods : nat) : M bool :=
  hardware_init ;;;
  stopped <- scan_loop periods ;;
  if stopped then psm_stop ;;; ret true else ret false.

End Program.
End PSM.

(* ===================================================================== *)
(** ** mqtt_input_bridge_annotated.py: the inbound adapter *)
(* ===================================================================== *)

Module InputBridge.
Section Program.
Context `{PyFloat} `{!Psm}.

Definition MQTT_TOPIC : string := "plc/input".
Definition INPUT_PATH : string := "/tmp/input.json".

Definition directory_of (path : string) : string :=
  match dirname path with
  | EmptyString => "."
  | d => d
  end.

Definition atomically_write_json (path : string) (obj : json) : M unit :=
  let directory := directory_of path in
  tf <- NamedTemporaryFile directory ;;
  temp_name <- with_file tf
                 (json_dump obj tf ;;;
                  tf_flush tf ;;;
                  os_fsync tf ;;;
                  ret tf) ;;
  os_replace temp_name path.

(** [msg.payload.decode("utf-8", errors="strict")] *)
Definition decode_payload (payload : pybytes) : M pystr :=
  match utf8_decode payload with
  | Some text => ret text
  | None => raise UnicodeDecodeError
  end.

(** [[k for k in data if not isinstance(k, str) or not k.startswith("%")]];
    the keys of a decoded JSON object are all [str]. *)
Definition bad_keys_of (entries : list (pystr * json)) : list pystr :=
  List.filter (fun k => negb (startswith (str "%") k)) (keys entries).

(** [on_message(client, userdata, msg)], as a function of [msg.payload] *)
Definition on_message (payload : pybytes) : M unit :=
  try_except
    (text <- decode_payload payload ;;
     data <- json_loads text ;;
     match data with
     | JObj entries =>
         let bad_keys := bad_keys_of entries in
         match bad_keys with
         | [] => ret tt
         | _ :: _ => print (InWarningKeys bad_keys)
         end ;;;
         atomically_write_json INPUT_PATH data ;;;
         print (InWrote INPUT_PATH data)
     | _ => print InIgnoredPayload
     end)
    [ (is_JSONDecodeError, fun _ => print InNotValidJson);
      (is_Exception, fun e => print (InError e)) ].

End Program.
End InputBridge.

(* ===================================================================== *)
(** ** mqtt_output_bridge_annotated.py: the outbound adapter *)
(* ===================================================================== *)

Module OutputBridge.
Section Program.
Context `{PyFloat} `{!Psm}.

Definition MQTT_TOPIC : string := "plc/output".
Definition OUTPUT_PATH : string := "/tmp/output.json".

(** [read_json_if_ready(path)]. Python's [None] is the value of the JSON
    text [null], so the result is a [json] and [JNull] stands for [None]. *)
Definition read_json_if_ready (path : string) : M json :=
  try_except
    (present <- os_path_exists path ;;
     if negb present then ret JNull
     else
       size <- os_path_getsize path ;;
       if Nat.eqb size 0 then ret JNull
       else
         text <- read_text path ;;
         json_loads text)
    [ (is_JSONDecodeError, fun _ => ret JNull);
      (is_Exception, fun e => print (OutErrorReading path e) ;;; ret JNull) ].

Definition is_None (v : json) : bool :=
  match v with JNull => true | _ => false end.

(** [current_payload != previous_payload], where [previous_payload] is
    [None] or a [str] *)
Definition payload_differs (current : pystr) (previous : option pystr) : bool :=
  match previous with
  | None => true
  | Some p => negb (pystr_eqb current p)
  end.

(** One turn of the [while True] loop of [main]; the state carried from
    turn to turn is [previous_payload]. [time.sleep] has no effect on the
    world of the model. *)
Definition poll (previous_payload : option pystr) : M (option pystr) :=
  data <- read_json_if_ready OUTPUT_PATH ;;
  if negb (is_None data) then
    let current_payload := dumps data in
    if payload_differs current_payload previous_payload then
      client_publish MQTT_TOPIC current_payload 0 false ;;;
      print (OutPublished MQTT_TOPIC current_payload) ;;;
      ret (Some current_payload)
    else ret previous_payload
  else ret previous_payload.

(** What the rest of the system does to the outbound slot between two
    turns: [Some data] puts [data] there, [None] removes the file. *)
Definition set_slot (content : option pybytes) : M unit :=
  fun w => (Ok tt,
            set_fs (fun m => match content with
                             | Some data => <[OUTPUT_PATH := data]> m
                             | None => delete OUTPUT_PATH m
                             end) w).

(** The loop of [main] run against a sequence of slot contents, one per
    turn, from [previous_payload = None] or a later state. *)
Fixpoint poll_loop (contents : list (option pybytes))
    (previous_payload : option pystr) : M (option pystr) :=
  match contents with
  | [] => ret previous_payload
  | c :: rest =>
      set_slot c ;;;
      previous_payload' <- poll previous_payload ;;
      poll_loop rest previous_payload'
  end.

(** *** The process around the loop *)

Definition MQTT_HOST : string := "localhost".
Definition MQTT_PORT : nat := 1883.

(** The calls of [main] on the MQTT client other than [publish], and
    [time.sleep]. They are kept apart from the events of the world; like
    those, a call is recorded when it is made, and the fault plan of the
    world decides whether it raises. *)
Inductive client_call :=
| Connect (host : string) (port keepalive : nat)
| LoopStart
| LoopStop
| Disconnect
| Sleep.

(** The process: the world and the calls made so far. *)
Definition session : Type := world * list client_call.

(** A program of the process. *)
Definition process (A : Type) : Type := session -> result A * session.

(** Sequencing: an exception of the first part ends the whole. *)
Definition and_then {A B} (m : process A) (k : A -> process B) : process B :=
  fun s => match m s with
           | (Ok a, s') => k a s'
           | (Raise e, s') => (Raise e, s')
           end.

(** A program of the world run by the process. *)
Definition in_world {A} (m : M A) : process A :=
  fun s => match m (fst s) with
           | (r, w') => (r, (w', snd s))
           end.

(** One of those calls. *)
Definition client_op (c : client_call) : process unit :=
  fun s =>
    let s' := (tick (fst s), snd s ++ [c]) in
    match faults (fst s) (clock (fst s)) with
    | Some e => (Raise e, s')
    | None => (Ok tt, s')
    end.

(** The [while True] loop over a sequence of states of the slot, one per
    turn: the turn, then [time.sleep(POLL_INTERVAL_SEC)]. The loop has no
    exit of its own; the model stops at the end of the sequence. *)
Fixpoint serve (contents : list (option pybytes))
    (previous_payload : option pystr) : process (option pystr) :=
  match contents with
  | [] => fun s => (Ok previous_payload, s)
  | c :: rest =>
      and_then
        (in_world (set_slot c ;;; poll previous_payload))
        (fun previous_payload' =>
           and_then (client_op Sleep) (fun _ => serve rest previous_payload'))
  end.

(** [try: ... finally: client.loop_stop(); client.disconnect()] around a
    body that has ended with [r]: what the clean-up raises replaces [r]. *)
Definition finally_stop {A} (r : result A) : process A :=
  fun s =>
    match and_then (client_op LoopStop) (fun _ => client_op Disconnect) s with
    | (Ok _, s') => (r, s')
    | (Raise e, s') => (Raise e, s')
    end.

(** [main()]. The result is [false] when the model stopped the loop, and
    [true] when [main] returned. *)
Definition main (contents : list (option pybytes)) : process bool :=
  and_then (client_op (Connect MQTT_HOST MQTT_PORT 60)) (fun _ =>
  and_then (client_op LoopStart) (fun _ =>
  and_then (in_world (print OutConnected)) (fun _ =>
  fun s =>
    match serve contents None s with
    | (Ok _, s1) => (Ok false, s1)
    | (Raise e, s1) =>
        if is_KeyboardInterrupt e
        then and_then (in_world (print OutStopping))
               (fun _ => finally_stop (Ok true)) s1
        else finally_stop (Raise e) s1
    end))).

End Program.
End OutputBridge.

(* ===================================================================== *)
(** ** Instances and worlds to compute with *)
(* ===================================================================== *)

(** A float library: a float is kept as the ASCII text it was read from.
    It serves to run the programs on concrete inputs; the theorems hold
    for whatever [PyFloat] is given. *)
Definition ascii_only (t : pystr) : pystr := List.filter (fun c => c <? 128) t.

Fixpoint ascii_only_ascii (t : pystr)
  : Forall (fun c => c < 128) (ascii_only t) :=
  match t return Forall (fun c => c < 128) (ascii_only t) with
  | [] => List.Forall_nil _
  | c :: r =>
      match (c <? 128) as b
            return (c <? 128) = b ->
                   Forall (fun c => c < 128)
                     (if b then c :: ascii_only r else ascii_only r)
      with
      | true => fun E =>
          @List.Forall_cons _ (fun c => c < 128) c (ascii_only r)
            (proj1 (N.ltb_lt c 128) E) (ascii_only_ascii r)
      | false => fun _ => ascii_only_ascii r
      end eq_refl
  end.

Definition text_float : PyFloat :=
  {| pyfloat := pystr; float_of_str := fun t => t; floatstr := ascii_only;
     float_eqb := pystr_eqb; floatstr_ascii := ascii_only_ascii |}.

(** The float of that library written [t]. *)
Definition float_lit (t : string) : @pyfloat text_float := str t.

(** A controller: a table of variables and the stop flag; a variable never
    set reads as [False]. *)
Definition table_plc `{PyFloat} : Psm :=
  {| plc := list (pystr * json) * bool;
     plc_start := fun c => c;
     plc_stop := fun c => c;
     plc_should_quit := fun c => snd c;
     plc_set_var := fun name value c => (dict_set name value (fst c), snd c);
     plc_get_var := fun name c => default (JBool false) (dict_get name (fst c)) |}.

(** A world with the files [files] and the fault plan [plan]: nothing
    printed, no call made, an empty controller that does not ask to stop,
    and [tempfile] drawing the name [tmp00000000]. *)
Definition demo_world (files : list (string * pybytes))
    (plan : nat -> option exn) : @world text_float (@table_plc text_float) :=
  @World text_float (@table_plc text_float)
    (list_to_map files) ∅ [] [] ([], false) 0%nat plan 0%nat
    (fun _ => "00000000").

(** No call raises. *)
Definition no_fault : nat -> option exn := fun _ => None.

(** Every call raises [OSError]. *)
Definition all_fail : nat -> option exn := fun _ => Some (OSError "EIO").

(** Of the calls that may raise, numbered from 0, call [k] raises [e] and
    no other call raises. *)
Definition fail_at (k : nat) (e : exn) : nat -> option exn :=
  fun n => if Nat.eqb n k then Some e else None.

(** The world [demo_world files plan] with a controller that asks to stop. *)
Definition stopping_world (files : list (string * pybytes))
    (plan : nat -> option exn) : @world text_float (@table_plc text_float) :=
  @World text_float (@table_plc text_float)
    (list_to_map files) ∅ [] [] ([], true) 0%nat plan 0%nat
    (fun _ => "00000000").

(* ===================================================================== *)
(** ** Vocabulary of the statements *)
(* ===================================================================== *)

Section Vocabulary.
Context `{PyFloat} `{!Psm}.

(** No external call raises. *)
Definition quiet (w : world) : Prop := forall n, faults w n = None.

(** Whatever an external call raises is an [Exception]. *)
Definition only_errors (w : world) : Prop :=
  forall n e, faults w n = Some e -> is_Exception e = true.

(** The first name [tempfile] draws for a file in [dir] is free. *)
Definition fresh_tmp (dir : string) (w : world) : Prop :=
  fs w !! path_join dir ("tmp" ++ tmp_names w (tmp_seq w)) = None.

(** The name of that file. *)
Definition tmp_of (dir : string) (w : world) : string :=
  path_join dir ("tmp" ++ tmp_names w (tmp_seq w)).

(** No name [tempfile] can draw for [dir] is the path [path] itself. *)
Definition tmp_apart (dir path : string) (w : world) : Prop :=
  forall n, path_join dir ("tmp" ++ tmp_names w n) <> path.

(** The calls of [psm.set_var] in a trace, in order. *)
Definition set_var_calls (t : list event) : list (pystr * json) :=
  flat_map (fun ev => match ev with
                      | EvSetVar name value => [(name, value)]
                      | _ => []
                      end) t.

(** The payloads published in a trace, in order. *)
Definition publications (t : list event) : list pystr :=
  flat_map (fun ev => match ev with
                      | EvPublish _ payload _ _ => [payload]
                      | _ => []
                      end) t.

(** The files a trace writes into: the targets of [write] and [flush]. *)
Definition written_files (t : list event) : list string :=
  flat_map (fun ev => match ev with
                      | EvWrite file _ | EvFlush file | EvClose file => [file]
                      | _ => []
                      end) t.

(** The entries of a snapshot that [update_inputs] forwards, as the
    arguments of [psm.set_var]. *)
Definition forwarded (entries : list (pystr * json)) : list (pystr * json) :=
  List.map (fun kv => (drop_chars 1 (fst kv), snd kv))
    (List.filter (fun kv => startswith (str "%") (fst kv)) entries).

(** The controller after the calls [calls] of [psm.set_var]. *)
Definition after_set_vars (calls : list (pystr * json)) (c : plc) : plc :=
  fold_left (fun c kv => plc_set_var (fst kv) (snd kv) c) calls c.

(** Two worlds with the same fault plan. *)
Definition same_plan (w w' : world) : Prop := faults w' = faults w.

(** Two worlds with the same files. *)
Definition same_files (w w' : world) : Prop := fs w' = fs w.

(** A program that relates every world it is run in to the world it
    leaves. *)
Definition keeps (R : world -> world -> Prop) {A} (m : M A) : Prop :=
  forall w, R w (snd (m w)).

(** A program that leaves the fault plan alone and raises nothing but
    [Exception]s when the external calls raise nothing else. *)
Definition tame {A} (m : M A) : Prop :=
  keeps same_plan m /\
  forall w e, only_errors w -> fst (m w) = Raise e -> is_Exception e = true.

(** A program that returns, and leaves the fault plan alone, whenever the
    external calls raise nothing but [Exception]s. *)
Definition returns {A} (m : M A) : Prop :=
  forall w, only_errors w ->
            exists a w', m w = (Ok a, w') /\ same_plan w w'.

(** From [w] to [w'] no file other than [tf] changed, and every file
    written into in between is other than [path]. *)
Definition only_touches (tf path : string) (w w' : world) : Prop :=
  (forall p, p <> tf -> fs w' !! p = fs w !! p) /\
  exists t, trace w' = trace w ++ t /\
            Forall (fun f => f <> path) (written_files t).

(** The publications of the outbound adapter over a sequence of payloads
    read one per turn, from the fingerprint [previous]: a payload is
    published when it differs from the fingerprint, and becomes the
    fingerprint. *)
Fixpoint changes (previous : option pystr) (payloads : list pystr)
  : list pystr :=
  match payloads with
  | [] => []
  | p :: rest =>
      if OutputBridge.payload_differs p previous
      then p :: changes (Some p) rest
      else changes previous rest
  end.

(** The fingerprint after those turns. *)
Definition last_payload (previous : option pystr) (payloads : list pystr)
  : option pystr :=
  match payloads with
  | [] => previous
  | _ :: _ => Some (List.last payloads [])
  end.

(** The file [data] is not empty and decodes to the value [v], which is not
    [None]. *)
Definition decodes (data : pybytes) (v : json) : Prop :=
  data <> [] /\ OutputBridge.is_None v = false /\
  exists text, utf8_decode data = Some text /\ loads text = Some v.

(** The snapshot [update_outputs] builds for the variables [vars] from the
    controller [c], starting from [output]. *)
Definition collected (vars : list pystr) (c : plc) (output : list (pystr * json))
  : list (pystr * json) :=
  fold_left (fun o addr => dict_set (str "%" ++ addr) (plc_get_var addr c) o)
    vars output.

(** The world after [psm.get_var] was called for each of [vars]. *)
Definition polled (vars : list pystr) (w : world) : world :=
  fold_left (fun w addr => tick (emit (EvGetVar addr) w)) vars w.

(** Nothing was published from [w] to [w']. *)
Definition same_publications (w w' : world) : Prop :=
  publications (trace w') = publications (trace w).

(** The order of two items of a dict by their keys. *)
Definition key_le {A} (a b : pystr * A) : Prop :=
  pystr_leb (fst a) (fst b) = true.

Definition key_lt {A} (a b : pystr * A) : Prop :=
  pystr_ltb (fst a) (fst b) = true.

(** The text of one item of an object: the key, a colon, the value. *)
Definition item_text `{PyFloat} (kv : pystr * json) : pystr :=
  encode_basestring_ascii (fst kv) ++ colon :: dumps (snd kv).

(** The world after the loop over [entries]. *)
Definition applied (entries : list (pystr * json)) (w : world) : world :=
  fold_left
    (fun w kv =>
       if startswith (str "%") (fst kv)
       then set_controller (plc_set_var (drop_chars 1 (fst kv)) (snd kv))
              (tick (emit (EvSetVar (drop_chars 1 (fst kv)) (snd kv)) w))
       else w)
    entries w.

(** The world after the two calls of a read that gets to the text. *)
Definition after_read (path : string) (w : world) : world :=
  tick (emit (EvOpenRead path) (tick (emit (EvGetsize path) w))).

(** What is printed before the write: the warning about the keys, if any. *)
Definition key_warning (entries : list (pystr * json)) : list log_line :=
  match InputBridge.bad_keys_of entries with
  | [] => []
  | bad_keys => [InWarningKeys bad_keys]
  end.

(** The text [r] does not start with the escape of a low surrogate. *)
Definition no_low_escape (r : pystr) : Prop :=
  match r with
  | b1 :: u1 :: h1 :: h2 :: h3 :: h4 :: _ =>
      (b1 =? backslash) && (u1 =? 117) = true ->
      exists uni2, hex4val h1 h2 h3 h4 = Some uni2 /\
                   is_low_surrogate uni2 = false
  | _ => True
  end.

(** The entries of the object the driver finds in the slot after the
    adapter wrote [entries]. *)
Definition stored (entries : list (pystr * json)) : list (pystr * json) :=
  sorted_items (List.map (fun kv => (fst kv, canon (snd kv))) entries).

(** The slot [path] holds the text [text]. *)
Definition slot_holds (w : world) (path : string) (text : pystr) : Prop :=
  exists data, fs w !! path = Some data /\ utf8_decode data = Some text.


(** The next [n] calls that may raise return. *)
Definition quiet_for (n : nat) (w : world) : Prop :=
  forall i, (i < n)%nat -> faults w (clock w + i)%nat = None.

(** From [w] to [w'] nothing was printed, the controller was not touched,
    and the fault plan and the names [tempfile] draws are the same. *)
Definition only_files (w w' : world) : Prop :=
  stdout w' = stdout w /\ controller w' = controller w /\
  faults w' = faults w /\ tmp_names w' = tmp_names w.

(** From [w] to [w'] no file other than [tf] changed, and [tf] was not
    removed. *)
Definition keeps_tmp (tf : string) (w w' : world) : Prop :=
  (forall p, p <> tf -> fs w' !! p = fs w !! p) /\
  (is_Some (fs w !! tf) -> is_Some (fs w' !! tf)).

(** The two calls that start and stop the [psm] runtime. *)
Definition lifecycle (ev : event) : bool :=
  match ev with EvPsmStart | EvPsmStop => true | _ => false end.

(** From [w] to [w'] the runtime was neither started nor stopped. *)
Definition no_lifecycle (w w' : world) : Prop :=
  exists t, trace w' = trace w ++ t /\
            Forall (fun ev => lifecycle ev = false) t.

(** Every name [tempfile] can draw for a file in [dir] is free. *)
Definition all_tmp_free (dir : string) (w : world) : Prop :=
  forall n, fs w !! path_join dir ("tmp" ++ tmp_names w n) = None.

(** The object a payload carries: [None] unless the payload is UTF-8, the
    text is JSON and the value is a dict. *)
Definition object_of (payload : pybytes) : option json :=
  match utf8_decode payload with
  | Some text =>
      match loads text with
      | Some (JObj entries) => Some (JObj entries)
      | _ => None
      end
  | None => None
  end.

(** What one turn of the outbound adapter makes of a state of the slot:
    the canonical text of its value, or [None] when the file is missing or
    empty, is not UTF-8 or not JSON, or holds [null]. *)
Definition payload_of (content : option pybytes) : option pystr :=
  match content with
  | Some (b :: data) =>
      match utf8_decode (b :: data) with
      | Some text =>
          match loads text with
          | Some v => if OutputBridge.is_None v then None else Some (dumps v)
          | None => None
          end
      | None => None
      end
  | _ => None
  end.

(** No two neighbours of the list are equal. *)
Fixpoint no_repeat (l : list pystr) : Prop :=
  match l with
  | a :: (b :: _) as rest => a <> b /\ no_repeat rest
  | _ => True
  end.

(** [n] periods of the driver's [update_outputs], each followed by one turn
    of the outbound adapter, which carries its fingerprint along. *)
Fixpoint mirror_rounds (n : nat) (previous : option pystr) : M (option pystr) :=
  match n with
  | O => ret previous
  | S n' =>
      PSM.update_outputs ;;;
      previous' <- OutputBridge.poll previous ;;
      mirror_rounds n' previous'
  end.

(** What one message does to the files. *)
Definition store_message (files : gmap string pybytes) (payload : pybytes)
  : gmap string pybytes :=
  match object_of payload with
  | Some d => <[InputBridge.INPUT_PATH := dumps d]> files
  | None => files
  end.

(** The calls of the outbound adapter's [main] on the client once the loop
    was entered: [connect], [loop_start], [k] times [time.sleep], and then
    the calls [tail]. *)
Definition client_calls (k : nat) (tail : list OutputBridge.client_call)
  : list OutputBridge.client_call :=
  OutputBridge.Connect OutputBridge.MQTT_HOST OutputBridge.MQTT_PORT 60
    :: OutputBridge.LoopStart :: repeat OutputBridge.Sleep k ++ tail.



(** One read of the outbound slot in the state [content] when the next
    call is number [k] under the fault plan [plan]: the payload the turn
    has in hand and the number of the call after the read. A missing file
    costs no call; [os.path.getsize] is call [k]; the read of a file that
    is not empty is call [k + 1]; a call that raises leaves no payload. *)
Definition read_turn (plan : nat -> option exn) (k : nat)
    (content : option pybytes) : option pystr * nat :=
  match content with
  | None => (None, k)
  | Some data =>
      match plan k with
      | Some _ => (None, S k)
      | None =>
          match data with
          | [] => (None, S k)
          | _ :: _ =>
              match plan (S k) with
              | Some _ => (None, S (S k))
              | None => (payload_of content, S (S k))
              end
          end
      end
  end.

(** The payloads the turns over the states [contents] have in hand, in
    order, when the first call is number [k]. *)
Fixpoint payloads_read (plan : nat -> option exn) (k : nat)
    (contents : list (option pybytes)) : list pystr :=
  match contents with
  | [] => []
  | c :: rest =>
      match read_turn plan k c with
      | (Some p, k') => p :: payloads_read plan k' rest
      | (None, k') => payloads_read plan k' rest
      end
  end.

End Vocabulary.

(* ===================================================================== *)
(** ** Strings *)
(* ===================================================================== *)

Lemma pystr_eqb_eq (a b : pystr) : pystr_eqb a b = true <-> a = b.
Proof.
  revert b; induction a as [|x a IH]; intros [|y b]; simpl; split;
    try congruence; try reflexivity.
  - intros [Hxy Hab]%andb_true_iff. apply N.eqb_eq in Hxy.
    apply IH in Hab. congruence.
  - intros [= -> ->]. rewrite N.eqb_refl. simpl. apply IH. reflexivity.
Qed.

Lemma pystr_eqb_refl (a : pystr) : pystr_eqb a a = true.
Proof. apply pystr_eqb_eq. reflexivity. Qed.

Lemma pystr_eqb_neq (a b : pystr) : pystr_eqb a b = false <-> a <> b.
Proof.
  rewrite <- pystr_eqb_eq. destruct (pystr_eqb a b); split; congruence.
Qed.

(* ===================================================================== *)
(** ** Running programs *)
(* ===================================================================== *)

Section Running.
Context `{PyFloat} `{!Psm}.

Lemma external_quiet {A} (ev : event) (effect : world -> result A * world) w :
  quiet w -> external ev effect w = effect (tick (emit ev w)).
Proof. intros Hq. unfold external. rewrite Hq. reflexivity. Qed.

Lemma bind_ok {A B} (m : M A) (k : A -> M B) w a w' :
  m w = (Ok a, w') -> bind m k w = k a w'.
Proof. intros Hm. unfold bind. rewrite Hm. reflexivity. Qed.

Lemma bind_raise {A B} (m : M A) (k : A -> M B) w e w' :
  m w = (Raise e, w') -> bind m k w = (Raise e, w').
Proof. intros Hm. unfold bind. rewrite Hm. reflexivity. Qed.

Lemma try_except_ok {A} (body : M A) clauses w a w' :
  body w = (Ok a, w') -> try_except body clauses w = (Ok a, w').
Proof. intros Hm. unfold try_except. rewrite Hm. reflexivity. Qed.

(** *** The loop of [update_inputs] when no call raises *)

Lemma for_each_cons {A} (x : A) xs (body : A -> M unit) w :
  for_each (x :: xs) body w = bind (body x) (fun _ => for_each xs body) w.
Proof. reflexivity. Qed.

Lemma applied_cons kv entries w :
  applied (kv :: entries) w =
  applied entries
    (if startswith (str "%") (fst kv)
     then set_controller (plc_set_var (drop_chars 1 (fst kv)) (snd kv))
            (tick (emit (EvSetVar (drop_chars 1 (fst kv)) (snd kv)) w))
     else w).
Proof. reflexivity. Qed.

Lemma forwarded_cons kv entries :
  forwarded (kv :: entries) =
  if startswith (str "%") (fst kv)
  then (drop_chars 1 (fst kv), snd kv) :: forwarded entries
  else forwarded entries.
Proof.
  unfold forwarded. cbn [List.filter].
  destruct (startswith (str "%") (fst kv)); reflexivity.
Qed.

Lemma for_each_apply_entry entries w :
  quiet w ->
  for_each entries PSM.apply_entry w = (Ok tt, applied entries w).
Proof.
  revert w; induction entries as [|[k v] entries IH]; intros w Hq; [reflexivity|].
  rewrite for_each_cons, applied_cons. unfold bind, PSM.apply_entry.
  cbn [fst snd].
  destruct (startswith (str "%") k) eqn:Hk; cbn [negb].
  - unfold psm_set_var. rewrite external_quiet by assumption. apply IH.
    intros n. apply Hq.
  - apply IH, Hq.
Qed.

Lemma applied_trace entries w :
  trace (applied entries w) =
  trace w ++ List.map (fun kv => EvSetVar (fst kv) (snd kv)) (forwarded entries).
Proof.
  revert w; induction entries as [|kv entries IH]; intros w.
  - cbn. rewrite app_nil_r. reflexivity.
  - rewrite applied_cons, forwarded_cons, IH.
    destruct (startswith (str "%") (fst kv)); [|reflexivity].
    cbn [trace set_controller tick emit List.map fst snd].
    rewrite <- app_assoc. reflexivity.
Qed.

Lemma applied_controller entries w :
  controller (applied entries w) =
  after_set_vars (forwarded entries) (controller w).
Proof.
  revert w; induction entries as [|kv entries IH]; intros w.
  - reflexivity.
  - rewrite applied_cons, forwarded_cons, IH.
    destruct (startswith (str "%") (fst kv)); reflexivity.
Qed.

Lemma applied_rest entries w :
  fs (applied entries w) = fs w /\ stdout (applied entries w) = stdout w.
Proof.
  revert w; induction entries as [|kv entries IH]; intros w.
  - split; reflexivity.
  - rewrite applied_cons. destruct (IH
      (if startswith (str "%") (fst kv)
       then set_controller (plc_set_var (drop_chars 1 (fst kv)) (snd kv))
              (tick (emit (EvSetVar (drop_chars 1 (fst kv)) (snd kv)) w))
       else w)) as [-> ->].
    destruct (startswith (str "%") (fst kv)); split; reflexivity.
Qed.

(** *** Reading a slot when no call raises *)

Lemma read_text_quiet path w data text :
  quiet w -> fs w !! path = Some data -> utf8_decode data = Some text ->
  read_text path w = (Ok text, tick (emit (EvOpenRead path) w)).
Proof.
  intros Hq Hfs Hdec. unfold read_text. rewrite external_quiet by assumption.
  cbn [fs tick emit]. rewrite Hfs, Hdec. reflexivity.
Qed.

Lemma os_path_exists_some path w data :
  fs w !! path = Some data -> os_path_exists path w = (Ok true, w).
Proof.
  intros Hfs. unfold os_path_exists. rewrite Hfs.
  rewrite bool_decide_eq_true_2 by eauto. reflexivity.
Qed.

Lemma os_path_exists_none path w :
  fs w !! path = None -> os_path_exists path w = (Ok false, w).
Proof.
  intros Hfs. unfold os_path_exists. rewrite Hfs.
  rewrite bool_decide_eq_false_2; [reflexivity|]. intros [x Hx]. discriminate.
Qed.

Lemma set_var_calls_app t1 t2 :
  set_var_calls (t1 ++ t2) = set_var_calls t1 ++ set_var_calls t2.
Proof. unfold set_var_calls. apply flat_map_app. Qed.

Lemma set_var_calls_map calls :
  set_var_calls (List.map (fun kv => EvSetVar (fst kv) (snd kv)) calls) = calls.
Proof.
  induction calls as [|[k v] calls IH]; [reflexivity|].
  cbn. f_equal. exact IH.
Qed.

Lemma update_inputs_absent w :
  fs w !! PSM.INPUT_PATH = None -> PSM.update_inputs w = (Ok tt, w).
Proof.
  intros Hfs. unfold PSM.update_inputs.
  apply try_except_ok. erewrite bind_ok by (apply os_path_exists_none, Hfs).
  reflexivity.
Qed.

Lemma update_inputs_object w text entries :
  quiet w -> slot_holds w PSM.INPUT_PATH text ->
  loads text = Some (JObj entries) ->
  PSM.update_inputs w =
  (Ok tt, applied entries (tick (emit (EvOpenRead PSM.INPUT_PATH) w))).
Proof.
  intros Hq (data & Hfs & Hdec) Hload. unfold PSM.update_inputs.
  apply try_except_ok.
  erewrite bind_ok by (eapply os_path_exists_some, Hfs). cbn [negb].
  erewrite bind_ok by (eapply read_text_quiet; eassumption).
  unfold json_loads. rewrite Hload.
  erewrite bind_ok by reflexivity.
  apply for_each_apply_entry. intros n. apply Hq.
Qed.

End Running.

(* ===================================================================== *)
(** ** What every run preserves *)
(* ===================================================================== *)

Section Keeping.
Context `{PyFloat} `{!Psm}.

#[local] Instance same_plan_preorder : PreOrder same_plan.
Proof. split; unfold same_plan; [intros w; reflexivity | intros a b c; congruence]. Qed.

#[local] Instance same_files_preorder : PreOrder same_files.
Proof. split; unfold same_files; [intros w; reflexivity | intros a b c; congruence]. Qed.

Section Generic.
Context (R : world -> world -> Prop) `{!PreOrder R}.

Lemma keeps_ret {A} (a : A) : keeps R (ret a).
Proof. intros w. reflexivity. Qed.

Lemma keeps_raise {A} e : keeps R (@raise _ _ A e).
Proof. intros w. reflexivity. Qed.

Lemma keeps_bind {A B} (m : M A) (k : A -> M B) :
  keeps R m -> (forall a, keeps R (k a)) -> keeps R (bind m k).
Proof.
  intros Hm Hk w. unfold bind. specialize (Hm w).
  destruct (m w) as [[a|e] w']; cbn [snd] in *; [|assumption].
  etransitivity; [eassumption|]. apply Hk.
Qed.

Lemma keeps_handle {A} (clauses : list ((exn -> bool) * (exn -> M A))) e :
  Forall (fun c => forall e, keeps R (snd c e)) clauses ->
  keeps R (handle clauses e).
Proof.
  induction 1 as [|[c h] clauses Hh _ IH]; cbn [handle].
  - apply keeps_raise.
  - destruct (c e); [apply Hh | apply IH].
Qed.

Lemma keeps_try_except {A} (body : M A) clauses :
  keeps R body ->
  Forall (fun c => forall e, keeps R (snd c e)) clauses ->
  keeps R (try_except body clauses).
Proof.
  intros Hb Hc w. unfold try_except. specialize (Hb w).
  destruct (body w) as [[a|e] w']; cbn [snd] in *; [assumption|].
  etransitivity; [eassumption|]. apply keeps_handle, Hc.
Qed.

Lemma keeps_for_each {A} (xs : list A) (body : A -> M unit) :
  (forall x, keeps R (body x)) -> keeps R (for_each xs body).
Proof.
  intros Hb. induction xs as [|x xs IH]; cbn [for_each].
  - apply keeps_ret.
  - apply keeps_bind; [apply Hb | intros _; apply IH].
Qed.

Lemma keeps_external {A} ev (effect : M A) :
  (forall w, R w (tick (emit ev w))) -> keeps R effect ->
  keeps R (external ev effect).
Proof.
  intros Hev He w. unfold external.
  destruct (faults w (clock w)); cbn [snd]; [apply Hev|].
  etransitivity; [apply Hev | apply He].
Qed.

Lemma keeps_with_file {A} tf (body : M A) :
  keeps R body -> keeps R (tf_close tf) -> keeps R (with_file tf body).
Proof.
  intros Hb Hc w. unfold with_file. specialize (Hb w).
  destruct (body w) as [[a|e] w']; cbn [snd] in *.
  - etransitivity; [eassumption|].
    apply (keeps_bind (tf_close tf) (fun _ => ret a)); [assumption|].
    intros _. apply keeps_ret.
  - specialize (Hc w'). destruct (tf_close tf w') as [[?|?] w'']; cbn [snd] in *;
      etransitivity; eassumption.
Qed.

End Generic.

(** *** The fault plan is never touched *)

Lemma free_name_plan tries dir w :
  same_plan w (snd (free_name tries dir w)).
Proof.
  revert w; induction tries as [|n IH]; intros w; cbn [free_name]; [reflexivity|].
  destruct (bool_decide _); [|reflexivity].
  etransitivity; [|apply IH]. reflexivity.
Qed.

Ltac plan_prim :=
  first
    [ apply keeps_ret; apply _
    | apply keeps_raise; apply _
    | apply keeps_external; try apply _;
      [ intros ?; reflexivity
      | intros ?; unfold flush_buffer; repeat case_match; simplify_eq;
        reflexivity ] ].

Lemma plan_print line : keeps same_plan (print line).
Proof. intros w. reflexivity. Qed.

Lemma plan_os_path_exists path : keeps same_plan (os_path_exists path).
Proof. intros w. reflexivity. Qed.

Lemma plan_os_path_getsize path : keeps same_plan (os_path_getsize path).
Proof. unfold os_path_getsize. plan_prim. Qed.

Lemma plan_read_text path : keeps same_plan (read_text path).
Proof. unfold read_text. plan_prim. Qed.

Lemma plan_json_loads text : keeps same_plan (json_loads text).
Proof. unfold json_loads. destruct (loads text); plan_prim. Qed.

Lemma plan_NamedTemporaryFile dir : keeps same_plan (NamedTemporaryFile dir).
Proof.
  intros w. unfold NamedTemporaryFile.
  pose proof (free_name_plan TMP_MAX dir w) as Hf.
  destruct (free_name TMP_MAX dir w) as [[file|] w']; cbn [snd] in *; [|assumption].
  etransitivity; [eassumption|].
  apply (keeps_external same_plan); [intros ?; reflexivity|].
  intros ?; reflexivity.
Qed.

Lemma plan_json_dump obj tf : keeps same_plan (json_dump obj tf).
Proof. unfold json_dump. plan_prim. Qed.

Lemma plan_tf_flush tf : keeps same_plan (tf_flush tf).
Proof. unfold tf_flush. plan_prim. Qed.

Lemma plan_os_fsync tf : keeps same_plan (os_fsync tf).
Proof. unfold os_fsync. plan_prim. Qed.

Lemma plan_tf_close tf : keeps same_plan (tf_close tf).
Proof. unfold tf_close. plan_prim. Qed.

Lemma plan_os_replace src dst : keeps same_plan (os_replace src dst).
Proof. unfold os_replace. plan_prim. Qed.

Lemma plan_psm_set_var name value : keeps same_plan (psm_set_var name value).
Proof. unfold psm_set_var. plan_prim. Qed.

Lemma plan_psm_get_var name : keeps same_plan (psm_get_var name).
Proof. unfold psm_get_var. plan_prim. Qed.

(** *** Only [Exception]s are raised *)

Lemma only_errors_same_plan w w' :
  same_plan w w' -> only_errors w -> only_errors w'.
Proof. unfold same_plan, only_errors. intros -> Hw. exact Hw. Qed.

Lemma tame_ret {A} (a : A) : tame (ret a).
Proof. split; [apply keeps_ret; apply _|]. intros w e _ [=]. Qed.

Lemma tame_raise {A} e : is_Exception e = true -> tame (@raise _ _ A e).
Proof. intros He. split; [apply keeps_raise; apply _|]. intros w e' _ [= <-]. exact He. Qed.

Lemma tame_bind {A B} (m : M A) (k : A -> M B) :
  tame m -> (forall a, tame (k a)) -> tame (bind m k).
Proof.
  intros [Hm1 Hm2] Hk. split.
  - apply keeps_bind; [apply _|assumption|]. intros a. apply Hk.
  - intros w e Hw. unfold bind. specialize (Hm1 w). specialize (Hm2 w).
    destruct (m w) as [[a|e'] w']; cbn [fst snd] in *.
    + apply (Hk a). eapply only_errors_same_plan; eassumption.
    + intros [= <-]. apply Hm2; [assumption|reflexivity].
Qed.

Lemma tame_handle {A} (clauses : list ((exn -> bool) * (exn -> M A))) e :
  is_Exception e = true ->
  Forall (fun c => forall e, tame (snd c e)) clauses ->
  tame (handle clauses e).
Proof.
  intros He. induction 1 as [|[c h] clauses Hh _ IH]; cbn [handle].
  - apply tame_raise, He.
  - destruct (c e); [apply Hh | apply IH].
Qed.

Lemma tame_try_except {A} (body : M A) clauses :
  tame body ->
  Forall (fun c => forall e, tame (snd c e)) clauses ->
  tame (try_except body clauses).
Proof.
  intros [Hb1 Hb2] Hc. split.
  - apply keeps_try_except; [apply _|assumption|].
    eapply Forall_impl; [exact Hc|]. intros c Hcl e. apply Hcl.
  - intros w e Hw. unfold try_except. specialize (Hb1 w). specialize (Hb2 w).
    destruct (body w) as [[a|e'] w']; cbn [fst snd] in *; [intros [=]|].
    apply tame_handle; [|assumption|].
    + apply Hb2; [assumption|reflexivity].
    + eapply only_errors_same_plan; eassumption.
Qed.

Lemma tame_for_each {A} (xs : list A) (body : A -> M unit) :
  (forall x, tame (body x)) -> tame (for_each xs body).
Proof.
  intros Hb. induction xs as [|x xs IH]; cbn [for_each].
  - apply tame_ret.
  - apply tame_bind; [apply Hb | intros _; apply IH].
Qed.

Lemma tame_external {A} ev (effect : M A) :
  tame effect -> tame (external ev effect).
Proof.
  intros [He1 He2]. split.
  - apply keeps_external; [apply _|intros ?; reflexivity|assumption].
  - intros w e Hw. unfold external.
    destruct (faults w (clock w)) as [e'|] eqn:Hf; cbn [fst].
    + intros [= <-]. eapply Hw, Hf.
    + apply He2. intros n e'. apply Hw.
Qed.

Lemma tame_with_file {A} tf (body : M A) :
  tame body -> tame (tf_close tf) -> tame (with_file tf body).
Proof.
  intros [Hb1 Hb2] [Hc1 Hc2]. split.
  - apply keeps_with_file; [apply _|assumption..].
  - intros w e Hw. unfold with_file, bind. specialize (Hb1 w). specialize (Hb2 w).
    destruct (body w) as [[a|e'] w']; cbn [fst snd] in *;
      specialize (Hc1 w'); specialize (Hc2 w');
      destruct (tf_close tf w') as [[[]|e''] w'']; cbn [fst snd] in *.
    + intros [=].
    + intros [= <-]. apply Hc2; [|reflexivity].
      eapply only_errors_same_plan; eassumption.
    + intros [= <-]. apply Hb2; [assumption|reflexivity].
    + intros [= <-]. apply Hc2; [|reflexivity].
      eapply only_errors_same_plan; eassumption.
Qed.

Ltac tame_effect :=
  split;
  [ intros ?; unfold flush_buffer; repeat case_match; simplify_eq; reflexivity
  | intros ? ? _; unfold flush_buffer; repeat case_match; simplify_eq;
    cbn [fst]; intros [= <-]; reflexivity ].

Lemma tame_print line : tame (print line).
Proof. split; [apply plan_print|]. intros w e _ [=]. Qed.

Lemma tame_os_path_exists path : tame (os_path_exists path).
Proof. split; [apply plan_os_path_exists|]. intros w e _ [=]. Qed.

Lemma tame_os_path_getsize path : tame (os_path_getsize path).
Proof. apply tame_external. tame_effect. Qed.

Lemma tame_read_text path : tame (read_text path).
Proof. apply tame_external. tame_effect. Qed.

Lemma tame_json_loads text : tame (json_loads text).
Proof.
  unfold json_loads. destruct (loads text); [apply tame_ret|].
  apply tame_raise. reflexivity.
Qed.

Lemma tame_NamedTemporaryFile dir : tame (NamedTemporaryFile dir).
Proof.
  split; [apply plan_NamedTemporaryFile|].
  intros w e Hw. unfold NamedTemporaryFile.
  pose proof (free_name_plan TMP_MAX dir w) as Hf.
  destruct (free_name TMP_MAX dir w) as [[file|] w']; cbn [snd] in *.
  - apply tame_external; [tame_effect|].
    eapply only_errors_same_plan; eassumption.
  - intros [= <-]. reflexivity.
Qed.

Lemma tame_json_dump obj tf : tame (json_dump obj tf).
Proof. apply tame_external. tame_effect. Qed.

Lemma tame_tf_flush tf : tame (tf_flush tf).
Proof. apply tame_external. tame_effect. Qed.

Lemma tame_os_fsync tf : tame (os_fsync tf).
Proof. apply tame_external. tame_effect. Qed.

Lemma tame_tf_close tf : tame (tf_close tf).
Proof. apply tame_external. tame_effect. Qed.

Lemma tame_os_replace src dst : tame (os_replace src dst).
Proof. apply tame_external. tame_effect. Qed.

Lemma tame_psm_set_var name value : tame (psm_set_var name value).
Proof. apply tame_external. tame_effect. Qed.

Lemma tame_psm_get_var name : tame (psm_get_var name).
Proof. apply tame_external. tame_effect. Qed.

(** *** The programs of the repository *)

Lemma tame_PSM_atomic_write path obj : tame (PSM._atomic_write_json path obj).
Proof.
  unfold PSM._atomic_write_json.
  apply tame_bind; [apply tame_NamedTemporaryFile|]. intros tf.
  apply tame_bind; [|intros ?; apply tame_os_replace].
  apply tame_with_file; [|apply tame_tf_close].
  apply tame_bind; [apply tame_json_dump|]. intros _.
  apply tame_bind; [apply tame_tf_flush|]. intros _.
  apply tame_bind; [apply tame_os_fsync|]. intros _. apply tame_ret.
Qed.

Lemma tame_Input_atomic_write path obj :
  tame (InputBridge.atomically_write_json path obj).
Proof. apply tame_PSM_atomic_write. Qed.

Lemma tame_apply_entry entry : tame (PSM.apply_entry entry).
Proof.
  destruct entry as [k v]. unfold PSM.apply_entry.
  destruct (negb _); [apply tame_ret | apply tame_psm_set_var].
Qed.

Lemma tame_collect vars output : tame (PSM.collect vars output).
Proof.
  revert output; induction vars as [|addr vars IH]; intros output; cbn [PSM.collect].
  - apply tame_ret.
  - apply tame_bind; [apply tame_psm_get_var|]. intros val. apply IH.
Qed.

Lemma returns_print line : returns (print line).
Proof. intros w _. eexists _, _. split; reflexivity. Qed.

Lemma guarded_returns {A} (body : M A) clauses :
  tame body ->
  Forall (fun c => forall e, returns (snd c e)) clauses ->
  (forall e, is_Exception e = true ->
             Exists (fun c => fst c e = true) clauses) ->
  returns (try_except body clauses).
Proof.
  intros [Hb1 Hb2] Hc Hall w Hw. unfold try_except.
  specialize (Hb1 w). specialize (Hb2 w).
  destruct (body w) as [[a|e] w']; cbn [fst snd] in *.
  - eexists _, _. split; [reflexivity|assumption].
  - assert (He : is_Exception e = true) by (apply Hb2; [assumption|reflexivity]).
    specialize (Hall e He). clear Hb2.
    assert (Hw' : only_errors w') by (eapply only_errors_same_plan; eassumption).
    induction Hc as [|[c h] clauses Hh Hc IH]; [inversion Hall|].
    cbn [handle]. destruct (c e) eqn:Hce.
    + destruct (Hh e w' Hw') as (a & w'' & Hr & Hp). cbn [snd] in Hr.
      eexists _, _. split; [exact Hr|]. etransitivity; eassumption.
    + apply IH. inversion Hall as [? ? Hx|]; subst; [|assumption].
      cbn [fst] in Hx. congruence.
Qed.

Lemma update_inputs_returns : returns PSM.update_inputs.
Proof.
  unfold PSM.update_inputs. apply guarded_returns.
  - apply tame_bind; [apply tame_os_path_exists|]. intros present.
    destruct (negb present); [apply tame_ret|].
    apply tame_bind; [apply tame_read_text|]. intros text.
    apply tame_bind; [apply tame_json_loads|]. intros data.
    destruct data; try apply tame_print.
    apply tame_for_each, tame_apply_entry.
  - repeat constructor. intros e. apply returns_print.
  - intros e He. constructor. exact He.
Qed.


Lemma on_message_returns payload : returns (InputBridge.on_message payload).
Proof.
  unfold InputBridge.on_message. apply guarded_returns.
  - apply tame_bind.
    { unfold InputBridge.decode_payload. destruct (utf8_decode payload);
        [apply tame_ret | apply tame_raise; reflexivity]. }
    intros text. apply tame_bind; [apply tame_json_loads|]. intros data.
    destruct data; try apply tame_print.
    apply tame_bind; [destruct (InputBridge.bad_keys_of _); [apply tame_ret|apply tame_print]|].
    intros _. apply tame_bind; [apply tame_Input_atomic_write|].
    intros _. apply tame_print.
  - repeat constructor; intros e; apply returns_print.
  - intros e He. apply Exists_cons_tl. constructor. exact He.
Qed.

Lemma read_json_if_ready_returns path :
  returns (OutputBridge.read_json_if_ready path).
Proof.
  unfold OutputBridge.read_json_if_ready. apply guarded_returns.
  - apply tame_bind; [apply tame_os_path_exists|]. intros present.
    destruct (negb present); [apply tame_ret|].
    apply tame_bind; [apply tame_os_path_getsize|]. intros size.
    destruct (Nat.eqb size 0); [apply tame_ret|].
    apply tame_bind; [apply tame_read_text|]. intros text.
    apply tame_json_loads.
  - repeat constructor; intros e.
    + intros w _. eexists _, _. split; reflexivity.
    + intros w _. eexists _, _. split; reflexivity.
  - intros e He. apply Exists_cons_tl. constructor. exact He.
Qed.

End Keeping.

(* ===================================================================== *)
(** ** The scan driver applies the inbound slot (C3) *)
(* ===================================================================== *)

Section ApplyInputs.
Context `{PyFloat} `{!Psm}.

(** C3. One run of [update_inputs]. If the inbound slot does not exist the
    run changes nothing: no call of [psm.set_var], no line printed, no
    exception, the controller as it was. If the slot holds the text of an
    object and no call raises, [psm.set_var] is called once for every entry
    whose key starts with [%], in the order of the entries, with the key
    less its first character and the value of the entry; the other entries
    cause no call. For the payload [{"%IX0.0": true, "BAD": false}] the
    only call is [set_var("IX0.0", True)]. *)
Theorem update_inputs_forwards_sentinel_entries (w : world) :
  (fs w !! PSM.INPUT_PATH = None -> PSM.update_inputs w = (Ok tt, w)) /\
  (forall text entries,
      quiet w -> slot_holds w PSM.INPUT_PATH text ->
      loads text = Some (JObj entries) ->
      exists w',
        PSM.update_inputs w = (Ok tt, w') /\
        set_var_calls (trace w') = set_var_calls (trace w) ++ forwarded entries /\
        controller w' = after_set_vars (forwarded entries) (controller w) /\
        stdout w' = stdout w) /\
  (forall entries name value,
      In (name, value) (forwarded entries) <->
      exists key, In (key, value) entries /\
                  startswith (str "%") key = true /\ name = drop_chars 1 key) /\
  (loads (qstr "{'%IX0.0': true, 'BAD': false}") =
     Some (JObj [(str "%IX0.0", JBool true); (str "BAD", JBool false)]) /\
   forwarded [(str "%IX0.0", JBool true); (str "BAD", JBool false)] =
     [(str "IX0.0", JBool true)]).
Proof.
  split; [apply update_inputs_absent|]. split; [|split].
  - intros text entries Hq Hslot Hload. eexists. split.
    + eapply update_inputs_object; eassumption.
    + rewrite applied_trace, applied_controller.
      destruct (applied_rest entries (tick (emit (EvOpenRead PSM.INPUT_PATH) w)))
        as [_ ->].
      cbn [trace controller stdout tick emit].
      rewrite !set_var_calls_app, set_var_calls_map. cbn [set_var_calls flat_map].
      rewrite app_nil_r. auto.
  - intros entries name value. unfold forwarded. rewrite in_map_iff. split.
    + intros ([k v] & [= <- <-] & Hin). apply filter_In in Hin as [Hin Hk].
      exists k. auto.
    + intros (key & Hin & Hk & ->). exists (key, value). split; [reflexivity|].
      apply filter_In. auto.
  - split; vm_compute; reflexivity.
Qed.

End ApplyInputs.

(* ===================================================================== *)
(** ** A period of the scan runs to its end *)
(* ===================================================================== *)

Section ScanSafety.
Context `{PyFloat} `{!Psm}.


End ScanSafety.

(* ===================================================================== *)
(** ** The write-then-rename protocol *)
(* ===================================================================== *)

Section AtomicWrite.
Context `{PyFloat} `{!Psm}.

Lemma TMP_MAX_pos : exists n, TMP_MAX = S n.
Proof. exists (N.to_nat 9999). vm_compute. reflexivity. Qed.

Lemma free_name_fresh tries dir w :
  fresh_tmp dir w ->
  free_name (S tries) dir w = (Some (tmp_of dir w), draw_name w).
Proof.
  intros Hf. unfold fresh_tmp in Hf. cbn [free_name]. rewrite Hf.
  rewrite bool_decide_eq_false_2; [reflexivity|]. intros [x Hx]. discriminate.
Qed.

(** What the name search leaves and what it returns. *)
Lemma free_name_spec tries dir w :
  let '(r, w') := free_name tries dir w in
  fs w' = fs w /\ buffers w' = buffers w /\ stdout w' = stdout w /\
  trace w' = trace w /\ controller w' = controller w /\ clock w' = clock w /\
  faults w' = faults w /\ tmp_names w' = tmp_names w /\
  forall file, r = Some file ->
               fs w !! file = None /\
               exists n, file = path_join dir ("tmp" ++ tmp_names w n).
Proof.
  revert w; induction tries as [|n IH]; intros w; cbn [free_name].
  - repeat split; discriminate.
  - destruct (bool_decide _) eqn:Hd.
    + specialize (IH (draw_name w)).
      destruct (free_name n dir (draw_name w)) as [r w'].
      cbn [fs buffers stdout trace controller clock faults tmp_names draw_name] in IH.
      exact IH.
    + do 8 (split; [reflexivity|]). intros f [= <-]. split.
      * apply bool_decide_eq_false_1 in Hd.
        destruct (fs w !! _) eqn:E; [|reflexivity]. exfalso. apply Hd. eauto.
      * eexists. reflexivity.
Qed.

Lemma utf8_encode_nil : utf8_encode [] = Some [].
Proof. reflexivity. Qed.

(** The run of [_atomic_write_json] when no call raises and the first
    temporary name is free. *)
Lemma atomic_write_quiet path obj data w :
  quiet w -> fresh_tmp (PSM.directory_of path) w ->
  utf8_encode (dumps obj) = Some data ->
  exists w',
    PSM._atomic_write_json path obj w = (Ok tt, w') /\
    fs w' = <[path := data]> (fs w) /\
    trace w' =
      trace w ++
      [ EvMkstemp (PSM.directory_of path) (tmp_of (PSM.directory_of path) w);
        EvWrite (tmp_of (PSM.directory_of path) w) (dumps obj);
        EvFlush (tmp_of (PSM.directory_of path) w);
        EvFsync (tmp_of (PSM.directory_of path) w);
        EvClose (tmp_of (PSM.directory_of path) w);
        EvReplace (tmp_of (PSM.directory_of path) w) path ] /\
    stdout w' = stdout w /\ controller w' = controller w /\
    faults w' = faults w.
Proof.
  intros Hq Hfresh Henc.
  set (dir := PSM.directory_of path) in *. set (tf := tmp_of dir w).
  unfold PSM._atomic_write_json. fold dir.
  unfold bind at 1. unfold NamedTemporaryFile.
  destruct TMP_MAX_pos as [n ->]. rewrite free_name_fresh by assumption. fold tf.
  rewrite external_quiet by (intros k; apply Hq).
  unfold bind at 1. unfold with_file.
  unfold bind at 1. unfold json_dump. rewrite external_quiet by (intros k; apply Hq).
  cbn [buffers set_buffers set_fs tick emit draw_name]. rewrite lookup_insert_eq.
  unfold default; cbn [from_option id app].
  unfold bind at 1. unfold tf_flush. rewrite external_quiet by (intros k; apply Hq).
  unfold flush_buffer.
  cbn [buffers fs set_buffers set_fs tick emit draw_name]. rewrite !lookup_insert_eq.
  unfold default; cbn [from_option id app]. rewrite Henc.
  unfold bind at 1. unfold os_fsync. rewrite external_quiet by (intros k; apply Hq).
  unfold ret at 1. unfold bind at 1.
  unfold tf_close. rewrite external_quiet by (intros k; apply Hq).
  unfold flush_buffer.
  cbn [buffers fs set_buffers set_fs tick emit draw_name]. rewrite !lookup_insert_eq.
  unfold default; cbn [from_option id app]. rewrite utf8_encode_nil.
  unfold ret at 1.
  unfold os_replace. rewrite external_quiet by (intros k; apply Hq).
  cbn [buffers fs set_buffers set_fs tick emit draw_name]. rewrite !lookup_insert_eq.
  eexists. split; [reflexivity|].
  cbn [fs trace stdout controller faults set_fs set_buffers tick emit draw_name].
  repeat split.
  - rewrite app_nil_r. cbn [app]. rewrite !insert_insert_eq, delete_insert_eq.
    rewrite delete_id by exact Hfresh. reflexivity.
  - rewrite <- !app_assoc. reflexivity.
Qed.

(** *** Whatever raises, the target is replaced whole or not at all *)

Lemma written_files_app t1 t2 :
  written_files (t1 ++ t2) = written_files t1 ++ written_files t2.
Proof. unfold written_files. apply flat_map_app. Qed.

Lemma only_touches_preorder tf path : PreOrder (only_touches tf path).
Proof.
  split.
  - intros w. split; [reflexivity|]. exists []. rewrite app_nil_r.
    split; [reflexivity|constructor].
  - intros a b c [Hab (t1 & Ht1 & Hf1)] [Hbc (t2 & Ht2 & Hf2)]. split.
    + intros p Hp. rewrite Hbc, Hab by assumption. reflexivity.
    + exists (t1 ++ t2). rewrite Ht2, Ht1, <- app_assoc. split; [reflexivity|].
      rewrite written_files_app. apply Forall_app. split; assumption.
Qed.

(** A call that is recorded as [ev] and changes no file but [tf]. *)
Lemma touches_external {A} tf path ev (effect : M A) :
  Forall (fun f => f <> path) (written_files [ev]) ->
  (forall w p, p <> tf -> fs (snd (effect w)) !! p = fs w !! p) ->
  (forall w, trace (snd (effect w)) = trace w) ->
  keeps (only_touches tf path) (external ev effect).
Proof.
  intros Hev Hfs Htr w. unfold external.
  assert (Hstep : only_touches tf path w (tick (emit ev w))).
  { split; [reflexivity|]. exists [ev]. split; [reflexivity|assumption]. }
  destruct (faults w (clock w)); cbn [snd]; [exact Hstep|].
  eapply (@transitivity _ _ (@PreOrder_Transitive _ _ (only_touches_preorder tf path)));
    [exact Hstep|].
  split; [intros p Hp; apply Hfs, Hp|].
  exists []. rewrite Htr, app_nil_r. split; [reflexivity|constructor].
Qed.

Lemma flush_buffer_fs tf w p :
  p <> tf -> fs (snd (flush_buffer tf w)) !! p = fs w !! p.
Proof.
  intros Hp. unfold flush_buffer. destruct (utf8_encode _); cbn; [|reflexivity].
  apply lookup_insert_ne. congruence.
Qed.

Lemma flush_buffer_trace tf w : trace (snd (flush_buffer tf w)) = trace w.
Proof. unfold flush_buffer. destruct (utf8_encode _); reflexivity. Qed.

Lemma touches_json_dump obj tf path :
  tf <> path -> keeps (only_touches tf path) (json_dump obj tf).
Proof.
  intros Hne. apply touches_external; [repeat constructor; exact Hne| |];
    intros w; reflexivity.
Qed.

Lemma touches_tf_flush tf path :
  tf <> path -> keeps (only_touches tf path) (tf_flush tf).
Proof.
  intros Hne. apply touches_external; [repeat constructor; exact Hne| |].
  - intros w p Hp. apply flush_buffer_fs, Hp.
  - intros w. apply flush_buffer_trace.
Qed.

Lemma touches_os_fsync tf path :
  keeps (only_touches tf path) (os_fsync tf).
Proof. apply touches_external; [constructor| |]; intros w; reflexivity. Qed.

Lemma touches_tf_close tf path :
  tf <> path -> keeps (only_touches tf path) (tf_close tf).
Proof.
  intros Hne. apply touches_external; [repeat constructor; exact Hne| |].
  - intros w p Hp. pose proof (flush_buffer_fs tf w p Hp) as Hf.
    destruct (flush_buffer tf w) as [r w']. exact Hf.
  - intros w. pose proof (flush_buffer_trace tf w) as Hf.
    destruct (flush_buffer tf w) as [r w']. exact Hf.
Qed.

Lemma touches_with_block obj tf path :
  tf <> path ->
  keeps (only_touches tf path)
    (with_file tf (json_dump obj tf ;;; tf_flush tf ;;; os_fsync tf ;;; ret tf)).
Proof.
  intros Hne. pose proof (only_touches_preorder tf path) as HP.
  apply keeps_with_file; [exact HP| |apply touches_tf_close, Hne].
  apply keeps_bind; [exact HP|apply touches_json_dump, Hne|]. intros _.
  apply keeps_bind; [exact HP|apply touches_tf_flush, Hne|]. intros _.
  apply keeps_bind; [exact HP|apply touches_os_fsync|]. intros _.
  apply keeps_ret. exact HP.
Qed.

(** When the [with] block returns, the temporary file holds the whole
    encoded text. *)
Lemma with_block_ok obj tf w a w' :
  fs w !! tf = Some [] -> buffers w !! tf = Some [] ->
  with_file tf (json_dump obj tf ;;; tf_flush tf ;;; os_fsync tf ;;; ret tf) w
    = (Ok a, w') ->
  a = tf /\ exists data, utf8_encode (dumps obj) = Some data /\
                         fs w' !! tf = Some data.
Proof.
  intros Hfs Hbuf. unfold with_file.
  unfold bind at 1. unfold json_dump. unfold external at 1.
  destruct (faults w (clock w)).
  { destruct (tf_close tf _) as [[?|?] ?]; discriminate. }
  cbn [buffers set_buffers tick emit]. rewrite Hbuf.
  unfold default; cbn [from_option id app].
  unfold bind at 1. unfold tf_flush. unfold external at 1.
  cbn [faults clock set_buffers tick emit].
  destruct (faults w (S (clock w))).
  { destruct (tf_close tf _) as [[?|?] ?]; discriminate. }
  unfold flush_buffer at 1.
  cbn [buffers fs set_buffers set_fs tick emit]. rewrite lookup_insert_eq, Hfs.
  unfold default; cbn [from_option id app].
  destruct (utf8_encode (dumps obj)) as [data|].
  2:{ destruct (tf_close tf _) as [[?|?] ?]; discriminate. }
  unfold bind at 1. unfold os_fsync. unfold external at 1.
  cbn [faults clock set_buffers set_fs tick emit].
  destruct (faults w (S (S (clock w)))).
  { destruct (tf_close tf _) as [[?|?] ?]; discriminate. }
  unfold ret at 1. unfold bind at 1. unfold tf_close. unfold external at 1.
  cbn [faults clock set_buffers set_fs tick emit].
  destruct (faults w (S (S (S (clock w))))); [discriminate|].
  unfold flush_buffer.
  cbn [buffers fs set_buffers set_fs tick emit]. rewrite !lookup_insert_eq.
  unfold default; cbn [from_option id app]. rewrite utf8_encode_nil.
  unfold ret. intros [= <- <-]. split; [reflexivity|]. exists data.
  split; [reflexivity|].
  cbn [fs set_buffers set_fs tick emit]. rewrite lookup_insert_eq, app_nil_r.
  reflexivity.
Qed.

(** The run of [_atomic_write_json] under any fault plan: if it returns,
    the target holds the whole encoded text; if it raises, the target is
    what it was; no file other than the temporary one was written into. *)
Lemma atomic_write_any path obj w r w' :
  tmp_apart (PSM.directory_of path) path w ->
  PSM._atomic_write_json path obj w = (r, w') ->
  (exists t, trace w' = trace w ++ t /\
             Forall (fun f => f <> path) (written_files t)) /\
  match r with
  | Ok _ => exists data, utf8_encode (dumps obj) = Some data /\
                         fs w' !! path = Some data
  | Raise _ => fs w' !! path = fs w !! path
  end.
Proof.
  intros Hapart. set (dir := PSM.directory_of path) in *.
  unfold PSM._atomic_write_json. fold dir.
  unfold bind at 1. unfold NamedTemporaryFile.
  pose proof (free_name_spec TMP_MAX dir w) as Hfree.
  destruct (free_name TMP_MAX dir w) as [[tf|] w0].
  2:{ destruct Hfree as (Hfs & _ & _ & Htr & _). intros [= <- <-]. split.
      - exists []. rewrite app_nil_r. split; [exact Htr|constructor].
      - rewrite Hfs. reflexivity. }
  destruct Hfree as (Hfs0 & _ & _ & Htr0 & _ & _ & _ & _ & Hname).
  destruct (Hname tf eq_refl) as (Hnew & n & Hn).
  assert (Hne : tf <> path) by (rewrite Hn; apply Hapart).
  unfold external at 1. destruct (faults w0 (clock w0)).
  { intros [= <- <-]. cbn [fs trace tick emit]. split.
    - exists [EvMkstemp dir tf]. rewrite Htr0. split; [reflexivity|constructor].
    - rewrite Hfs0. reflexivity. }
  set (w1 := set_buffers _ _).
  assert (Hw1 : only_touches tf path w w1).
  { split.
    - intros p Hp. subst w1. cbn [fs set_buffers set_fs tick emit].
      rewrite lookup_insert_ne by congruence. rewrite Hfs0. reflexivity.
    - exists [EvMkstemp dir tf]. subst w1. cbn [trace set_buffers set_fs tick emit].
      rewrite Htr0. split; [reflexivity|constructor]. }
  pose proof (touches_with_block obj tf path Hne w1) as Hblock.
  pose proof (with_block_ok obj tf w1) as Hok.
  unfold bind at 1.
  destruct (with_file tf _ w1) as [[a|e] w2]; cbn [snd] in Hblock.
  2:{ intros [= <- <-].
      destruct (only_touches_preorder tf path) as [_ Htrans].
      destruct (Htrans _ _ _ Hw1 Hblock) as [Hoff Ht]. split; [exact Ht|].
      apply Hoff. congruence. }
  destruct (Hok a w2) as (-> & data & Henc & Hdata); try reflexivity.
  { subst w1. cbn [fs set_buffers set_fs tick emit]. apply lookup_insert_eq. }
  { subst w1. cbn [buffers set_buffers set_fs tick emit]. apply lookup_insert_eq. }
  destruct (only_touches_preorder tf path) as [_ Htrans].
  destruct (Htrans _ _ _ Hw1 Hblock) as [Hoff (t & Ht & Hwr)].
  unfold os_replace, external. destruct (faults w2 (clock w2)).
  { intros [= <- <-]. cbn [fs trace tick emit]. split.
    - exists (t ++ [EvReplace tf path]). rewrite Ht, <- app_assoc.
      split; [reflexivity|]. rewrite written_files_app, app_nil_r. exact Hwr.
    - apply Hoff. congruence. }
  cbn [fs tick emit]. rewrite Hdata. intros [= <- <-].
  cbn [fs trace set_fs tick emit]. split.
  - exists (t ++ [EvReplace tf path]). rewrite Ht, <- app_assoc.
    split; [reflexivity|]. rewrite written_files_app, app_nil_r. exact Hwr.
  - exists data. split; [exact Henc|]. apply lookup_insert_eq.
Qed.

End AtomicWrite.

(* ===================================================================== *)
(** ** The encoder writes ASCII *)
(* ===================================================================== *)

Section JsonInduction.
Context `{PyFloat}.
Variable P : json -> Prop.
Hypothesis HNull : P JNull.
Hypothesis HBool : forall b, P (JBool b).
Hypothesis HInt : forall z, P (JInt z).
Hypothesis HFloat : forall f, P (JFloat f).
Hypothesis HStr : forall s, P (JStr s).
Hypothesis HArr : forall items, Forall P items -> P (JArr items).
Hypothesis HObj :
  forall entries, Forall (fun kv => P (snd kv)) entries -> P (JObj entries).

(** Induction on a value, with the hypothesis for every element of a list
    and every value of a dict. *)
Fixpoint json_ind (v : json) : P v :=
  match v with
  | JNull => HNull
  | JBool b => HBool b
  | JInt z => HInt z
  | JFloat f => HFloat f
  | JStr s => HStr s
  | JArr items =>
      HArr items
        ((fix go (l : list json) : Forall P l :=
            match l with
            | [] => List.Forall_nil P
            | x :: l' => @List.Forall_cons _ P x l' (json_ind x) (go l')
            end) items)
  | JObj entries =>
      HObj entries
        ((fix go (l : list (pystr * json)) : Forall (fun kv => P (snd kv)) l :=
            match l with
            | [] => List.Forall_nil _
            | kv :: l' =>
                @List.Forall_cons _ (fun kv => P (snd kv)) kv l' (json_ind (snd kv)) (go l')
            end) entries)
  end.

End JsonInduction.

Section Ascii.
Context `{PyFloat}.

#[local] Abbreviation ascii_text := (Forall (fun c : N => c < 128)).

Lemma utf8_encode_ascii (t : pystr) : ascii_text t -> utf8_encode t = Some t.
Proof.
  induction 1 as [|c t Hc _ IH]; [reflexivity|].
  cbn [utf8_encode]. rewrite IH. unfold utf8_encode_char.
  apply N.ltb_lt in Hc. rewrite Hc. reflexivity.
Qed.

Lemma utf8_decode_ascii (t : pystr) : ascii_text t -> utf8_decode t = Some t.
Proof.
  induction 1 as [|c t Hc _ IH]; [reflexivity|].
  cbn [utf8_decode]. rewrite IH. apply N.ltb_lt in Hc. rewrite Hc. reflexivity.
Qed.

Lemma hexdigit_ascii n : n < 16 -> hexdigit n < 128.
Proof. intros Hn. unfold hexdigit. destruct (N.ltb_spec n 10); lia. Qed.

Lemma hex4_ascii n : ascii_text (hex4 n).
Proof.
  unfold hex4. repeat constructor; apply hexdigit_ascii, N.mod_lt; discriminate.
Qed.

Lemma u_escape_ascii n : ascii_text (u_escape n).
Proof.
  unfold u_escape. constructor; [reflexivity|]. constructor; [reflexivity|].
  apply hex4_ascii.
Qed.

Lemma escape_char_ascii c : ascii_text (escape_char c).
Proof.
  unfold escape_char.
  repeat match goal with
         | |- context [if ?b then _ else _] => destruct b eqn:?
         end;
    try (repeat constructor; reflexivity);
    try apply u_escape_ascii.
  - constructor; [|constructor].
    apply andb_true_iff in Heqb1 as [_ Hc%N.leb_le]. lia.
  - apply Forall_app. split; apply u_escape_ascii.
Qed.

Lemma encode_basestring_ascii_ascii s : ascii_text (encode_basestring_ascii s).
Proof.
  unfold encode_basestring_ascii. constructor; [reflexivity|].
  apply Forall_app. split; [|repeat constructor; reflexivity].
  induction s as [|c s IH]; [constructor|].
  cbn [flat_map]. apply Forall_app. split; [apply escape_char_ascii|exact IH].
Qed.

Lemma chars_of_uint_ascii d : ascii_text (chars_of_uint d).
Proof. induction d; cbn [chars_of_uint]; constructor; (reflexivity || assumption). Qed.

Lemma int_repr_ascii z : ascii_text (int_repr z).
Proof.
  destruct z; cbn [int_repr]; repeat constructor;
    try apply chars_of_uint_ascii; reflexivity.
Qed.

Lemma join_ascii sep parts :
  ascii_text sep -> Forall ascii_text parts -> ascii_text (join sep parts).
Proof.
  intros Hsep. induction 1 as [|p ps Hp Hps IH]; [constructor|].
  cbn [join]. destruct ps as [|q ps]; [exact Hp|].
  apply Forall_app. split; [exact Hp|]. apply Forall_app. split; assumption.
Qed.

Lemma insert_item_Forall {A} (Q : pystr * A -> Prop) kv l :
  Q kv -> Forall Q l -> Forall Q (insert_item kv l).
Proof.
  intros Hkv. induction 1 as [|kv' l Hkv' Hl IH]; cbn [insert_item].
  - repeat constructor. exact Hkv.
  - destruct (pystr_leb _ _); repeat constructor; assumption.
Qed.

Lemma sorted_items_Forall {A} (Q : pystr * A -> Prop) l :
  Forall Q l -> Forall Q (sorted_items l).
Proof.
  induction 1 as [|kv l Hkv Hl IH]; [constructor|].
  cbn [sorted_items fold_right]. apply insert_item_Forall; assumption.
Qed.

Lemma dumps_ascii (v : json) : ascii_text (dumps v).
Proof.
  induction v as [| [] | z | f | s | items IH | entries IH] using json_ind;
    cbn [dumps].
  - repeat constructor; reflexivity.
  - repeat constructor; reflexivity.
  - repeat constructor; reflexivity.
  - apply int_repr_ascii.
  - apply floatstr_ascii.
  - apply encode_basestring_ascii_ascii.
  - constructor; [reflexivity|]. apply Forall_app.
    split; [|repeat constructor; reflexivity].
    apply join_ascii; [repeat constructor; reflexivity|].
    induction IH; constructor; assumption.
  - constructor; [reflexivity|]. apply Forall_app.
    split; [|repeat constructor; reflexivity].
    apply join_ascii; [repeat constructor; reflexivity|].
    apply Forall_map.
    apply (sorted_items_Forall (fun kv => ascii_text (dump_item kv))).
    induction IH as [|[k x] l Hx _ IHl]; constructor; [|exact IHl].
    unfold dump_item. cbn [fst snd]. apply Forall_app.
    split; [apply encode_basestring_ascii_ascii|].
    constructor; [reflexivity|exact Hx].
Qed.

Lemma utf8_encode_dumps v : utf8_encode (dumps v) = Some (dumps v).
Proof. apply utf8_encode_ascii, dumps_ascii. Qed.

Lemma utf8_decode_dumps v : utf8_decode (dumps v) = Some (dumps v).
Proof. apply utf8_decode_ascii, dumps_ascii. Qed.

End Ascii.

(* ===================================================================== *)
(** ** Reading a slot *)
(* ===================================================================== *)

Section Reading.
Context `{PyFloat} `{!Psm}.

Lemma os_path_getsize_quiet path w data :
  quiet w -> fs w !! path = Some data ->
  os_path_getsize path w = (Ok (length data), tick (emit (EvGetsize path) w)).
Proof.
  intros Hq Hfs. unfold os_path_getsize. rewrite external_quiet by assumption.
  cbn [fs tick emit]. rewrite Hfs. reflexivity.
Qed.

Lemma quiet_step ev w : quiet w -> quiet (tick (emit ev w)).
Proof. intros Hq n. apply Hq. Qed.

Lemma quiet_same_plan w w' : same_plan w w' -> quiet w -> quiet w'.
Proof. unfold same_plan, quiet. intros -> Hq. exact Hq. Qed.

Lemma read_missing path w :
  fs w !! path = None ->
  OutputBridge.read_json_if_ready path w = (Ok JNull, w).
Proof.
  intros Hfs. unfold OutputBridge.read_json_if_ready. apply try_except_ok.
  erewrite bind_ok by (apply os_path_exists_none, Hfs). reflexivity.
Qed.

Lemma read_empty path w :
  quiet w -> fs w !! path = Some [] ->
  OutputBridge.read_json_if_ready path w =
    (Ok JNull, tick (emit (EvGetsize path) w)).
Proof.
  intros Hq Hfs. unfold OutputBridge.read_json_if_ready. apply try_except_ok.
  erewrite bind_ok by (eapply os_path_exists_some, Hfs). cbn [negb].
  erewrite bind_ok by (eapply os_path_getsize_quiet; eassumption).
  reflexivity.
Qed.

Lemma read_value path w data text v :
  quiet w -> fs w !! path = Some data -> data <> [] ->
  utf8_decode data = Some text -> loads text = Some v ->
  OutputBridge.read_json_if_ready path w = (Ok v, after_read path w).
Proof.
  intros Hq Hfs Hne Hdec Hload.
  unfold OutputBridge.read_json_if_ready. apply try_except_ok.
  erewrite bind_ok by (eapply os_path_exists_some, Hfs). cbn [negb].
  erewrite bind_ok by (eapply os_path_getsize_quiet; eassumption).
  destruct data as [|b data]; [congruence|]. cbn [length Nat.eqb].
  erewrite bind_ok.
  2:{ eapply read_text_quiet; [apply quiet_step, Hq|exact Hfs|exact Hdec]. }
  unfold json_loads. rewrite Hload. reflexivity.
Qed.

Lemma read_malformed path w data text :
  quiet w -> fs w !! path = Some data -> data <> [] ->
  utf8_decode data = Some text -> loads text = None ->
  OutputBridge.read_json_if_ready path w = (Ok JNull, after_read path w).
Proof.
  intros Hq Hfs Hne Hdec Hload.
  unfold OutputBridge.read_json_if_ready, try_except.
  erewrite bind_ok by (eapply os_path_exists_some, Hfs). cbn [negb].
  erewrite bind_ok by (eapply os_path_getsize_quiet; eassumption).
  destruct data as [|b data]; [congruence|]. cbn [length Nat.eqb].
  erewrite bind_ok.
  2:{ eapply read_text_quiet; [apply quiet_step, Hq|exact Hfs|exact Hdec]. }
  unfold json_loads. rewrite Hload. reflexivity.
Qed.

Lemma read_undecodable path w data :
  quiet w -> fs w !! path = Some data -> data <> [] ->
  utf8_decode data = None ->
  OutputBridge.read_json_if_ready path w =
    (print (OutErrorReading path UnicodeDecodeError) ;;; ret JNull)
      (after_read path w).
Proof.
  intros Hq Hfs Hne Hdec.
  unfold OutputBridge.read_json_if_ready, try_except.
  erewrite bind_ok by (eapply os_path_exists_some, Hfs). cbn [negb].
  erewrite bind_ok by (eapply os_path_getsize_quiet; eassumption).
  destruct data as [|b data]; [congruence|]. cbn [length Nat.eqb].
  erewrite bind_raise.
  2:{ unfold read_text. rewrite external_quiet by (apply quiet_step, Hq).
      cbn [fs tick emit]. rewrite Hfs, Hdec. reflexivity. }
  reflexivity.
Qed.

(** The same files in the driver's read. *)
Lemma update_inputs_malformed w data text :
  quiet w -> fs w !! PSM.INPUT_PATH = Some data ->
  utf8_decode data = Some text -> loads text = None ->
  PSM.update_inputs w =
    print (PsmErrorInUpdateInputs JSONDecodeError)
      (tick (emit (EvOpenRead PSM.INPUT_PATH) w)).
Proof.
  intros Hq Hfs Hdec Hload. unfold PSM.update_inputs, try_except.
  erewrite bind_ok by (eapply os_path_exists_some, Hfs). cbn [negb].
  erewrite bind_ok by (eapply read_text_quiet; eassumption).
  unfold json_loads. rewrite Hload. reflexivity.
Qed.

Lemma update_inputs_undecodable w data :
  quiet w -> fs w !! PSM.INPUT_PATH = Some data ->
  utf8_decode data = None ->
  PSM.update_inputs w =
    print (PsmErrorInUpdateInputs UnicodeDecodeError)
      (tick (emit (EvOpenRead PSM.INPUT_PATH) w)).
Proof.
  intros Hq Hfs Hdec. unfold PSM.update_inputs, try_except.
  erewrite bind_ok by (eapply os_path_exists_some, Hfs). cbn [negb].
  erewrite bind_raise.
  2:{ unfold read_text. rewrite external_quiet by exact Hq.
      cbn [fs tick emit]. rewrite Hfs, Hdec. reflexivity. }
  reflexivity.
Qed.

Lemma update_inputs_non_object w data text v :
  quiet w -> fs w !! PSM.INPUT_PATH = Some data ->
  utf8_decode data = Some text -> loads text = Some v -> is_dict v = false ->
  PSM.update_inputs w =
    print PsmIgnoringNonObject (tick (emit (EvOpenRead PSM.INPUT_PATH) w)).
Proof.
  intros Hq Hfs Hdec Hload Hv. unfold PSM.update_inputs, try_except.
  erewrite bind_ok by (eapply os_path_exists_some, Hfs). cbn [negb].
  erewrite bind_ok by (eapply read_text_quiet; eassumption).
  unfold json_loads. rewrite Hload. erewrite bind_ok by reflexivity.
  destruct v; try reflexivity. discriminate.
Qed.

Lemma loads_empty : loads [] = None.
Proof. reflexivity. Qed.

End Reading.

(* ===================================================================== *)
(** ** The inbound adapter (C7) *)
(* ===================================================================== *)

Section Inbound.
Context `{PyFloat} `{!Psm}.

Lemma on_message_bad_utf8 payload w :
  utf8_decode payload = None ->
  InputBridge.on_message payload w = print (InError UnicodeDecodeError) w.
Proof.
  intros Hdec. unfold InputBridge.on_message, try_except, bind,
    InputBridge.decode_payload. rewrite Hdec. reflexivity.
Qed.

Lemma on_message_bad_json payload text w :
  utf8_decode payload = Some text -> loads text = None ->
  InputBridge.on_message payload w = print InNotValidJson w.
Proof.
  intros Hdec Hload. unfold InputBridge.on_message, try_except, bind,
    InputBridge.decode_payload, json_loads. rewrite Hdec. unfold ret at 1.
  rewrite Hload. reflexivity.
Qed.

Lemma on_message_non_object payload text v w :
  utf8_decode payload = Some text -> loads text = Some v -> is_dict v = false ->
  InputBridge.on_message payload w = print InIgnoredPayload w.
Proof.
  intros Hdec Hload Hv. unfold InputBridge.on_message, try_except, bind,
    InputBridge.decode_payload, json_loads. rewrite Hdec. unfold ret at 1.
  rewrite Hload. unfold ret at 1. destruct v; try reflexivity. discriminate.
Qed.

Lemma on_message_object payload text entries w :
  utf8_decode payload = Some text -> loads text = Some (JObj entries) ->
  quiet w -> fresh_tmp "/tmp" w ->
  exists w',
    InputBridge.on_message payload w = (Ok tt, w') /\
    fs w' = <[InputBridge.INPUT_PATH := dumps (JObj entries)]> (fs w) /\
    stdout w' = stdout w ++ key_warning entries
                  ++ [InWrote InputBridge.INPUT_PATH (JObj entries)] /\
    controller w' = controller w /\ same_plan w w'.
Proof.
  intros Hdec Hload Hq Hfresh.
  unfold InputBridge.on_message. unfold try_except.
  unfold bind at 1. unfold InputBridge.decode_payload. rewrite Hdec.
  unfold ret at 1. unfold bind at 1. unfold json_loads. rewrite Hload.
  unfold ret at 1.
  set (w1 := World (fs w) (buffers w) (stdout w ++ key_warning entries) (trace w)
                   (controller w) (clock w) (faults w) (tmp_seq w) (tmp_names w)).
  assert (Hwarn : (match InputBridge.bad_keys_of entries with
                   | [] => ret tt
                   | _ :: _ => print (InWarningKeys (InputBridge.bad_keys_of entries))
                   end) w = (Ok tt, w1)).
  { subst w1. unfold key_warning.
    destruct (InputBridge.bad_keys_of entries); [|reflexivity].
    unfold ret. rewrite app_nil_r. destruct w; reflexivity. }
  erewrite bind_ok by exact Hwarn.
  destruct (atomic_write_quiet InputBridge.INPUT_PATH (JObj entries)
              (dumps (JObj entries)) w1)
    as (w2 & Hrun & Hfs & _ & Hout & Hctl & Hplan).
  { intros n. apply Hq. } { exact Hfresh. } { apply utf8_encode_dumps. }
  change (InputBridge.atomically_write_json InputBridge.INPUT_PATH (JObj entries))
    with (PSM._atomic_write_json InputBridge.INPUT_PATH (JObj entries)).
  erewrite bind_ok by exact Hrun.
  eexists. split; [reflexivity|].
  cbn [fs stdout controller]. rewrite Hfs, Hout, Hctl. subst w1.
  cbn [fs stdout controller]. rewrite <- app_assoc.
  repeat split. exact Hplan.
Qed.

(** C7. One message. A payload that is not UTF-8, or not JSON, or JSON but
    not an object, is dropped: a line is printed, no file is touched, no
    external call is made, the call returns. A payload that decodes to an
    object is written whole to the inbound slot, in place of what was
    there, whether or not all its keys start with [%]; keys that do not
    only add a warning line (here for a world where no call raises and the
    first temporary name is free). And whatever [Exception]s the external
    calls raise, [on_message] returns. *)
Theorem on_message_drops_or_writes_whole (payload : pybytes) (w : world) :
  (utf8_decode payload = None ->
   exists w', InputBridge.on_message payload w = (Ok tt, w') /\
              fs w' = fs w /\ trace w' = trace w /\
              stdout w' = stdout w ++ [InError UnicodeDecodeError]) /\
  (forall text, utf8_decode payload = Some text -> loads text = None ->
   exists w', InputBridge.on_message payload w = (Ok tt, w') /\
              fs w' = fs w /\ trace w' = trace w /\
              stdout w' = stdout w ++ [InNotValidJson]) /\
  (forall text v, utf8_decode payload = Some text -> loads text = Some v ->
                  is_dict v = false ->
   exists w', InputBridge.on_message payload w = (Ok tt, w') /\
              fs w' = fs w /\ trace w' = trace w /\
              stdout w' = stdout w ++ [InIgnoredPayload]) /\
  (forall text entries,
      utf8_decode payload = Some text -> loads text = Some (JObj entries) ->
      quiet w -> fresh_tmp "/tmp" w ->
   exists w', InputBridge.on_message payload w = (Ok tt, w') /\
              fs w' = <[InputBridge.INPUT_PATH := dumps (JObj entries)]> (fs w) /\
              stdout w' = stdout w ++ key_warning entries
                            ++ [InWrote InputBridge.INPUT_PATH (JObj entries)]) /\
  (only_errors w -> exists w', InputBridge.on_message payload w = (Ok tt, w')).
Proof.
  split; [|split; [|split; [|split]]].
  - intros Hdec. rewrite on_message_bad_utf8 by assumption.
    eexists. split; [reflexivity|]. repeat split.
  - intros text Hdec Hload. erewrite on_message_bad_json by eassumption.
    eexists. split; [reflexivity|]. repeat split.
  - intros text v Hdec Hload Hv. erewrite on_message_non_object by eassumption.
    eexists. split; [reflexivity|]. repeat split.
  - intros text entries Hdec Hload Hq Hfresh.
    destruct (on_message_object payload text entries w Hdec Hload Hq Hfresh)
      as (w' & Hrun & Hfs & Hout & _). eauto.
  - intros Hw. destruct (on_message_returns payload w Hw) as ([] & w' & Hrun & _).
    eauto.
Qed.

End Inbound.

(* ===================================================================== *)
(** ** The driver's outputs (C4) *)
(* ===================================================================== *)

Section Outputs.
Context `{PyFloat} `{!Psm}.

Lemma dict_set_keys {A} k (v : A) d k' :
  In k' (keys (dict_set k v d)) <-> k' = k \/ In k' (keys d).
Proof.
  induction d as [|[k0 v0] d IH]; cbn [dict_set keys List.map fst In].
  - intuition.
  - destruct (pystr_eqb k k0) eqn:Hk; cbn [keys List.map fst In].
    + apply pystr_eqb_eq in Hk. subst k0. intuition.
    + unfold keys in IH. rewrite IH. intuition.
Qed.

Lemma dict_set_NoDup {A} k (v : A) d :
  NoDup (keys d) -> NoDup (keys (dict_set k v d)).
Proof.
  induction d as [|[k0 v0] d IH]; cbn [dict_set keys List.map fst].
  - intros _. apply NoDup_singleton.
  - intros Hnd. apply NoDup_cons in Hnd as [Hk0 Hnd].
    destruct (pystr_eqb k k0) eqn:Hk; cbn [keys List.map fst].
    + apply pystr_eqb_eq in Hk. subst k0. apply NoDup_cons. split; assumption.
    + apply NoDup_cons. split; [|apply IH, Hnd].
      rewrite list_elem_of_In.
      change (List.map fst (dict_set k v d)) with (keys (dict_set k v d)).
      rewrite dict_set_keys. intros [->|Hin].
      * rewrite pystr_eqb_refl in Hk. discriminate.
      * apply Hk0. apply list_elem_of_In. exact Hin.
Qed.

Lemma dict_get_set_eq {A} k (v : A) d : dict_get k (dict_set k v d) = Some v.
Proof.
  induction d as [|[k0 v0] d IH]; cbn [dict_set dict_get].
  - rewrite pystr_eqb_refl. reflexivity.
  - destruct (pystr_eqb k k0) eqn:Hk; cbn [dict_get]; rewrite ?pystr_eqb_refl, ?Hk;
      [reflexivity|exact IH].
Qed.

Lemma dict_get_set_ne {A} k (v : A) d k' :
  k' <> k -> dict_get k' (dict_set k v d) = dict_get k' d.
Proof.
  intros Hne. induction d as [|[k0 v0] d IH]; cbn [dict_set dict_get].
  - apply pystr_eqb_neq in Hne. rewrite Hne. reflexivity.
  - destruct (pystr_eqb k k0) eqn:Hk; cbn [dict_get].
    + apply pystr_eqb_eq in Hk. subst k0.
      apply pystr_eqb_neq in Hne. rewrite Hne. reflexivity.
    + rewrite IH. reflexivity.
Qed.

Lemma collected_NoDup vars c output :
  NoDup (keys output) -> NoDup (keys (collected vars c output)).
Proof.
  revert output; induction vars as [|a vars IH]; intros output Hnd; [exact Hnd|].
  apply IH, dict_set_NoDup, Hnd.
Qed.

Lemma collected_keys vars c output k :
  In k (keys (collected vars c output)) <->
  In k (keys output) \/ exists name, In name vars /\ k = str "%" ++ name.
Proof.
  revert output; induction vars as [|a vars IH]; intros output.
  - cbn. split; [auto|]. intros [?|(? & [] & _)]. assumption.
  - change (collected (a :: vars) c output)
      with (collected vars c (dict_set (str "%" ++ a) (plc_get_var a c) output)).
    rewrite IH, dict_set_keys. cbn [In]. split.
    + intros [[->|?]|(name & ? & ?)]; eauto.
    + intros [?|(name & [<-|?] & ->)]; eauto.
Qed.

Lemma collected_get vars c output name :
  In name vars ->
  dict_get (str "%" ++ name) (collected vars c output)
    = Some (plc_get_var name c).
Proof.
  revert output; induction vars as [|a vars IH]; intros output; [intros []|].
  change (collected (a :: vars) c output)
    with (collected vars c (dict_set (str "%" ++ a) (plc_get_var a c) output)).
  destruct (decide (name ∈ vars)) as [Hin|Hnin];
    rewrite list_elem_of_In in *.
  - intros _. apply IH, Hin.
  - intros [->|Hin]; [|contradiction]. clear IH.
    generalize (dict_get_set_eq (str "%" ++ name) (plc_get_var name c) output).
    generalize (dict_set (str "%" ++ name) (plc_get_var name c) output).
    induction vars as [|b vars IH]; intros o Ho; [exact Ho|].
    change (collected (b :: vars) c o)
      with (collected vars c (dict_set (str "%" ++ b) (plc_get_var b c) o)).
    apply IH; [intros Hin; apply Hnin; right; exact Hin|].
    rewrite dict_get_set_ne; [exact Ho|].
    intros Heq. apply Hnin. left. apply app_inv_head in Heq. congruence.
Qed.

Lemma polled_fields vars w :
  fs (polled vars w) = fs w /\ stdout (polled vars w) = stdout w /\
  controller (polled vars w) = controller w /\
  faults (polled vars w) = faults w /\ tmp_seq (polled vars w) = tmp_seq w /\
  tmp_names (polled vars w) = tmp_names w.
Proof.
  revert w; induction vars as [|a vars IH]; intros w; [repeat split|].
  change (polled (a :: vars) w) with (polled vars (tick (emit (EvGetVar a) w))).
  destruct (IH (tick (emit (EvGetVar a) w))) as (-> & -> & -> & -> & -> & ->).
  repeat split.
Qed.

Lemma collect_quiet vars output w :
  quiet w ->
  PSM.collect vars output w
    = (Ok (collected vars (controller w) output), polled vars w).
Proof.
  revert output w; induction vars as [|a vars IH]; intros output w Hq; [reflexivity|].
  cbn [PSM.collect]. unfold bind at 1. unfold psm_get_var.
  rewrite external_quiet by assumption. cbn [controller tick emit].
  rewrite IH by (intros n; apply Hq). reflexivity.
Qed.

Lemma update_outputs_quiet vars w :
  quiet w -> fresh_tmp "/tmp" w ->
  exists w',
    PSM.update_outputs_of vars w = (Ok tt, w') /\
    fs w' = <[PSM.OUTPUT_PATH :=
                dumps (JObj (collected vars (controller w) []))]> (fs w) /\
    stdout w' = stdout w /\ same_plan w w'.
Proof.
  intros Hq Hfresh. unfold PSM.update_outputs_of.
  destruct (polled_fields vars w) as (Hfs & Hout & Hctl & Hpl & Hseq & Hnames).
  destruct (atomic_write_quiet PSM.OUTPUT_PATH
              (JObj (collected vars (controller w) []))
              (dumps (JObj (collected vars (controller w) []))) (polled vars w))
    as (w2 & Hrun & Hfs2 & _ & Hout2 & _ & Hplan).
  { intros n. rewrite Hpl. apply Hq. }
  { unfold fresh_tmp. rewrite Hfs, Hseq, Hnames. exact Hfresh. }
  { apply utf8_encode_dumps. }
  exists w2. split.
  - apply try_except_ok. erewrite bind_ok by (apply collect_quiet, Hq). exact Hrun.
  - rewrite Hfs2, Hfs, Hout2, Hout. repeat split.
    unfold same_plan in *. congruence.
Qed.

(** C4. One run of [update_outputs] in a world where no call raises and the
    first temporary name is free. The outbound slot is replaced by the
    canonical text of a snapshot built from the empty dict: its keys are
    pairwise distinct and are exactly the names of the exported variables
    with [%] in front, and the value under each key is what [psm.get_var]
    returns for that name. Nothing of the slot's previous content enters
    the snapshot. With the configured [OUTPUT_VARS] the snapshot is the one
    entry for [%QX0.0]. *)
Theorem update_outputs_writes_fresh_snapshot (vars : list pystr) (w : world) :
  quiet w -> fresh_tmp "/tmp" w ->
  let snapshot := collected vars (controller w) [] in
  (exists w',
      PSM.update_outputs_of vars w = (Ok tt, w') /\
      fs w' = <[PSM.OUTPUT_PATH := dumps (JObj snapshot)]> (fs w)) /\
  NoDup (keys snapshot) /\
  (forall k, In k (keys snapshot) <->
             exists name, In name vars /\ k = str "%" ++ name) /\
  (forall name, In name vars ->
                dict_get (str "%" ++ name) snapshot
                  = Some (plc_get_var name (controller w))) /\
  PSM.update_outputs = PSM.update_outputs_of PSM.OUTPUT_VARS /\
  collected PSM.OUTPUT_VARS (controller w) []
    = [(str "%QX0.0", plc_get_var (str "QX0.0") (controller w))].
Proof.
  intros Hq Hfresh snapshot. split; [|split; [|split; [|split; [|split]]]].
  - destruct (update_outputs_quiet vars w Hq Hfresh) as (w' & Hrun & Hfs & _).
    eauto.
  - apply collected_NoDup. constructor.
  - intros k. unfold snapshot. rewrite collected_keys. cbn [keys List.map In].
    intuition.
  - intros name Hin. apply collected_get, Hin.
  - reflexivity.
  - reflexivity.
Qed.

End Outputs.

(* ===================================================================== *)
(** ** Init when no call raises *)
(* ===================================================================== *)

Section Init.
Context `{PyFloat} `{!Psm}.

Lemma update_inputs_same_files : keeps same_files PSM.update_inputs.
Proof.
  pose proof same_files_preorder as HP.
  unfold PSM.update_inputs. apply keeps_try_except; [exact HP| |].
  - apply keeps_bind; [exact HP|intros w; reflexivity|]. intros present.
    destruct (negb present); [apply keeps_ret; exact HP|].
    apply keeps_bind; [exact HP| |].
    { unfold read_text. apply keeps_external; [exact HP|intros w; reflexivity|].
      intros w. repeat case_match; reflexivity. }
    intros text. apply keeps_bind; [exact HP| |].
    { unfold json_loads. destruct (loads text);
        [apply keeps_ret|apply keeps_raise]; exact HP. }
    intros data. destruct data; try (intros w; reflexivity).
    apply keeps_for_each; [exact HP|]. intros [k v]. unfold PSM.apply_entry.
    destruct (negb _); [apply keeps_ret; exact HP|].
    unfold psm_set_var. apply keeps_external; [exact HP| |]; intros w; reflexivity.
  - constructor; [|constructor]. intros e w. reflexivity.
Qed.

Lemma quiet_only_errors w : quiet w -> only_errors w.
Proof. intros Hq n e He. rewrite Hq in He. discriminate. Qed.

Lemma hardware_init_quiet w :
  quiet w -> fresh_tmp "/tmp" w ->
  exists w',
    PSM.hardware_init w = (Ok tt, w') /\
    fs w' = <[PSM.OUTPUT_PATH := str "{}"]> (fs w) /\
    stdout w' = stdout w /\ quiet w' /\
    exists t, trace w' = trace w ++ EvPsmStart :: t.
Proof.
  intros Hq Hfresh. unfold PSM.hardware_init.
  unfold bind at 1. unfold psm_start. rewrite external_quiet by assumption.
  set (w1 := set_controller _ _).
  destruct (atomic_write_quiet PSM.OUTPUT_PATH (JObj []) (dumps (JObj [])) w1)
    as (w2 & Hrun & Hfs & Htr & Hout & _ & Hplan).
  { intros n. apply Hq. } { exact Hfresh. } { apply utf8_encode_dumps. }
  exists w2. split; [apply try_except_ok, Hrun|].
  rewrite Hfs, Hout. repeat split.
  - eapply quiet_same_plan; [exact Hplan|]. intros n. apply Hq.
  - eexists. rewrite Htr. subst w1. cbn [trace set_controller tick emit].
    rewrite <- app_assoc. reflexivity.
Qed.

End Init.

(* ===================================================================== *)
(** ** The outbound adapter publishes changes only (C2) *)
(* ===================================================================== *)

Section Outbound.
Context `{PyFloat} `{!Psm}.

Lemma publications_app t1 t2 :
  publications (t1 ++ t2) = publications t1 ++ publications t2.
Proof. unfold publications. apply flat_map_app. Qed.

Lemma same_publications_preorder : PreOrder same_publications.
Proof.
  split; unfold same_publications; [intros w; reflexivity|].
  intros a b c. congruence.
Qed.

Lemma read_same_publications path :
  keeps same_publications (OutputBridge.read_json_if_ready path).
Proof.
  pose proof same_publications_preorder as HP.
  assert (Hstep : forall ev w, publications [ev] = [] ->
                               same_publications w (tick (emit ev w))).
  { intros ev w Hev. unfold same_publications. cbn [trace tick emit].
    rewrite publications_app, Hev, app_nil_r. reflexivity. }
  unfold OutputBridge.read_json_if_ready. apply keeps_try_except; [exact HP| |].
  - apply keeps_bind; [exact HP|intros w; reflexivity|]. intros present.
    destruct (negb present); [apply keeps_ret; exact HP|].
    apply keeps_bind; [exact HP| |].
    { unfold os_path_getsize. apply keeps_external; [exact HP| |].
      - intros w. apply Hstep. reflexivity.
      - intros w. repeat case_match; reflexivity. }
    intros size. destruct (Nat.eqb size 0); [apply keeps_ret; exact HP|].
    apply keeps_bind; [exact HP| |].
    { unfold read_text. apply keeps_external; [exact HP| |].
      - intros w. apply Hstep. reflexivity.
      - intros w. repeat case_match; reflexivity. }
    intros text. unfold json_loads.
    destruct (loads text); [apply keeps_ret|apply keeps_raise]; exact HP.
  - constructor; [|constructor; [|constructor]]; intros e w; reflexivity.
Qed.

Lemma payload_differs_false current previous :
  OutputBridge.payload_differs current previous = false <->
  previous = Some current.
Proof.
  unfold OutputBridge.payload_differs. destruct previous as [p|].
  - rewrite negb_false_iff, pystr_eqb_eq. split; congruence.
  - split; discriminate.
Qed.

(** One turn, by the result of the read. *)
Lemma poll_cases previous w data w1 :
  OutputBridge.read_json_if_ready OutputBridge.OUTPUT_PATH w = (Ok data, w1) ->
  (OutputBridge.is_None data = true ->
   OutputBridge.poll previous w = (Ok previous, w1)) /\
  (OutputBridge.is_None data = false -> previous = Some (dumps data) ->
   OutputBridge.poll previous w = (Ok previous, w1)) /\
  (OutputBridge.is_None data = false -> previous <> Some (dumps data) ->
   exists w2,
     OutputBridge.poll previous w = (Ok (Some (dumps data)), w2) /\
     trace w2 = trace w1 ++ [EvPublish OutputBridge.MQTT_TOPIC (dumps data) 0 false] /\
     stdout w2 = stdout w1 ++ [OutPublished OutputBridge.MQTT_TOPIC (dumps data)] /\
     fs w2 = fs w1 /\ same_plan w1 w2).
Proof.
  intros Hread. unfold OutputBridge.poll.
  erewrite bind_ok by exact Hread. repeat split.
  - intros ->. reflexivity.
  - intros -> Hprev. cbn [negb].
    apply payload_differs_false in Hprev. rewrite Hprev. reflexivity.
  - intros -> Hprev. cbn [negb].
    destruct (OutputBridge.payload_differs (dumps data) previous) eqn:Hd.
    + eexists. split; [reflexivity|]. repeat split.
    + apply payload_differs_false in Hd. contradiction.
Qed.

Lemma last_payload_cons previous p rest :
  last_payload (Some p) rest = last_payload previous (p :: rest).
Proof. destruct rest; reflexivity. Qed.

(** The loop over a sequence of slot contents, each a readable value. *)
Lemma poll_loop_quiet datas values previous w :
  quiet w -> Forall2 decodes datas values ->
  exists w',
    OutputBridge.poll_loop (List.map Some datas) previous w
      = (Ok (last_payload previous (List.map dumps values)), w') /\
    publications (trace w')
      = publications (trace w) ++ changes previous (List.map dumps values).
Proof.
  intros Hq Hall. revert previous w Hq.
  induction Hall as [|data v datas values (Hne & Hv & text & Hdec & Hload) _ IH];
    intros previous w Hq.
  - exists w. split; [reflexivity|]. cbn. rewrite app_nil_r. reflexivity.
  - cbn [List.map OutputBridge.poll_loop].
    unfold bind at 1. unfold OutputBridge.set_slot at 1.
    set (w0 := set_fs _ w).
    assert (Hq0 : quiet w0) by (intros n; apply Hq).
    assert (Hread : OutputBridge.read_json_if_ready OutputBridge.OUTPUT_PATH w0
                    = (Ok v, after_read OutputBridge.OUTPUT_PATH w0)).
    { eapply read_value; [exact Hq0| |exact Hne|exact Hdec|exact Hload].
      subst w0. cbn [fs set_fs]. apply lookup_insert_eq. }
    destruct (poll_cases previous w0 v _ Hread) as (_ & Hsame & Hdiff).
    rewrite <- last_payload_cons. cbn [changes].
    destruct (OutputBridge.payload_differs (dumps v) previous) eqn:Hd.
    + destruct (Hdiff Hv) as (w2 & Hpoll & Htr & _ & _ & Hplan).
      { intros Hp. apply payload_differs_false in Hp. congruence. }
      erewrite bind_ok by exact Hpoll.
      destruct (IH (Some (dumps v)) w2) as (w' & Hloop & Hpub).
      { eapply quiet_same_plan; [exact Hplan|]. intros n. apply Hq. }
      exists w'. split; [exact Hloop|]. rewrite Hpub, Htr.
      rewrite !publications_app. cbn [trace after_read tick emit].
      rewrite !publications_app. subst w0. cbn [trace set_fs].
      cbn [publications flat_map app]. rewrite !app_nil_r, <- app_assoc.
      reflexivity.
    + apply payload_differs_false in Hd.
      erewrite bind_ok by (apply Hsame; assumption). rewrite Hd.
      destruct (IH (Some (dumps v)) (after_read OutputBridge.OUTPUT_PATH w0))
        as (w' & Hloop & Hpub).
      { intros n. apply Hq. }
      exists w'. split; [exact Hloop|]. rewrite Hpub.
      cbn [trace after_read tick emit]. rewrite !publications_app.
      subst w0. cbn [trace set_fs]. cbn [publications flat_map app].
      rewrite !app_nil_r. reflexivity.
Qed.

(** C2. One turn of the polling loop, by what the read of the outbound slot
    returns. If it returns [None], nothing is published and the fingerprint
    stays. Otherwise the canonical text of the value is compared with the
    fingerprint: if they are equal nothing is published and the fingerprint
    stays; if they differ the text is published once (topic [plc/output],
    qos 0, not retained) and becomes the fingerprint. The read itself never
    publishes. Hence, when no call raises: for the slot contents A, A, A,
    B, B with different canonical texts the publications are A then B; and
    from the fingerprint [None] of a fresh process one turn over readable
    content C publishes C, and further turns over C publish nothing. *)
Theorem poll_publishes_changes_only (previous : option pystr) (w : world) :
  (forall data w1,
      OutputBridge.read_json_if_ready OutputBridge.OUTPUT_PATH w = (Ok data, w1) ->
      publications (trace w1) = publications (trace w) /\
      (OutputBridge.is_None data = true ->
       OutputBridge.poll previous w = (Ok previous, w1)) /\
      (OutputBridge.is_None data = false -> previous = Some (dumps data) ->
       OutputBridge.poll previous w = (Ok previous, w1)) /\
      (OutputBridge.is_None data = false -> previous <> Some (dumps data) ->
       exists w2,
         OutputBridge.poll previous w = (Ok (Some (dumps data)), w2) /\
         trace w2 = trace w1
                    ++ [EvPublish OutputBridge.MQTT_TOPIC (dumps data) 0 false])) /\
  (forall a b A B,
      quiet w -> decodes a A -> decodes b B -> dumps A <> dumps B ->
      exists w',
        OutputBridge.poll_loop [Some a; Some a; Some a; Some b; Some b] None w
          = (Ok (Some (dumps B)), w') /\
        publications (trace w') = publications (trace w) ++ [dumps A; dumps B]) /\
  (forall c C n,
      quiet w -> decodes c C ->
      exists w',
        OutputBridge.poll_loop (List.map Some (c :: repeat c n)) None w
          = (Ok (Some (dumps C)), w') /\
        publications (trace w') = publications (trace w) ++ [dumps C]).
Proof.
  split; [|split].
  - intros data w1 Hread. split.
    + pose proof (read_same_publications OutputBridge.OUTPUT_PATH w) as Hp.
      rewrite Hread in Hp. exact Hp.
    + destruct (poll_cases previous w data w1 Hread) as (H1 & H2 & H3).
      split; [exact H1|]. split; [exact H2|]. intros Hv Hp.
      destruct (H3 Hv Hp) as (w2 & Hpoll & Htr & _). eauto.
  - intros a b A B Hq Ha Hb Hne.
    destruct (poll_loop_quiet [a; a; a; b; b] [A; A; A; B; B] None w Hq)
      as (w' & Hloop & Hpub).
    { do 3 (constructor; [exact Ha|]). do 2 (constructor; [exact Hb|]).
      constructor. }
    exists w'. split; [exact Hloop|]. rewrite Hpub. f_equal.
    cbn [List.map changes OutputBridge.payload_differs].
    rewrite !pystr_eqb_refl. cbn [negb].
    apply pystr_eqb_neq in Hne. rewrite pystr_eqb_neq in Hne.
    assert (Hba : pystr_eqb (dumps B) (dumps A) = false).
    { apply pystr_eqb_neq. intros Heq. apply Hne. symmetry. exact Heq. }
    rewrite Hba. reflexivity.
  - intros c C n Hq Hc.
    destruct (poll_loop_quiet (c :: repeat c n) (C :: repeat C n) None w Hq)
      as (w' & Hloop & Hpub).
    { constructor; [exact Hc|]. induction n; constructor; assumption. }
    exists w'. split.
    + rewrite Hloop. f_equal. f_equal.
      cbn [List.map last_payload]. clear. induction n as [|n IH]; [reflexivity|].
      cbn [repeat List.map] in *. destruct n; [reflexivity|exact IH].
    + rewrite Hpub. f_equal. cbn [List.map changes OutputBridge.payload_differs].
      f_equal. clear. induction n as [|n IH]; [reflexivity|].
      cbn [repeat List.map changes OutputBridge.payload_differs].
      rewrite pystr_eqb_refl. exact IH.
Qed.

End Outbound.

(* ===================================================================== *)
(** ** Missing, empty and malformed slots (C6) *)
(* ===================================================================== *)

Section AbsentSlots.
Context `{PyFloat} `{!Psm}.

(** C6, as the code has it. At both read sites a slot that does not exist,
    a slot of length zero and a slot whose content does not decode all
    leave the caller without data, and no exception leaves the read as
    long as the external calls raise nothing but [Exception]s. The sites
    differ in what they print. The outbound adapter's read returns [None]
    in silence for a missing file, for an empty file and for text that is
    not JSON; it prints a line only for other errors, such as bytes that
    are not UTF-8. The driver's [update_inputs] is silent for a missing
    file only: an empty file, any other text that is not JSON and bytes
    that are not UTF-8 each make it print one line with the error, and it
    then calls [psm.set_var] not once and leaves the controller as it
    was. *)
Theorem slot_reads_without_data (path : string) (w : world) :
  (* the outbound adapter *)
  (fs w !! path = None ->
   OutputBridge.read_json_if_ready path w = (Ok JNull, w)) /\
  (quiet w -> fs w !! path = Some [] ->
   exists w', OutputBridge.read_json_if_ready path w = (Ok JNull, w') /\
              stdout w' = stdout w) /\
  (forall data text,
      quiet w -> fs w !! path = Some data -> data <> [] ->
      utf8_decode data = Some text -> loads text = None ->
      exists w', OutputBridge.read_json_if_ready path w = (Ok JNull, w') /\
                 stdout w' = stdout w) /\
  (forall data,
      quiet w -> fs w !! path = Some data -> data <> [] ->
      utf8_decode data = None ->
      exists w', OutputBridge.read_json_if_ready path w = (Ok JNull, w') /\
                 stdout w' = stdout w ++ [OutErrorReading path UnicodeDecodeError]) /\
  (only_errors w ->
   exists v w', OutputBridge.read_json_if_ready path w = (Ok v, w')) /\
  (* the scan driver *)
  (fs w !! PSM.INPUT_PATH = None -> PSM.update_inputs w = (Ok tt, w)) /\
  (forall data text,
      quiet w -> fs w !! PSM.INPUT_PATH = Some data ->
      utf8_decode data = Some text -> loads text = None ->
      exists w', PSM.update_inputs w = (Ok tt, w') /\
                 stdout w' = stdout w ++ [PsmErrorInUpdateInputs JSONDecodeError] /\
                 set_var_calls (trace w') = set_var_calls (trace w) /\
                 controller w' = controller w) /\
  (quiet w -> fs w !! PSM.INPUT_PATH = Some [] ->
   exists w', PSM.update_inputs w = (Ok tt, w') /\
              stdout w' = stdout w ++ [PsmErrorInUpdateInputs JSONDecodeError] /\
              set_var_calls (trace w') = set_var_calls (trace w) /\
              controller w' = controller w) /\
  (forall data,
      quiet w -> fs w !! PSM.INPUT_PATH = Some data ->
      utf8_decode data = None ->
      exists w', PSM.update_inputs w = (Ok tt, w') /\
                 stdout w' = stdout w ++ [PsmErrorInUpdateInputs UnicodeDecodeError] /\
                 set_var_calls (trace w') = set_var_calls (trace w) /\
                 controller w' = controller w) /\
  (only_errors w -> exists w', PSM.update_inputs w = (Ok tt, w')).
Proof.
  assert (Hbad : forall data text,
             quiet w -> fs w !! PSM.INPUT_PATH = Some data ->
             utf8_decode data = Some text -> loads text = None ->
             exists w', PSM.update_inputs w = (Ok tt, w') /\
                        stdout w' = stdout w ++ [PsmErrorInUpdateInputs JSONDecodeError] /\
                        set_var_calls (trace w') = set_var_calls (trace w) /\
                        controller w' = controller w).
  { intros data text Hq Hfs Hdec Hload.
    erewrite update_inputs_malformed by eassumption.
    eexists. split; [reflexivity|]. cbn [stdout trace controller tick emit].
    rewrite set_var_calls_app. cbn. rewrite app_nil_r. repeat split. }
  split; [apply read_missing|]. split; [|split; [|split; [|split]]].
  - intros Hq Hfs. rewrite read_empty by assumption. eexists.
    split; reflexivity.
  - intros data text Hq Hfs Hne Hdec Hload.
    erewrite read_malformed by eassumption. eexists. split; reflexivity.
  - intros data Hq Hfs Hne Hdec.
    erewrite read_undecodable by eassumption.
    eexists. split; reflexivity.
  - intros Hw. destruct (read_json_if_ready_returns path w Hw) as (v & w' & Hr & _).
    eauto.
  - split; [apply update_inputs_absent|]. split; [exact Hbad|].
    split; [|split].
    + intros Hq Hfs. apply (Hbad [] []); auto.
    + intros data Hq Hfs Hdec.
      erewrite update_inputs_undecodable by eassumption.
      eexists. split; [reflexivity|]. cbn [stdout trace controller tick emit].
      rewrite set_var_calls_app. cbn. rewrite app_nil_r. repeat split.
    + intros Hw. destruct (update_inputs_returns w Hw) as ([] & w' & Hr & _).
      eauto.
Qed.

End AbsentSlots.

(* ===================================================================== *)
(** ** The canonical text of an object *)
(* ===================================================================== *)

Section KeyOrder.

Lemma pystr_ltb_irrefl a : pystr_ltb a a = false.
Proof.
  induction a as [|x a IH]; [reflexivity|]. cbn [pystr_ltb].
  rewrite N.ltb_irrefl, N.eqb_refl, IH. reflexivity.
Qed.

Lemma pystr_ltb_trans a b c :
  pystr_ltb a b = true -> pystr_ltb b c = true -> pystr_ltb a c = true.
Proof.
  revert b c; induction a as [|x a IH]; intros [|y b] [|z c]; cbn [pystr_ltb];
    try congruence.
  intros Hab Hbc.
  apply orb_true_iff in Hab as [Hxy%N.ltb_lt|[Hxy%N.eqb_eq Hab]%andb_true_iff];
  apply orb_true_iff in Hbc as [Hyz%N.ltb_lt|[Hyz%N.eqb_eq Hbc]%andb_true_iff];
  apply orb_true_iff.
  - left. apply N.ltb_lt. lia.
  - left. apply N.ltb_lt. lia.
  - left. apply N.ltb_lt. lia.
  - right. apply andb_true_iff. split; [apply N.eqb_eq; congruence|].
    eapply IH; eassumption.
Qed.

(** Two strings are equal or one is below the other. *)
Lemma pystr_ltb_total a b :
  pystr_ltb b a = false -> a = b \/ pystr_ltb a b = true.
Proof.
  revert b; induction a as [|x a IH]; intros [|y b]; cbn [pystr_ltb];
    [auto|auto|discriminate|].
  intros Hba.
  - apply orb_false_iff in Hba as [Hyx%N.ltb_ge Hba].
    destruct (N.eqb_spec y x) as [->|Hne].
    + cbn [andb] in Hba. destruct (IH b Hba) as [->|Hab]; [left; reflexivity|].
      right. rewrite N.eqb_refl, Hab. apply orb_true_r.
    + right. apply orb_true_iff. left. apply N.ltb_lt. lia.
Qed.

Lemma pystr_leb_antisym a b :
  pystr_leb a b = true -> pystr_leb b a = true -> a = b.
Proof.
  unfold pystr_leb. rewrite !negb_true_iff. intros Hba Hab.
  destruct (pystr_ltb_total a b Hba) as [?|Hlt]; [assumption|congruence].
Qed.

Lemma pystr_leb_trans a b c :
  pystr_leb a b = true -> pystr_leb b c = true -> pystr_leb a c = true.
Proof.
  unfold pystr_leb. rewrite !negb_true_iff. intros Hba Hcb.
  destruct (pystr_ltb c a) eqn:Hca; [|reflexivity].
  destruct (pystr_ltb_total a b Hba) as [->|Hab]; [congruence|].
  rewrite (pystr_ltb_trans c a b Hca Hab) in Hcb. discriminate.
Qed.

Lemma pystr_leb_total a b : pystr_leb a b = false -> pystr_leb b a = true.
Proof.
  unfold pystr_leb. rewrite negb_false_iff, negb_true_iff. intros Hba.
  destruct (pystr_ltb a b) eqn:Hab; [|reflexivity].
  pose proof (pystr_ltb_trans a b a Hab Hba) as Haa.
  rewrite pystr_ltb_irrefl in Haa. discriminate.
Qed.

#[local] Instance key_le_trans {A} : Transitive (@key_le A).
Proof. intros a b c. unfold key_le. apply pystr_leb_trans. Qed.

Lemma insert_item_perm {A} (kv : pystr * A) l : insert_item kv l ≡ₚ kv :: l.
Proof.
  induction l as [|kv' l IH]; cbn [insert_item]; [reflexivity|].
  destruct (pystr_leb _ _); [reflexivity|].
  rewrite IH. apply Permutation_swap.
Qed.

Lemma sorted_items_perm {A} (l : list (pystr * A)) : sorted_items l ≡ₚ l.
Proof.
  induction l as [|kv l IH]; [reflexivity|].
  cbn [sorted_items fold_right]. rewrite insert_item_perm.
  constructor. exact IH.
Qed.

Lemma insert_item_sorted {A} (kv : pystr * A) l :
  StronglySorted key_le l -> StronglySorted key_le (insert_item kv l).
Proof.
  induction 1 as [|kv' l Hl IH Hall]; cbn [insert_item].
  - repeat constructor.
  - destruct (pystr_leb (fst kv) (fst kv')) eqn:Hle.
    + constructor; [constructor; assumption|]. constructor; [exact Hle|].
      eapply Forall_impl; [exact Hall|]. intros x Hx.
      unfold key_le in *. eapply pystr_leb_trans; eassumption.
    + constructor; [exact IH|].
      rewrite (insert_item_perm kv l). constructor; [|exact Hall].
      apply pystr_leb_total, Hle.
Qed.

Lemma sorted_items_sorted {A} (l : list (pystr * A)) :
  StronglySorted key_le (sorted_items l).
Proof.
  induction l as [|kv l IH]; [constructor|].
  cbn [sorted_items fold_right]. apply insert_item_sorted, IH.
Qed.

(** The sorted list of the items of a dict does not depend on the order
    in which the items were inserted. *)
Lemma sorted_items_canonical {A} (l1 l2 : list (pystr * A)) :
  NoDup (keys l1) -> l1 ≡ₚ l2 -> sorted_items l1 = sorted_items l2.
Proof.
  intros Hnd Hperm.
  apply (StronglySorted_unique_strong key_le);
    [|apply sorted_items_sorted..|].
  - intros [k1 v1] [k2 v2] H1 H2 Hle1 Hle2. unfold key_le in *. cbn [fst] in *.
    assert (k1 = k2) as <- by (apply pystr_leb_antisym; assumption).
    f_equal.
    rewrite sorted_items_perm in H1. rewrite sorted_items_perm, <- Hperm in H2.
    clear -Hnd H1 H2. induction l1 as [|[k v] l IH]; [inversion H1|].
    cbn [keys List.map fst] in Hnd. apply NoDup_cons in Hnd as [Hk Hnd].
    apply elem_of_cons in H1 as [[= -> ->]|H1], H2 as [[= ->]|H2]; try reflexivity.
    + exfalso. apply Hk. apply list_elem_of_fmap. exists (k, v2). auto.
    + subst. exfalso. apply Hk. apply list_elem_of_fmap. exists (k, v1). auto.
    + apply IH; assumption.
  - rewrite !sorted_items_perm. exact Hperm.
Qed.

Lemma insert_item_map {A B} (f : A -> B) kv l :
  insert_item (fst kv, f (snd kv)) (List.map (fun kv => (fst kv, f (snd kv))) l)
  = List.map (fun kv => (fst kv, f (snd kv))) (insert_item kv l).
Proof.
  induction l as [|kv' l IH]; cbn [insert_item List.map fst]; [reflexivity|].
  destruct (pystr_leb (fst kv) (fst kv')); cbn [List.map]; [reflexivity|].
  rewrite IH. reflexivity.
Qed.

Lemma sorted_items_map {A B} (f : A -> B) (l : list (pystr * A)) :
  sorted_items (List.map (fun kv => (fst kv, f (snd kv))) l)
  = List.map (fun kv => (fst kv, f (snd kv))) (sorted_items l).
Proof.
  induction l as [|kv l IH]; [reflexivity|].
  change (sorted_items (List.map (fun kv => (fst kv, f (snd kv))) (kv :: l)))
    with (insert_item (fst kv, f (snd kv))
            (sorted_items (List.map (fun kv => (fst kv, f (snd kv))) l))).
  rewrite IH. apply insert_item_map.
Qed.

(** With distinct keys the sorted items are strictly increasing. *)
Lemma sorted_items_strict {A} (l : list (pystr * A)) :
  NoDup (keys l) -> StronglySorted key_lt (sorted_items l).
Proof.
  intros Hnd.
  assert (Hnd' : NoDup (keys (sorted_items l))).
  { unfold keys. change (List.map fst) with (fmap (M:=list) (@fst pystr A)).
    rewrite sorted_items_perm. exact Hnd. }
  pose proof (sorted_items_sorted l) as Hs.
  induction Hs as [|kv l' Hl IH Hall]; [constructor|].
  cbn [keys List.map] in Hnd'. apply NoDup_cons in Hnd' as [Hk Hnd'].
  constructor; [apply IH, Hnd'|].
  apply Forall_forall. intros kv' Hin.
  rewrite Forall_forall in Hall. specialize (Hall kv' Hin).
  unfold key_le, key_lt, pystr_leb in *. apply negb_true_iff in Hall.
  destruct (pystr_ltb_total (fst kv) (fst kv') Hall) as [Heq|Hlt]; [|exact Hlt].
  exfalso. apply Hk. rewrite Heq. apply list_elem_of_fmap. eauto.
Qed.

End KeyOrder.

Section Canonical.
Context `{PyFloat}.

Lemma dumps_object entries :
  dumps (JObj entries)
  = 123 :: join [comma] (List.map item_text (sorted_items entries)) ++ [125].
Proof.
  cbn [dumps]. rewrite (sorted_items_map dumps entries), List.map_map.
  reflexivity.
Qed.

Lemma dumps_insertion_order entries entries' :
  NoDup (keys entries) -> entries ≡ₚ entries' ->
  dumps (JObj entries) = dumps (JObj entries').
Proof.
  intros Hnd Hperm. rewrite !dumps_object.
  rewrite (sorted_items_canonical entries entries' Hnd Hperm). reflexivity.
Qed.

End Canonical.

(* ===================================================================== *)
(** ** The State Store write (C1) *)
(* ===================================================================== *)

Section StoreWrite.
Context `{PyFloat} `{!Psm}.

Lemma tmp_apart_slots w :
  tmp_apart (PSM.directory_of PSM.INPUT_PATH) PSM.INPUT_PATH w /\
  tmp_apart (PSM.directory_of PSM.OUTPUT_PATH) PSM.OUTPUT_PATH w.
Proof. split; intros n; cbn; intros [=]. Qed.

(** C1. The write of a slot, [_atomic_write_json] in the driver and
    [atomically_write_json] in the inbound adapter (the same program).

    The text written is canonical: an object is [{], its items separated by
    single commas, [}]; an item is the key, a single colon, the value; the
    items are those of the dict ordered by key, strictly increasing; so two
    dicts with the same items in different insertion orders give the same
    text.

    The run, when no call raises: a temporary file is created in the
    directory of the target, the whole text is written to it, it is
    flushed, then synced, then closed, and only then renamed onto the
    target, which from then on holds exactly the text.

    The run, under any fault plan, provided no temporary name is the target
    path (which is so for both slot paths): the only files written into are
    other than the target; if the run returns the target holds the whole
    text, and if it raises the target is what it was before. *)
Theorem store_write_is_canonical_and_atomic
    (path : string) (obj : json) (w : world) :
  InputBridge.atomically_write_json path obj = PSM._atomic_write_json path obj /\
  (forall entries,
      dumps (JObj entries)
      = 123 :: join [comma] (List.map item_text (sorted_items entries)) ++ [125] /\
      sorted_items entries ≡ₚ entries /\
      (NoDup (keys entries) -> StronglySorted key_lt (sorted_items entries))) /\
  (forall entries entries',
      NoDup (keys entries) -> entries ≡ₚ entries' ->
      dumps (JObj entries) = dumps (JObj entries')) /\
  (quiet w -> fresh_tmp (PSM.directory_of path) w ->
   exists w',
     PSM._atomic_write_json path obj w = (Ok tt, w') /\
     trace w' =
       trace w ++
       [ EvMkstemp (PSM.directory_of path) (tmp_of (PSM.directory_of path) w);
         EvWrite (tmp_of (PSM.directory_of path) w) (dumps obj);
         EvFlush (tmp_of (PSM.directory_of path) w);
         EvFsync (tmp_of (PSM.directory_of path) w);
         EvClose (tmp_of (PSM.directory_of path) w);
         EvReplace (tmp_of (PSM.directory_of path) w) path ] /\
     fs w' = <[path := dumps obj]> (fs w)) /\
  (tmp_apart (PSM.directory_of path) path w ->
   forall r w',
     PSM._atomic_write_json path obj w = (r, w') ->
     (exists t, trace w' = trace w ++ t /\
                Forall (fun f => f <> path) (written_files t)) /\
     match r with
     | Ok _ => fs w' !! path = Some (dumps obj)
     | Raise _ => fs w' !! path = fs w !! path
     end) /\
  (tmp_apart (PSM.directory_of PSM.INPUT_PATH) PSM.INPUT_PATH w /\
   tmp_apart (PSM.directory_of PSM.OUTPUT_PATH) PSM.OUTPUT_PATH w).
Proof.
  split; [reflexivity|]. split; [|split; [|split; [|split]]].
  - intros entries. split; [apply dumps_object|].
    split; [apply sorted_items_perm|apply sorted_items_strict].
  - apply dumps_insertion_order.
  - intros Hq Hfresh.
    destruct (atomic_write_quiet path obj (dumps obj) w Hq Hfresh
                (utf8_encode_dumps obj))
      as (w' & Hrun & Hfs & Htr & _). eauto.
  - intros Hapart r w' Hrun.
    destruct (atomic_write_any path obj w r w' Hapart Hrun) as [Htr Hres].
    split; [exact Htr|]. destruct r as [[]|e]; [|exact Hres].
    destruct Hres as (data & Henc & Hfs).
    rewrite utf8_encode_dumps in Henc. congruence.
  - apply tmp_apart_slots.
Qed.

End StoreWrite.

(* ===================================================================== *)
(** ** Reading back what the encoder wrote: strings *)
(* ===================================================================== *)

Ltac Zify.zify_post_hook ::= Z.to_euclidean_division_equations.

Section StringRoundTrip.

Lemma lor_shifted a b n : b < 2 ^ n -> N.lor (a * 2 ^ n) b = a * 2 ^ n + b.
Proof.
  intros Hb.
  rewrite <- N.lxor_lor, <- N.add_nocarry_lxor; try reflexivity.
  all: apply N.bits_inj; intros i; rewrite N.land_spec, N.bits_0.
  all: destruct (N.lt_ge_cases i n) as [Hi|Hi].
  all: rewrite ?(N.mul_pow2_bits_low _ _ _ Hi); try reflexivity.
  all: replace (N.testbit b i) with false; [apply andb_false_r|].
  all: symmetry; destruct (N.eq_dec b 0) as [->|Hb0]; [apply N.bits_0|].
  all: apply N.bits_above_log2; apply N.log2_lt_pow2; [lia|].
  all: eapply N.lt_le_trans; [exact Hb|]; apply N.pow_le_mono_r; lia.
Qed.

Lemma hexval_hexdigit d : d < 16 -> hexval (hexdigit d) = Some d.
Proof.
  intros Hd. unfold hexdigit, hexval, is_digit.
  destruct (N.ltb_spec d 10).
  - replace ((48 <=? 48 + d) && (48 + d <=? 57)) with true.
    + f_equal. lia.
    + symmetry. apply andb_true_iff. split; apply N.leb_le; lia.
  - replace ((48 <=? 87 + d) && (87 + d <=? 57)) with false.
    + replace ((97 <=? 87 + d) && (87 + d <=? 102)) with true.
      * f_equal. lia.
      * symmetry. apply andb_true_iff. split; apply N.leb_le; lia.
    + symmetry. apply andb_false_iff. right. apply N.leb_gt. lia.
Qed.

Lemma hex4val_hex4 x :
  x < 65536 ->
  hex4val (hexdigit (N.shiftr x 12 mod 16)) (hexdigit (N.shiftr x 8 mod 16))
          (hexdigit (N.shiftr x 4 mod 16)) (hexdigit (x mod 16)) = Some x.
Proof.
  intros Hx. unfold hex4val.
  rewrite !hexval_hexdigit by (apply N.mod_lt; discriminate).
  f_equal. rewrite !N.shiftr_div_pow2.
  change (2 ^ 12) with 4096. change (2 ^ 8) with 256. change (2 ^ 4) with 16.
  lia.
Qed.

Lemma scanstring_u_escape x r :
  x < 65536 -> (is_high_surrogate x = true -> no_low_escape r) ->
  scanstring (u_escape x ++ r) = prepend x (scanstring r).
Proof.
  intros Hx Hr. unfold u_escape, hex4. cbn [app scanstring].
  change (backslash =? quote) with false. change (backslash =? backslash) with true.
  change (117 =? 117) with true. cbn match.
  rewrite hex4val_hex4 by exact Hx.
  destruct (is_high_surrogate x); [|reflexivity].
  specialize (Hr eq_refl). unfold no_low_escape in Hr.
  destruct r as [|b1 [|u1 [|h1 [|h2 [|h3 [|h4 r3]]]]]]; try reflexivity.
  destruct ((b1 =? backslash) && (u1 =? 117)); [|reflexivity].
  destruct (Hr eq_refl) as (uni2 & -> & ->). reflexivity.
Qed.

(** The step over a surrogate pair. *)
Lemma scanstring_pair c r :
  65536 <= c -> c < 1114112 ->
  scanstring (escape_char c ++ r) = prepend c (scanstring r).
Proof.
  intros Hlo Hhi. unfold escape_char.
  replace (c =? quote) with false by (symmetry; apply N.eqb_neq; unfold quote; lia).
  replace (c =? backslash) with false
    by (symmetry; apply N.eqb_neq; unfold backslash; lia).
  replace ((32 <=? c) && (c <=? 126)) with false
    by (symmetry; apply andb_false_iff; right; apply N.leb_gt; lia).
  replace (c =? 8) with false by (symmetry; apply N.eqb_neq; lia).
  replace (c =? 12) with false by (symmetry; apply N.eqb_neq; lia).
  replace (c =? 10) with false by (symmetry; apply N.eqb_neq; lia).
  replace (c =? 13) with false by (symmetry; apply N.eqb_neq; lia).
  replace (c =? 9) with false by (symmetry; apply N.eqb_neq; lia).
  replace (c <? 65536) with false by (symmetry; apply N.ltb_ge; lia).
  cbv zeta. set (n := c - 65536).
  assert (Hn : n < 1048576) by (subst n; lia).
  rewrite N.shiftr_div_pow2. change (2 ^ 10) with 1024.
  change 1023 with (N.ones 10). rewrite !N.land_ones. change (2 ^ 10) with 1024.
  change 55296 with (54 * 2 ^ 10). change 56320 with (55 * 2 ^ 10).
  rewrite !lor_shifted by (apply N.mod_lt; discriminate).
  change (2 ^ 10) with 1024.
  set (s1 := 54 * 1024 + n / 1024 mod 1024).
  set (s2 := 55 * 1024 + n mod 1024).
  assert (Hs1 : 55296 <= s1 <= 56319) by (subst s1; lia).
  assert (Hs2 : 56320 <= s2 <= 57343) by (subst s2; lia).
  rewrite <- app_assoc. unfold u_escape at 1, hex4. cbn [app scanstring].
  change (backslash =? quote) with false. change (backslash =? backslash) with true.
  change (117 =? 117) with true. cbn match.
  rewrite hex4val_hex4 by lia.
  replace (is_high_surrogate s1) with true
    by (symmetry; apply andb_true_iff; split; apply N.leb_le; lia).
  unfold u_escape, hex4. cbn [app].
  change (backslash =? backslash) with true. change (117 =? 117) with true.
  cbn [andb]. rewrite hex4val_hex4 by lia.
  replace (is_low_surrogate s2) with true
    by (symmetry; apply andb_true_iff; split; apply N.leb_le; lia).
  f_equal.
  replace (s1 - 55296) with (n / 1024) by (subst s1; lia).
  replace (s2 - 56320) with (n mod 1024) by (subst s2; lia).
  rewrite N.shiftl_mul_pow2. rewrite lor_shifted by (apply N.mod_lt; discriminate).
  change (2 ^ 10) with 1024. subst n. lia.
Qed.

Lemma is_low_not_high x : is_high_surrogate x = true -> is_low_surrogate x = false.
Proof.
  unfold is_high_surrogate, is_low_surrogate.
  intros [_ H%N.leb_le]%andb_true_iff. apply andb_false_iff. left.
  apply N.leb_gt. lia.
Qed.

(** What follows a character in the encoded text never looks like the
    escape of a low surrogate, unless the next character is one. *)
Lemma no_low_escape_next s rest :
  match s with
  | c2 :: _ => c2 < 1114112 /\ is_low_surrogate c2 = false
  | [] => True
  end ->
  no_low_escape (flat_map escape_char s ++ quote :: rest).
Proof.
  destruct s as [|c2 s]; cbn [flat_map app].
  - intros _. unfold no_low_escape.
    destruct rest as [|u1 [|h1 [|h2 [|h3 [|h4 r]]]]]; try exact I.
    cbn. discriminate.
  - intros [Hc2 Hlow]. rewrite <- app_assoc.
    generalize (flat_map escape_char s ++ quote :: rest). intros r.
    unfold escape_char.
    destruct (c2 =? quote); [cbn [app]; unfold no_low_escape;
      destruct r as [|? [|? [|? [|? ?]]]]; try exact I; cbn; discriminate|].
    destruct (c2 =? backslash) eqn:Hbs; [cbn [app]; unfold no_low_escape;
      destruct r as [|? [|? [|? [|? ?]]]]; try exact I; cbn; discriminate|].
    destruct ((32 <=? c2) && (c2 <=? 126)); [cbn [app]; unfold no_low_escape;
      destruct r as [|? [|? [|? [|? [|? ?]]]]]; try exact I;
      rewrite Hbs; cbn; discriminate|].
    destruct (c2 =? 8); [cbn [app]; unfold no_low_escape;
      destruct r as [|? [|? [|? [|? ?]]]]; try exact I; cbn; discriminate|].
    destruct (c2 =? 12); [cbn [app]; unfold no_low_escape;
      destruct r as [|? [|? [|? [|? ?]]]]; try exact I; cbn; discriminate|].
    destruct (c2 =? 10); [cbn [app]; unfold no_low_escape;
      destruct r as [|? [|? [|? [|? ?]]]]; try exact I; cbn; discriminate|].
    destruct (c2 =? 13); [cbn [app]; unfold no_low_escape;
      destruct r as [|? [|? [|? [|? ?]]]]; try exact I; cbn; discriminate|].
    destruct (c2 =? 9); [cbn [app]; unfold no_low_escape;
      destruct r as [|? [|? [|? [|? ?]]]]; try exact I; cbn; discriminate|].
    destruct (N.ltb_spec c2 65536) as [Hbmp|Hastral].
    + unfold u_escape, hex4. cbn [app]. unfold no_low_escape. intros _.
      exists c2. split; [apply hex4val_hex4, Hbmp|exact Hlow].
    + cbv zeta. set (n := c2 - 65536). rewrite <- app_assoc.
      unfold u_escape at 1, hex4. cbn [app]. unfold no_low_escape. intros _.
      eexists. split.
      * apply hex4val_hex4.
        rewrite N.shiftr_div_pow2. change (2 ^ 10) with 1024.
        change 1023 with (N.ones 10). rewrite N.land_ones. change (2 ^ 10) with 1024.
        change 55296 with (54 * 2 ^ 10).
        rewrite lor_shifted by (apply N.mod_lt; discriminate).
        change (2 ^ 10) with 1024. lia.
      * apply is_low_not_high.
        rewrite N.shiftr_div_pow2. change (2 ^ 10) with 1024.
        change 1023 with (N.ones 10). rewrite N.land_ones. change (2 ^ 10) with 1024.
        change 55296 with (54 * 2 ^ 10).
        rewrite lor_shifted by (apply N.mod_lt; discriminate).
        change (2 ^ 10) with 1024.
        apply andb_true_iff. split; apply N.leb_le; lia.
Qed.

Lemma scanstring_step c r :
  c < 1114112 -> (is_high_surrogate c = true -> no_low_escape r) ->
  scanstring (escape_char c ++ r) = prepend c (scanstring r).
Proof.
  intros Hc Hr.
  destruct (N.ltb_spec c 65536) as [Hbmp|Hastral];
    [|apply scanstring_pair; assumption].
  unfold escape_char.
  destruct (N.eqb_spec c quote) as [->|Hq]; [reflexivity|].
  destruct (N.eqb_spec c backslash) as [->|Hb]; [reflexivity|].
  destruct ((32 <=? c) && (c <=? 126)) eqn:Hprint.
  { cbn [app scanstring].
    apply N.eqb_neq in Hq, Hb. rewrite Hq, Hb.
    apply andb_true_iff in Hprint as [Hlo%N.leb_le _].
    replace (c <? 32) with false by (symmetry; apply N.ltb_ge; exact Hlo).
    reflexivity. }
  destruct (N.eqb_spec c 8) as [->|?]; [reflexivity|].
  destruct (N.eqb_spec c 12) as [->|?]; [reflexivity|].
  destruct (N.eqb_spec c 10) as [->|?]; [reflexivity|].
  destruct (N.eqb_spec c 13) as [->|?]; [reflexivity|].
  destruct (N.eqb_spec c 9) as [->|?]; [reflexivity|].
  apply N.ltb_lt in Hbmp. rewrite Hbmp. apply N.ltb_lt in Hbmp.
  apply scanstring_u_escape; assumption.
Qed.

Lemma str_okb_cons c s :
  str_okb (c :: s) = true ->
  c < 1114112 /\
  (is_high_surrogate c = true ->
   match s with
   | c2 :: _ => c2 < 1114112 /\ is_low_surrogate c2 = false
   | [] => True
   end) /\
  str_okb s = true.
Proof.
  cbn [str_okb]. intros [[Hc Hpair]%andb_true_iff Hs]%andb_true_iff.
  apply N.ltb_lt in Hc. repeat split; try assumption.
  intros Hhigh. rewrite Hhigh in Hpair. destruct s as [|c2 s]; [exact I|].
  apply negb_true_iff in Hpair. split; [|exact Hpair].
  cbn [str_okb] in Hs. apply andb_true_iff in Hs as [[H2 _]%andb_true_iff _].
  apply N.ltb_lt. exact H2.
Qed.

(** [scanstring] reads back the characters that
    [py_encode_basestring_ascii] wrote. *)
Lemma scanstring_escaped s rest :
  str_okb s = true ->
  scanstring (flat_map escape_char s ++ quote :: rest) = Some (s, rest).
Proof.
  induction s as [|c s IH]; intros Hok; [reflexivity|].
  apply str_okb_cons in Hok as (Hc & Hpair & Hs).
  cbn [flat_map]. rewrite <- app_assoc.
  rewrite scanstring_step; [rewrite IH by exact Hs; reflexivity|exact Hc|].
  intros Hhigh. apply no_low_escape_next, Hpair, Hhigh.
Qed.

End StringRoundTrip.

(* ===================================================================== *)
(** ** Reading back what the encoder wrote: integers *)
(* ===================================================================== *)

Section IntRoundTrip.
Context `{PyFloat}.

Lemma delimited_head rest :
  delimited rest ->
  match rest with
  | c :: _ => is_digit c = false /\ c <> 46 /\ c <> 101 /\ c <> 69 /\
              is_ws c = false
  | [] => True
  end.
Proof.
  destruct rest as [|c rest]; [trivial|]. cbn [delimited].
  intros [-> | [-> | ->]]; repeat split; discriminate.
Qed.

Lemma uint_of_chars_of_uint d : uint_of_chars (chars_of_uint d) = d.
Proof.
  induction d as [| d IHd | d IHd | d IHd | d IHd | d IHd | d IHd | d IHd | d IHd | d IHd | d IHd];
    cbn [chars_of_uint uint_of_chars]; [reflexivity|..]; rewrite IHd; reflexivity.
Qed.

Lemma scan_digits_chars d rest :
  match rest with c :: _ => is_digit c = false | [] => True end ->
  scan_digits (chars_of_uint d ++ rest) = (chars_of_uint d, rest).
Proof.
  intros Hrest. induction d as [| d IHd | d IHd | d IHd | d IHd | d IHd | d IHd | d IHd | d IHd | d IHd | d IHd];
    cbn [chars_of_uint app scan_digits]; try (rewrite IHd; reflexivity).
  destruct rest as [|c rest]; [reflexivity|]. cbn [scan_digits].
  rewrite Hrest. reflexivity.
Qed.

Lemma nzhead_no_zero u u' : Decimal.nzhead u <> Decimal.D0 u'.
Proof.
  induction u as [| u IHu | u | u | u | u | u | u | u | u | u];
    cbn [Decimal.nzhead]; congruence.
Qed.

(** The decimal digits of a positive number: at least one, and the first is
    not zero. *)
Lemma to_uint_head p :
  match Pos.to_uint p with
  | Decimal.Nil | Decimal.D0 _ => False
  | _ => True
  end.
Proof.
  pose proof (DecimalPos.Unsigned.to_of (Pos.to_uint p)) as Hnorm.
  rewrite DecimalPos.Unsigned.of_to in Hnorm. cbn [N.to_uint] in Hnorm.
  pose proof (DecimalPos.Unsigned.to_uint_nonnil p) as Hnil.
  pose proof (DecimalPos.Unsigned.to_uint_nonzero p) as Hzero.
  destruct (Pos.to_uint p) as [|u|u|u|u|u|u|u|u|u|u]; try exact I.
  - apply Hnil. reflexivity.
  - rewrite DecimalFacts.unorm_D0 in Hnorm. unfold Decimal.unorm in Hnorm.
    destruct (Decimal.nzhead u) eqn:Hu; try discriminate.
    + apply Hzero. exact Hnorm.
    + exact (nzhead_no_zero _ _ Hu).
Qed.

Lemma scan_frac_delimited rest : delimited rest -> scan_frac rest = ([], rest).
Proof.
  intros Hd. apply delimited_head in Hd. destruct rest as [|c rest]; [reflexivity|].
  destruct Hd as (_ & Hdot & _). cbn [scan_frac].
  apply N.eqb_neq in Hdot. rewrite Hdot. reflexivity.
Qed.

Lemma scan_exp_delimited rest : delimited rest -> scan_exp rest = ([], rest).
Proof.
  intros Hd. apply delimited_head in Hd. destruct rest as [|c rest]; [reflexivity|].
  destruct Hd as (_ & _ & He & HE & _). cbn [scan_exp].
  apply N.eqb_neq in He, HE. rewrite He, HE. reflexivity.
Qed.

(** The digits of a positive number, as the lexer sees them. *)
Lemma scan_int_part_pos p rest :
  delimited rest ->
  exists c ds,
    chars_of_uint (Pos.to_uint p) = c :: ds /\
    is_digit c = true /\ c <> 48 /\
    scan_int_part (chars_of_uint (Pos.to_uint p) ++ rest)
      = Some (chars_of_uint (Pos.to_uint p), rest).
Proof.
  intros Hd. apply delimited_head in Hd.
  assert (Hrest : match rest with c :: _ => is_digit c = false | [] => True end).
  { destruct rest; [exact I|]. apply Hd. }
  pose proof (to_uint_head p) as Hhead.
  pose proof (scan_digits_chars (Pos.to_uint p) rest Hrest) as Hscan.
  destruct (Pos.to_uint p) as [|u|u|u|u|u|u|u|u|u|u]; try contradiction;
    cbn [chars_of_uint app] in *; eexists _, _;
    (split; [reflexivity|]); (split; [reflexivity|]); (split; [discriminate|]);
    unfold scan_int_part; cbn [N.eqb Pos.eqb is_digit N.leb N.compare Pos.compare
                                Pos.compare_cont andb];
    rewrite Hscan; reflexivity.
Qed.

Lemma int_of_str_pos p :
  int_of_str (chars_of_uint (Pos.to_uint p)) = Zpos p.
Proof.
  pose proof (to_uint_head p) as Hhead. unfold int_of_str.
  assert (Hval : Z.of_uint (uint_of_chars (chars_of_uint (Pos.to_uint p))) = Zpos p).
  { rewrite uint_of_chars_of_uint. unfold Z.of_uint.
    rewrite DecimalPos.Unsigned.of_to. reflexivity. }
  destruct (Pos.to_uint p); try contradiction; cbn [chars_of_uint] in *;
    exact Hval.
Qed.

Lemma int_of_str_neg p :
  int_of_str (45 :: chars_of_uint (Pos.to_uint p)) = Zneg p.
Proof.
  unfold int_of_str. change (45 =? 45)%N with true. cbv iota.
  rewrite uint_of_chars_of_uint. unfold Z.of_uint.
  rewrite DecimalPos.Unsigned.of_to. reflexivity.
Qed.

Lemma match_number_int z rest :
  delimited rest -> match_number (int_repr z ++ rest) = Some (JInt z, rest).
Proof.
  intros Hd. unfold match_number. destruct z as [|p|p]; cbn [int_repr app].
  - unfold scan_sign, scan_int_part.
    change (48 =? 45)%N with false. cbv beta iota zeta.
    change (48 =? 48)%N with true. cbv beta iota zeta.
    rewrite scan_frac_delimited, scan_exp_delimited by exact Hd. reflexivity.
  - destruct (scan_int_part_pos p rest Hd) as (c & ds & Hcs & Hdig & Hnz & Hscan).
    assert (Hsign : scan_sign (chars_of_uint (Pos.to_uint p) ++ rest)
                    = ([], chars_of_uint (Pos.to_uint p) ++ rest)).
    { rewrite Hcs. cbn [app]. unfold scan_sign.
      replace (c =? 45) with false; [reflexivity|].
      symmetry. apply N.eqb_neq. intros ->. discriminate. }
    rewrite Hsign, Hscan.
    rewrite scan_frac_delimited, scan_exp_delimited by exact Hd.
    cbn [app]. rewrite int_of_str_pos. reflexivity.
  - destruct (scan_int_part_pos p rest Hd) as (c & ds & Hcs & Hdig & Hnz & Hscan).
    unfold scan_sign. change (45 =? 45)%N with true. cbv beta iota zeta.
    rewrite Hscan.
    rewrite scan_frac_delimited, scan_exp_delimited by exact Hd.
    cbn [app]. rewrite int_of_str_neg. reflexivity.
Qed.

(** A text that starts with a digit or a minus sign is a number or
    nothing. *)
Lemma scan_once_number fuel c r :
  is_digit c = true \/ c = 45 ->
  scan_once (S fuel) (c :: r) =
  match match_number (c :: r) with
  | Some res => Some res
  | None =>
      if startswith (str "-Infinity") (c :: r)
      then Some (JFloat (float_of_str (str "-Infinity")), skipn 9 (c :: r))
      else None
  end.
Proof.
  intros Hc.
  assert (Hne : forall k, (k <? 45) || (57 <? k) = true -> (c =? k) = false).
  { intros k Hk. apply N.eqb_neq. intros ->.
    destruct Hc as [[H1%N.leb_le H2%N.leb_le]%andb_true_iff| ->].
    - apply orb_true_iff in Hk as [Hk%N.ltb_lt|Hk%N.ltb_lt]; lia.
    - discriminate. }
  cbn [scan_once]. unfold quote.
  rewrite !(Hne 34), !(Hne 123), !(Hne 91) by reflexivity.
  change (str "null") with [110; 117; 108; 108].
  change (str "true") with [116; 114; 117; 101].
  change (str "false") with [102; 97; 108; 115; 101].
  change (str "NaN") with [78; 97; 78].
  change (str "Infinity") with [73; 110; 102; 105; 110; 105; 116; 121].
  cbn [startswith].
  rewrite !(N.eqb_sym _ c).
  rewrite !(Hne 110), !(Hne 116), !(Hne 102), !(Hne 78), !(Hne 73) by reflexivity.
  cbn [andb]. reflexivity.
Qed.

Lemma scan_once_int fuel z rest :
  delimited rest ->
  scan_once (S fuel) (int_repr z ++ rest) = Some (JInt z, rest).
Proof.
  intros Hd.
  assert (Hhead : exists c r, int_repr z ++ rest = c :: r /\
                              (is_digit c = true \/ c = 45)).
  { destruct z as [|p|p]; cbn [int_repr app]; [eauto..| |].
    - destruct (scan_int_part_pos p rest Hd) as (c & ds & -> & Hdig & _).
      cbn [app]. eauto.
    - eauto. }
  destruct Hhead as (c & r & Heq & Hc).
  rewrite Heq, (scan_once_number fuel c r Hc), <- Heq.
  rewrite match_number_int by exact Hd. reflexivity.
Qed.

End IntRoundTrip.

(* ===================================================================== *)
(** ** Reading back what the encoder wrote: values *)
(* ===================================================================== *)

Section ValueRoundTrip.
Context `{PyFloat}.

Lemma json_ok_arr items : json_ok (JArr items) <-> Forall json_ok items.
Proof.
  cbn [json_ok]. induction items as [|x items IH].
  - split; [constructor|trivial].
  - rewrite Forall_cons, <- IH. reflexivity.
Qed.

Lemma json_ok_obj entries :
  json_ok (JObj entries) <->
  NoDup (keys entries) /\
  Forall (fun kv => str_okb (fst kv) = true /\ json_ok (snd kv)) entries.
Proof.
  cbn [json_ok]. apply and_iff_compat_l. induction entries as [|kv entries IH].
  - split; [constructor|trivial].
  - rewrite Forall_cons, <- IH. reflexivity.
Qed.

Lemma starts_value_not c :
  starts_value c = true ->
  is_ws c = false /\ c <> 93 /\ c <> 125 /\ c <> comma /\ c <> colon.
Proof.
  intros Hs.
  assert (Hne : forall k, starts_value k = false -> (c =? k) = false).
  { intros k Hk. apply N.eqb_neq. intros ->. congruence. }
  repeat split; try (intros ->; discriminate Hs).
  unfold is_ws. rewrite !Hne by reflexivity. reflexivity.
Qed.

Lemma skip_ws_value c r : starts_value c = true -> skip_ws (c :: r) = c :: r.
Proof.
  intros Hs. apply starts_value_not in Hs as [Hws _].
  cbn [skip_ws]. rewrite Hws. reflexivity.
Qed.

Lemma scan_once_empty fuel : scan_once fuel [] = None.
Proof. destruct fuel; reflexivity. Qed.

(** A text the scanner accepts starts with one of the characters of
    [starts_value]. *)
Lemma scan_once_head fuel c r res :
  scan_once fuel (c :: r) = Some res -> starts_value c = true.
Proof.
  destruct (starts_value c) eqn:Hs; [reflexivity|]. intros Hscan. exfalso.
  unfold starts_value in Hs. repeat apply orb_false_iff in Hs as [Hs ?].
  destruct fuel as [|fuel]; [discriminate|].
  assert (H48 : (c =? 48) = false).
  { apply N.eqb_neq. intros ->. discriminate. }
  revert Hscan. cbn [scan_once]. rewrite Hs.
  repeat match goal with
         | Heq : (c =? _) = false |- _ => rewrite Heq; clear Heq
         end.
  change (str "null") with [110; 117; 108; 108].
  change (str "true") with [116; 114; 117; 101].
  change (str "false") with [102; 97; 108; 115; 101].
  change (str "NaN") with [78; 97; 78].
  change (str "Infinity") with [73; 110; 102; 105; 110; 105; 116; 121].
  change (str "-Infinity") with [45; 73; 110; 102; 105; 110; 105; 116; 121].
  cbn [startswith]. rewrite !(N.eqb_sym _ c).
  unfold match_number, scan_sign, scan_int_part.
  repeat match goal with
         | Heq : (c =? _) = false |- _ => rewrite Heq
         | Heq : is_digit c = false |- _ => rewrite Heq
         end.
  cbv beta iota zeta.
  repeat match goal with
         | Heq : (c =? _) = false |- _ => rewrite Heq
         | Heq : is_digit c = false |- _ => rewrite Heq
         end.
  cbn [andb]. discriminate.
Qed.

Lemma int_repr_head z :
  exists c t, int_repr z = c :: t /\ starts_value c = true.
Proof.
  destruct z as [|p|p]; cbn [int_repr]; [eexists _, _; split; reflexivity| |].
  - destruct (scan_int_part_pos p [] I) as (c & ds & -> & Hdig & _).
    exists c, ds. split; [reflexivity|]. unfold starts_value. rewrite Hdig.
    rewrite !orb_true_r. reflexivity.
  - eexists _, _. split; reflexivity.
Qed.

(** The text of a value is not empty and starts as a value does. *)
Lemma dumps_head v :
  json_ok v -> exists c t, dumps v = c :: t /\ starts_value c = true.
Proof.
  destruct v as [| [] | z | f | s | items | entries]; intros Hok; cbn [dumps].
  - eexists _, _. split; reflexivity.
  - eexists _, _. split; reflexivity.
  - eexists _, _. split; reflexivity.
  - apply int_repr_head.
  - destruct Hok as [_ Hread]. specialize (Hread 0%nat [] I).
    rewrite app_nil_r in Hread. destruct (floatstr f) as [|c t].
    + discriminate.
    + exists c, t. split; [reflexivity|]. eapply scan_once_head, Hread.
  - eexists _, _. split; reflexivity.
  - eexists _, _. split; reflexivity.
  - eexists _, _. split; reflexivity.
Qed.

Lemma skip_ws_dumps v rest :
  json_ok v -> skip_ws (dumps v ++ rest) = dumps v ++ rest.
Proof.
  intros Hok. destruct (dumps_head v Hok) as (c & t & -> & Hs).
  cbn [app]. apply skip_ws_value, Hs.
Qed.

Lemma join_cons2 sep (p q : pystr) ps :
  join sep (p :: q :: ps) = p ++ sep ++ join sep (q :: ps).
Proof. reflexivity. Qed.

Lemma skip_ws_join x xs rest :
  json_ok x ->
  skip_ws (join [comma] (List.map dumps (x :: xs)) ++ rest)
  = join [comma] (List.map dumps (x :: xs)) ++ rest.
Proof.
  intros Hok. destruct xs as [|y ys]; cbn [List.map].
  - apply skip_ws_dumps, Hok.
  - rewrite join_cons2, <- app_assoc. apply skip_ws_dumps, Hok.
Qed.

(** The items of a non-empty array. *)
Lemma array_items_ok xs : forall x fuel rest,
  Forall reads_back (x :: xs) -> Forall json_ok (x :: xs) ->
  (length (join [comma] (List.map dumps (x :: xs))) + 1 < fuel)%nat ->
  array_items fuel (join [comma] (List.map dumps (x :: xs)) ++ 93 :: rest)
  = Some (List.map canon (x :: xs), rest).
Proof.
  induction xs as [|y ys IH]; intros x fuel rest Hrb Hok Hfuel;
    apply Forall_cons in Hrb as [Hx Hrb]; apply Forall_cons in Hok as [Hokx Hok];
    (destruct fuel as [|fuel]; [lia|]); cbn [array_items].
  - cbn [List.map join] in *. rewrite Hx; [|right; left; reflexivity|lia].
    reflexivity.
  - cbn [List.map] in *. rewrite join_cons2 in *. rewrite <- !app_assoc.
    rewrite !length_app in Hfuel. cbn [length] in Hfuel.
    rewrite Hx; [|left; reflexivity|lia].
    cbn [app skip_ws is_ws]. change (is_ws comma) with false. cbv iota.
    change (comma =? 93) with false. change (comma =? comma) with true. cbv iota.
    rewrite (skip_ws_join y ys) by (apply Forall_cons in Hok as [? _]; assumption).
    cbn [List.map]. rewrite (IH y fuel rest); [reflexivity|exact Hrb|exact Hok|].
    lia.
Qed.

Lemma item_text_body kv : item_text kv = quote :: item_body kv.
Proof.
  unfold item_text, item_body, encode_basestring_ascii.
  cbn [app]. rewrite <- app_assoc. reflexivity.
Qed.

(** The items of a non-empty object, from the first key on. *)
Lemma object_items_ok kvs : forall kv fuel rest,
  Forall (fun kv => str_okb (fst kv) = true /\ json_ok (snd kv) /\
                    reads_back (snd kv)) (kv :: kvs) ->
  (length (join [comma] (List.map item_text (kv :: kvs))) + 1 < fuel)%nat ->
  object_items fuel
    (List.tl (join [comma] (List.map item_text (kv :: kvs))) ++ 125 :: rest)
  = Some (List.map (fun kv => (fst kv, canon (snd kv))) (kv :: kvs), rest).
Proof.
  induction kvs as [|kv' kvs IH]; intros kv fuel rest Hall Hfuel;
    apply Forall_cons in Hall as [(Hk & Hok & Hrb) Hall];
    (destruct fuel as [|fuel]; [lia|]); cbn [object_items].
  - cbn [List.map join] in *. rewrite item_text_body in *. cbn [List.tl length] in *.
    unfold item_body in *. rewrite <- !app_assoc. cbn [app].
    rewrite scanstring_escaped by exact Hk.
    change (skip_ws (colon :: ?r)) with (colon :: r).
    cbn [skip_ws]. change (is_ws colon) with false. cbv iota.
    change (colon =? colon) with true. cbv iota.
    rewrite skip_ws_dumps by exact Hok.
    rewrite !length_app in Hfuel. cbn [length] in Hfuel.
    rewrite Hrb; [|right; right; reflexivity|lia].
    reflexivity.
  - cbn [List.map] in *. rewrite join_cons2 in *.
    rewrite item_text_body in *. cbn [List.tl app length] in *.
    unfold item_body in *. rewrite <- !app_assoc. cbn [app].
    rewrite scanstring_escaped by exact Hk.
    cbn [skip_ws]. change (is_ws colon) with false. cbv iota.
    change (colon =? colon) with true. cbv iota.
    rewrite skip_ws_dumps by exact Hok.
    rewrite !length_app in Hfuel. cbn [length] in Hfuel.
    rewrite Hrb; [|left; reflexivity|lia].
    cbn [skip_ws]. change (is_ws comma) with false. cbv iota.
    change (comma =? 125) with false. change (comma =? comma) with true. cbv iota.
    specialize (IH kv' fuel rest Hall). cbn [List.map] in IH.
    set (J := join [comma] (item_text kv' :: List.map item_text kvs)) in *.
    assert (HJ : J = quote :: List.tl J).
    { subst J. destruct kvs; cbn [List.map join]; rewrite item_text_body;
        reflexivity. }
    rewrite HJ at 1. cbn [app skip_ws]. change (is_ws quote) with false.
    cbv iota. change (quote =? quote) with true. cbv iota.
    rewrite IH by lia. reflexivity.
Qed.

(** [dict(pairs)] of pairs with distinct keys is the list of the pairs. *)
Lemma dict_set_new {A} k (v : A) d :
  ~ In k (keys d) -> dict_set k v d = d ++ [(k, v)].
Proof.
  induction d as [|[k0 v0] d IH]; cbn [dict_set keys List.map fst In app];
    [reflexivity|].
  intros Hnin. destruct (pystr_eqb k k0) eqn:Hk.
  - apply pystr_eqb_eq in Hk. exfalso. apply Hnin. left. congruence.
  - rewrite IH; [reflexivity|]. intros Hin. apply Hnin. right. exact Hin.
Qed.

Lemma dict_of_pairs_distinct {A} (pairs : list (pystr * A)) :
  NoDup (keys pairs) -> dict_of_pairs pairs = pairs.
Proof.
  unfold dict_of_pairs.
  assert (Hgen : forall acc,
             NoDup (keys (acc ++ pairs)) ->
             fold_left (fun d kv => dict_set (fst kv) (snd kv) d) pairs acc
             = acc ++ pairs).
  { induction pairs as [|[k v] pairs IH]; intros acc Hnd;
      cbn [fold_left fst snd]; [rewrite app_nil_r; reflexivity|].
    rewrite dict_set_new.
    - rewrite IH; rewrite <- app_assoc; [reflexivity|exact Hnd].
    - unfold keys in Hnd. rewrite List.map_app in Hnd. cbn [List.map fst] in Hnd.
      apply NoDup_app in Hnd as (_ & Hdisj & _).
      intros Hin. apply (Hdisj k); [apply list_elem_of_In, Hin|left]. }
  intros Hnd. apply (Hgen []). exact Hnd.
Qed.

Lemma keys_map_values {A B} (f : A -> B) (l : list (pystr * A)) :
  keys (List.map (fun kv => (fst kv, f (snd kv))) l) = keys l.
Proof. unfold keys. rewrite List.map_map. reflexivity. Qed.

Lemma keys_sorted_items_NoDup {A} (l : list (pystr * A)) :
  NoDup (keys l) -> NoDup (keys (sorted_items l)).
Proof.
  intros Hnd. unfold keys.
  change (List.map fst) with (fmap (M:=list) (@fst pystr A)).
  rewrite sorted_items_perm. exact Hnd.
Qed.

(** The scanner reads back the text of every JSON value. *)
Theorem scan_once_dumps (v : json) : json_ok v -> reads_back v.
Proof.
  induction v as [| b | z | f | s | items IH | entries IH] using json_ind;
    intros Hok fuel rest Hd Hfuel; (destruct fuel as [|fuel]; [lia|]).
  - reflexivity.
  - destruct b; reflexivity.
  - apply scan_once_int, Hd.
  - apply Hok, Hd.
  - cbn [dumps canon]. unfold encode_basestring_ascii. cbn [app scan_once].
    change (quote =? quote) with true. cbv iota.
    rewrite <- app_assoc. cbn [app]. rewrite scanstring_escaped by exact Hok.
    reflexivity.
  - apply json_ok_arr in Hok. cbn [dumps canon] in *.
    cbn [app scan_once]. change (91 =? quote) with false.
    change (91 =? 123) with false. change (91 =? 91) with true. cbv iota.
    rewrite <- app_assoc. cbn [app].
    destruct items as [|x xs]; [reflexivity|].
    rewrite skip_ws_join by (apply Forall_cons in Hok as [? _]; assumption).
    assert (Hhead : exists c t,
               join [comma] (List.map dumps (x :: xs)) ++ 93 :: rest = c :: t /\
               starts_value c = true).
    { apply Forall_cons in Hok as [Hx _].
      destruct (dumps_head x Hx) as (c & t & Hc & Hs).
      destruct xs as [|y ys]; cbn [List.map]; [|rewrite join_cons2];
        cbn [join]; rewrite Hc; cbn [app]; eauto. }
    destruct Hhead as (c & t & Heq & Hs).
    pose proof (array_items_ok xs x fuel rest) as Harr. rewrite Heq in *.
    apply starts_value_not in Hs as (_ & H93 & _).
    apply N.eqb_neq in H93. rewrite H93.
    rewrite Harr; [reflexivity| |exact Hok|].
    + clear -IH Hok. induction IH as [|y ys Hy _ IHys]; [constructor|].
      apply Forall_cons in Hok as [Hoky Hok].
      constructor; [apply Hy, Hoky|apply IHys, Hok].
    + cbn [length] in Hfuel. rewrite length_app in Hfuel.
      cbn [length] in Hfuel. lia.
  - apply json_ok_obj in Hok as [Hnd Hok].
    rewrite dumps_object in *. cbn [canon].
    rewrite (sorted_items_map canon entries).
    cbn [app scan_once]. change (123 =? quote) with false.
    change (123 =? 123) with true. cbv iota.
    rewrite <- app_assoc. cbn [app].
    assert (Hall : Forall (fun kv => str_okb (fst kv) = true /\ json_ok (snd kv) /\
                                     reads_back (snd kv)) (sorted_items entries)).
    { apply sorted_items_Forall.
      clear -IH Hok. induction IH as [|kv l Hkv _ IHl]; [constructor|].
      apply Forall_cons in Hok as [[Hk Hv] Hok].
      constructor; [|apply IHl, Hok]. split; [exact Hk|]. split; [exact Hv|].
      apply Hkv, Hv. }
    pose proof (keys_sorted_items_NoDup entries Hnd) as HndL.
    destruct (sorted_items entries) as [|kv kvs]; [reflexivity|].
    set (J := join [comma] (List.map item_text (kv :: kvs))) in *.
    assert (HJ : J = quote :: List.tl J).
    { subst J. destruct kvs; cbn [List.map join]; rewrite item_text_body;
        reflexivity. }
    pose proof (object_items_ok kvs kv fuel rest Hall) as Hobj. fold J in Hobj.
    rewrite HJ at 1. cbn [app skip_ws]. change (is_ws quote) with false.
    cbv iota. change (quote =? 125) with false. change (quote =? quote) with true.
    cbv iota.
    rewrite Hobj by (cbn [length] in Hfuel; rewrite length_app in Hfuel;
                     cbn [length] in Hfuel; lia).
    rewrite dict_of_pairs_distinct; [reflexivity|].
    rewrite keys_map_values. exact HndL.
Qed.

(** [json.loads(json.dumps(v, separators=(",", ":"), sort_keys=True))] *)
Theorem loads_dumps (v : json) : json_ok v -> loads (dumps v) = Some (canon v).
Proof.
  intros Hok. unfold loads.
  destruct (dumps_head v Hok) as (c & t & Hc & Hs).
  assert (Hbom : startswith [65279] (dumps v) = false).
  { rewrite Hc. cbn [startswith].
    replace (65279 =? c) with false; [reflexivity|].
    symmetry. apply N.eqb_neq. intros <-. discriminate. }
  rewrite Hbom. rewrite <- (app_nil_r (dumps v)) at 2.
  rewrite skip_ws_dumps by exact Hok.
  rewrite (scan_once_dumps v Hok); [reflexivity|exact I|lia].
Qed.

Lemma dict_get_in {A} k (y : A) d :
  NoDup (keys d) -> In (k, y) d -> dict_get k d = Some y.
Proof.
  induction d as [|[k0 v0] d IH]; [intros _ []|].
  cbn [keys List.map fst]. intros [Hk0 Hnd]%NoDup_cons [[= -> ->]|Hin];
    cbn [dict_get].
  - rewrite pystr_eqb_refl. reflexivity.
  - destruct (pystr_eqb k k0) eqn:Hk; [|apply IH; assumption].
    apply pystr_eqb_eq in Hk. subst k0. exfalso. apply Hk0.
    apply list_elem_of_In. apply in_map_iff. exists (k, y). auto.
Qed.

Lemma py_eq_arr l1 l2 :
  Forall2 (fun a b => py_eq a b = true) l1 l2 ->
  py_eq (JArr l1) (JArr l2) = true.
Proof.
  cbn [py_eq]. induction 1 as [|a b l1 l2 Hab _ IH]; [reflexivity|].
  rewrite Hab, IH. reflexivity.
Qed.

Lemma py_eq_obj m1 m2 :
  length m1 = length m2 ->
  Forall (fun kv => exists y, dict_get (fst kv) m2 = Some y /\
                              py_eq (snd kv) y = true) m1 ->
  py_eq (JObj m1) (JObj m2) = true.
Proof.
  intros Hlen Hall. cbn [py_eq]. apply andb_true_iff.
  split; [apply Nat.eqb_eq, Hlen|]. clear Hlen.
  induction Hall as [|[k x] m1 (y & Hget & Heq) _ IH]; [reflexivity|].
  cbn [fst snd] in *. rewrite Hget, Heq, IH. reflexivity.
Qed.

(** The value read back is equal, as Python compares values, to the value
    written. *)
Theorem py_eq_canon (v : json) : json_ok v -> py_eq (canon v) v = true.
Proof.
  induction v as [| b | z | f | s | items IH | entries IH] using json_ind;
    intros Hok; cbn [canon].
  - reflexivity.
  - destruct b; reflexivity.
  - cbn [py_eq]. apply Z.eqb_refl.
  - cbn [py_eq]. apply Hok.
  - cbn [py_eq]. apply pystr_eqb_refl.
  - apply json_ok_arr in Hok. apply py_eq_arr.
    induction IH as [|x xs Hx _ IHxs]; [constructor|].
    apply Forall_cons in Hok as [Hokx Hok]. cbn [List.map].
    constructor; [apply Hx, Hokx|apply IHxs, Hok].
  - apply json_ok_obj in Hok as [Hnd Hok]. apply py_eq_obj.
    + rewrite (Permutation_length (sorted_items_perm _)), length_map. reflexivity.
    + apply sorted_items_Forall. apply Forall_map.
      rewrite Forall_forall in IH, Hok |- *. intros [k y] Hin. cbn [fst snd].
      exists y. split.
      * apply dict_get_in; [exact Hnd|]. apply list_elem_of_In, Hin.
      * apply (IH (k, y) Hin). apply (Hok (k, y) Hin).
Qed.

End ValueRoundTrip.

(* ===================================================================== *)
(** ** Writing a snapshot and reading it back (C5) *)
(* ===================================================================== *)

Section RoundTrip.
Context `{PyFloat} `{!Psm}.

Lemma canon_insertion_order entries entries' :
  NoDup (keys entries) -> entries ≡ₚ entries' ->
  canon (JObj entries) = canon (JObj entries').
Proof.
  intros Hnd Hperm. cbn [canon]. f_equal. apply sorted_items_canonical.
  - rewrite keys_map_values. exact Hnd.
  - apply Permutation_map, Hperm.
Qed.

Lemma write_then_read path v w :
  json_ok v -> quiet w -> fresh_tmp (PSM.directory_of path) w ->
  exists w1 w2,
    PSM._atomic_write_json path v w = (Ok tt, w1) /\
    fs w1 !! path = Some (dumps v) /\ quiet w1 /\
    OutputBridge.read_json_if_ready path w1 = (Ok (canon v), w2).
Proof.
  intros Hok Hq Hfresh.
  destruct (atomic_write_quiet path v (dumps v) w Hq Hfresh (utf8_encode_dumps v))
    as (w1 & Hrun & Hfs & _ & _ & _ & Hplan).
  assert (Hq1 : quiet w1) by (eapply quiet_same_plan; eassumption).
  assert (Hslot : fs w1 !! path = Some (dumps v)).
  { rewrite Hfs. apply lookup_insert_eq. }
  exists w1, (after_read path w1). repeat split; try assumption.
  eapply read_value; [exact Hq1|exact Hslot| |apply utf8_decode_dumps|
                      apply loads_dumps, Hok].
  destruct (dumps_head v Hok) as (c & t & -> & _). discriminate.
Qed.

(** C5. Let [S] be a JSON value: a snapshot, or any value whose dicts have
    distinct keys, whose strings are Unicode text and whose floats read
    back. In a world where no call raises and the first temporary name is
    free, writing [S] to a slot with the State Store write and reading the
    slot with [read_json_if_ready] returns a value equal to [S] as Python
    compares values (dicts as mappings, whatever the order of the keys).
    The value returned is the same for every insertion order of the keys
    of [S]. *)
Theorem write_then_read_gives_equal_value
    (path : string) (S : json) (w : world) :
  json_ok S -> quiet w -> fresh_tmp (PSM.directory_of path) w ->
  (exists w1 w2 d,
      PSM._atomic_write_json path S w = (Ok tt, w1) /\
      OutputBridge.read_json_if_ready path w1 = (Ok d, w2) /\
      d = canon S /\ py_eq d S = true) /\
  (forall entries entries',
      S = JObj entries -> entries ≡ₚ entries' ->
      json_ok (JObj entries') /\
      canon (JObj entries') = canon S /\
      py_eq (canon S) (JObj entries') = true).
Proof.
  intros Hok Hq Hfresh. split.
  - destruct (write_then_read path S w Hok Hq Hfresh)
      as (w1 & w2 & Hrun & _ & _ & Hread).
    exists w1, w2, (canon S). repeat split; try assumption.
    apply py_eq_canon, Hok.
  - intros entries entries' -> Hperm.
    assert (Hok' : json_ok (JObj entries')).
    { apply json_ok_obj in Hok as [Hnd Hall]. apply json_ok_obj. split.
      - unfold keys in *.
        change (List.map fst) with (fmap (M:=list) (@fst pystr json)) in *.
        rewrite <- Hperm. exact Hnd.
      - rewrite <- Hperm. exact Hall. }
    split; [exact Hok'|].
    assert (Hcanon : canon (JObj entries') = canon (JObj entries)).
    { symmetry. apply canon_insertion_order; [|exact Hperm].
      apply json_ok_obj in Hok as [Hnd _]. exact Hnd. }
    split; [exact Hcanon|]. rewrite <- Hcanon. apply py_eq_canon, Hok'.
Qed.

End RoundTrip.

(* ===================================================================== *)
(** ** Values are never looked at (C10) *)
(* ===================================================================== *)

Section Values.
Context `{PyFloat} `{!Psm}.

Lemma startswith_percent k :
  startswith (str "%") k = match k with c :: _ => c =? 37 | [] => false end.
Proof.
  destruct k as [|c k]; [reflexivity|]. cbn. rewrite andb_true_r.
  apply N.eqb_sym.
Qed.

Lemma forwarded_values (g : json -> json) entries :
  forwarded (List.map (fun kv => (fst kv, g (snd kv))) entries)
  = List.map (fun kv => (fst kv, g (snd kv))) (forwarded entries).
Proof.
  induction entries as [|kv entries IH]; [reflexivity|].
  cbn [List.map]. rewrite !forwarded_cons. cbn [fst snd].
  destruct (startswith (str "%") (fst kv)); cbn [List.map fst snd];
    rewrite IH; reflexivity.
Qed.

Lemma bad_keys_values (g : json -> json) entries :
  InputBridge.bad_keys_of (List.map (fun kv => (fst kv, g (snd kv))) entries)
  = InputBridge.bad_keys_of entries.
Proof. unfold InputBridge.bad_keys_of. rewrite keys_map_values. reflexivity. Qed.

(** C10. No program looks at a value. What the programs do with an entry
    depends on its key alone, and of the key only on whether its first
    character is [%]: the key test is a test of the first character;
    replacing the values of a payload by any others changes neither the
    warning of the adapter nor which entries the driver forwards, and the
    forwarded values are replaced alike. For a payload that decodes to an
    object, of values of any JSON type, the adapter writes the text of the
    whole object; and when the driver then reads the slot, the calls of
    [psm.set_var] carry, for every entry whose key starts with [%], the
    value read back from that text, which is equal to the value of the
    payload (here in a world where no call raises and the temporary name
    is free, for a payload that is a JSON value). *)
Theorem values_pass_through_unchecked (w : world) :
  (forall k, startswith (str "%") k
             = match k with c :: _ => c =? 37 | [] => false end) /\
  (forall (g : json -> json) entries,
      InputBridge.bad_keys_of (List.map (fun kv => (fst kv, g (snd kv))) entries)
        = InputBridge.bad_keys_of entries /\
      forwarded (List.map (fun kv => (fst kv, g (snd kv))) entries)
        = List.map (fun kv => (fst kv, g (snd kv))) (forwarded entries)) /\
  (forall payload text entries,
      utf8_decode payload = Some text -> loads text = Some (JObj entries) ->
      json_ok (JObj entries) -> quiet w -> fresh_tmp "/tmp" w ->
      exists w1 w2,
        InputBridge.on_message payload w = (Ok tt, w1) /\
        fs w1 !! InputBridge.INPUT_PATH = Some (dumps (JObj entries)) /\
        loads (dumps (JObj entries)) = Some (JObj (stored entries)) /\
        py_eq (JObj (stored entries)) (JObj entries) = true /\
        PSM.update_inputs w1 = (Ok tt, w2) /\
        set_var_calls (trace w2)
          = set_var_calls (trace w1) ++ forwarded (stored entries) /\
        forwarded (stored entries)
          = List.map (fun kv => (fst kv, canon (snd kv)))
              (forwarded (sorted_items entries))).
Proof.
  split; [apply startswith_percent|]. split.
  - intros g entries. split; [apply bad_keys_values|apply forwarded_values].
  - intros payload text entries Hdec Hload Hok Hq Hfresh.
    destruct (on_message_object payload text entries w Hdec Hload Hq Hfresh)
      as (w1 & Hrun & Hfs & _ & _ & Hplan).
    assert (Hq1 : quiet w1) by (eapply quiet_same_plan; eassumption).
    assert (Hslot : fs w1 !! InputBridge.INPUT_PATH = Some (dumps (JObj entries))).
    { rewrite Hfs. apply lookup_insert_eq. }
    assert (Hback : loads (dumps (JObj entries)) = Some (JObj (stored entries))).
    { rewrite (loads_dumps _ Hok). reflexivity. }
    exists w1, (applied (stored entries) (tick (emit (EvOpenRead PSM.INPUT_PATH) w1))).
    split; [exact Hrun|]. split; [exact Hslot|]. split; [exact Hback|].
    split; [apply (py_eq_canon _ Hok)|]. split; [|split].
    + apply (update_inputs_object w1 (dumps (JObj entries))); [exact Hq1| |exact Hback].
      exists (dumps (JObj entries)). split; [exact Hslot|apply utf8_decode_dumps].
    + rewrite applied_trace. cbn [trace tick emit].
      rewrite !set_var_calls_app, set_var_calls_map. cbn [set_var_calls flat_map].
      rewrite app_nil_r. reflexivity.
    + unfold stored. rewrite (sorted_items_map canon entries).
      apply forwarded_values.
Qed.

End Values.

(* ===================================================================== *)
(** ** Concrete runs *)
(* ===================================================================== *)

Section Runs.

Lemma demo_quiet files : quiet (demo_world files no_fault).
Proof. intros n. reflexivity. Qed.

Lemma demo_only_errors files : only_errors (demo_world files all_fail).
Proof. intros n e [= <-]. reflexivity. Qed.

(** C1 at a world with no file: the object with keys [b], [a] inserted in
    that order is written as the text with [a] first. *)
Lemma store_write_witness :
  exists w',
    PSM._atomic_write_json "/tmp/output.json"
      (JObj [(str "b", JInt 1); (str "a", JInt 2)]) (demo_world [] no_fault)
      = (Ok tt, w') /\
    fs w' !! "/tmp/output.json" = Some (qstr "{'a':2,'b':1}") /\
    written_files (trace w') = ["/tmp/tmp00000000"; "/tmp/tmp00000000";
                                "/tmp/tmp00000000"].
Proof.
  destruct (store_write_is_canonical_and_atomic "/tmp/output.json"
              (JObj [(str "b", JInt 1); (str "a", JInt 2)])
              (demo_world [] no_fault))
    as (_ & _ & _ & Hrun & _).
  destruct Hrun as (w' & Hrun & Htr & Hfs);
    [apply demo_quiet | vm_compute; reflexivity |].
  exists w'. split; [exact Hrun|]. split.
  - rewrite Hfs. rewrite lookup_insert_eq. reflexivity.
  - rewrite Htr. reflexivity.
Defined.

(** C2 at the contents A, A, A, B, B. *)
Lemma poll_witness :
  exists w',
    OutputBridge.poll_loop
      [Some (qstr "{'%QX0.0':false}"); Some (qstr "{'%QX0.0':false}");
       Some (qstr "{'%QX0.0':false}"); Some (qstr "{'%QX0.0':true}");
       Some (qstr "{'%QX0.0':true}")] None (demo_world [] no_fault)
      = (Ok (Some (qstr "{'%QX0.0':true}")), w') /\
    publications (trace w')
      = [qstr "{'%QX0.0':false}"; qstr "{'%QX0.0':true}"].
Proof.
  destruct (poll_publishes_changes_only None (demo_world [] no_fault))
    as (_ & Hseq & _).
  destruct (Hseq (qstr "{'%QX0.0':false}") (qstr "{'%QX0.0':true}")
                 (JObj [(str "%QX0.0", JBool false)])
                 (JObj [(str "%QX0.0", JBool true)]))
    as (w' & Hrun & Hpub).
  - apply demo_quiet.
  - split; [discriminate|]. split; [reflexivity|].
    exists (qstr "{'%QX0.0':false}").
    split; [vm_compute; reflexivity|vm_compute; reflexivity].
  - split; [discriminate|]. split; [reflexivity|].
    exists (qstr "{'%QX0.0':true}").
    split; [vm_compute; reflexivity|vm_compute; reflexivity].
  - vm_compute. discriminate.
  - exists w'. split; [exact Hrun|]. rewrite Hpub. reflexivity.
Defined.

(** C3 at the payload of the specification. *)
Lemma update_inputs_witness :
  exists w',
    PSM.update_inputs
      (demo_world [("/tmp/input.json", qstr "{'%IX0.0': true, 'BAD': false}")]
                  no_fault)
      = (Ok tt, w') /\
    set_var_calls (trace w') = [(str "IX0.0", JBool true)] /\
    controller w' = ([(str "IX0.0", JBool true)], false).
Proof.
  destruct (update_inputs_forwards_sentinel_entries
              (demo_world [("/tmp/input.json",
                            qstr "{'%IX0.0': true, 'BAD': false}")] no_fault))
    as (_ & Hobj & _).
  destruct (Hobj (qstr "{'%IX0.0': true, 'BAD': false}")
                 [(str "%IX0.0", JBool true); (str "BAD", JBool false)])
    as (w' & Hrun & Hcalls & Hctl & _).
  - apply demo_quiet.
  - exists (qstr "{'%IX0.0': true, 'BAD': false}").
    split; [vm_compute; reflexivity|vm_compute; reflexivity].
  - vm_compute. reflexivity.
  - exists w'. split; [exact Hrun|]. split.
    + rewrite Hcalls. reflexivity.
    + rewrite Hctl. reflexivity.
Defined.

(** C4 at the configured variables. *)
Lemma update_outputs_witness :
  exists w',
    PSM.update_outputs (demo_world [("/tmp/output.json", qstr "{'old':1}")]
                                   no_fault)
      = (Ok tt, w') /\
    fs w' !! "/tmp/output.json" = Some (qstr "{'%QX0.0':false}").
Proof.
  destruct (update_outputs_writes_fresh_snapshot PSM.OUTPUT_VARS
              (demo_world [("/tmp/output.json", qstr "{'old':1}")] no_fault))
    as ((w' & Hrun & Hfs) & _).
  - apply demo_quiet.
  - vm_compute. reflexivity.
  - exists w'. split; [exact Hrun|]. rewrite Hfs, lookup_insert_eq. reflexivity.
Defined.

(** The float [1.5] of the float library above reads back. *)
Lemma text_float_reads_back :
  @float_reads_back text_float (float_lit "1.5").
Proof.
  split; [reflexivity|]. intros fuel [|c rest] Hd; [reflexivity|].
  destruct Hd as [-> | [-> | ->]]; reflexivity.
Qed.

(** C5 at a snapshot with a nested list, a float, an escaped string and
    its keys out of order. *)
Lemma round_trip_witness :
  exists w1 w2 d,
    PSM._atomic_write_json "/tmp/input.json"
      (JObj [(str "%b", JArr [JInt (-1); JNull; JFloat (float_lit "1.5")]);
             (str "%a", JStr [233; 10; 128512])])
      (demo_world [] no_fault) = (Ok tt, w1) /\
    OutputBridge.read_json_if_ready "/tmp/input.json" w1 = (Ok d, w2) /\
    d = JObj [(str "%a", JStr [233; 10; 128512]);
              (str "%b", JArr [JInt (-1); JNull; JFloat (float_lit "1.5")])] /\
    py_eq d (JObj [(str "%b", JArr [JInt (-1); JNull; JFloat (float_lit "1.5")]);
                   (str "%a", JStr [233; 10; 128512])]) = true.
Proof.
  destruct (write_then_read_gives_equal_value "/tmp/input.json"
              (JObj [(str "%b", JArr [JInt (-1); JNull; JFloat (float_lit "1.5")]);
                     (str "%a", JStr [233; 10; 128512])])
              (demo_world [] no_fault))
    as ((w1 & w2 & d & Hrun & Hread & Hd & Heq) & _).
  - cbn [json_ok fst snd]. split; [|repeat split].
    + apply (bool_decide_unpack _). vm_compute. exact I.
    + apply text_float_reads_back.
  - apply demo_quiet.
  - vm_compute. reflexivity.
  - exists w1, w2, d. split; [exact Hrun|]. split; [exact Hread|].
    split; [rewrite Hd; reflexivity|exact Heq].
Defined.

(** C6 at an empty outbound slot. *)
Lemma slot_reads_witness :
  exists w',
    OutputBridge.read_json_if_ready "/tmp/output.json"
      (demo_world [("/tmp/output.json", [])] no_fault) = (Ok JNull, w') /\
    stdout w' = [].
Proof.
  destruct (slot_reads_without_data "/tmp/output.json"
              (demo_world [("/tmp/output.json", [])] no_fault))
    as (_ & Hempty & _).
  destruct Hempty as (w' & Hrun & Hout);
    [apply demo_quiet | reflexivity |].
  exists w'. split; [exact Hrun|]. rewrite Hout. reflexivity.
Defined.

(** C6 as the specification states it fails twice. The outbound adapter
    reads an outbound slot that holds the one character [{], which is not
    JSON: it returns [None] and prints nothing. And the driver treats an
    empty inbound slot unlike a missing one: it prints an error for the
    first and nothing for the second. *)
Lemma malformed_slot_is_not_always_logged :
  @loads text_float (str "{") = None /\
  (let '(r, w') :=
     OutputBridge.read_json_if_ready "/tmp/output.json"
       (demo_world [("/tmp/output.json", str "{")] no_fault) in
   r = Ok JNull /\ stdout w' = []) /\
  (let '(r, w') :=
     PSM.update_inputs (demo_world [("/tmp/input.json", [])] no_fault) in
   r = Ok tt /\ stdout w' = [PsmErrorInUpdateInputs JSONDecodeError]) /\
  (let '(r, w') := PSM.update_inputs (demo_world [] no_fault) in
   r = Ok tt /\ stdout w' = []).
Proof. vm_compute. repeat split. Qed.

(** C7 at the payload of the specification. *)
Lemma on_message_witness :
  exists w',
    InputBridge.on_message (qstr "{'%IX0.0': true, 'BAD': false}")
      (demo_world [("/tmp/input.json", qstr "{'%IX0.0':false}")] no_fault)
      = (Ok tt, w') /\
    fs w' !! "/tmp/input.json" = Some (qstr "{'%IX0.0':true,'BAD':false}") /\
    stdout w'
      = [InWarningKeys [str "BAD"];
         InWrote "/tmp/input.json"
           (JObj [(str "%IX0.0", JBool true); (str "BAD", JBool false)])].
Proof.
  destruct (on_message_drops_or_writes_whole
              (qstr "{'%IX0.0': true, 'BAD': false}")
              (demo_world [("/tmp/input.json", qstr "{'%IX0.0':false}")]
                          no_fault))
    as (_ & _ & _ & Hobj & _).
  destruct (Hobj (qstr "{'%IX0.0': true, 'BAD': false}")
                 [(str "%IX0.0", JBool true); (str "BAD", JBool false)])
    as (w' & Hrun & Hfs & Hout).
  - vm_compute. reflexivity.
  - vm_compute. reflexivity.
  - apply demo_quiet.
  - vm_compute. reflexivity.
  - exists w'. split; [exact Hrun|]. split.
    + rewrite Hfs, lookup_insert_eq. reflexivity.
    + rewrite Hout. reflexivity.
Defined.

(** C10 at a payload with a null, a list and a nested object. *)
Lemma values_witness :
  exists w1 w2,
    InputBridge.on_message (qstr "{'%MW1': null, 'x': [1], '%MW0': {'k': 'v'}}")
      (demo_world [] no_fault) = (Ok tt, w1) /\
    PSM.update_inputs w1 = (Ok tt, w2) /\
    set_var_calls (trace w2)
      = set_var_calls (trace w1)
        ++ [(str "MW0", JObj [(str "k", JStr (str "v"))]); (str "MW1", JNull)].
Proof.
  destruct (values_pass_through_unchecked (demo_world [] no_fault))
    as (_ & _ & Hpipe).
  destruct (Hpipe (qstr "{'%MW1': null, 'x': [1], '%MW0': {'k': 'v'}}")
                  (qstr "{'%MW1': null, 'x': [1], '%MW0': {'k': 'v'}}")
                  [(str "%MW1", JNull); (str "x", JArr [JInt 1]);
                   (str "%MW0", JObj [(str "k", JStr (str "v"))])])
    as (w1 & w2 & Hmsg & _ & _ & _ & Hin & Hcalls & _).
  - vm_compute. reflexivity.
  - vm_compute. reflexivity.
  - cbn [json_ok fst snd]. split; [|repeat split].
    + apply (bool_decide_unpack _). vm_compute. exact I.
    + apply (bool_decide_unpack _). vm_compute. exact I.
  - apply demo_quiet.
  - vm_compute. reflexivity.
  - exists w1, w2. split; [exact Hmsg|]. split; [exact Hin|].
    rewrite Hcalls. reflexivity.
Defined.

End Runs.

(* ===================================================================== *)
(** ** The fuel of the decoder is enough *)
(* ===================================================================== *)

Section Fuel.
Context `{PyFloat}.

Lemma scan_once_S fuel s :
  scan_once (S fuel) s = scan_value (array_items fuel) (object_items fuel) s.
Proof. reflexivity. Qed.

Lemma array_items_S fuel s :
  array_items (S fuel) s = scan_array (scan_once fuel) (array_items fuel) s.
Proof. reflexivity. Qed.

Lemma object_items_S fuel s :
  object_items (S fuel) s = scan_object (scan_once fuel) (object_items fuel) s.
Proof. reflexivity. Qed.

Lemma skip_ws_length s : (length (skip_ws s) <= length s)%nat.
Proof.
  induction s as [|c r IH]; cbn [skip_ws length]; [lia|].
  destruct (is_ws c); cbn [length]; lia.
Qed.

Lemma prepend_some {A} c (res : option (pystr * A)) t r :
  prepend c res = Some (t, r) -> exists t', res = Some (t', r).
Proof.
  destruct res as [[t' r']|]; cbn [prepend]; [|discriminate].
  intros [= <- <-]. eauto.
Qed.

Lemma scanstring_shortens : shortens scanstring.
Proof.
  intros s. remember (length s) as n eqn:Hn.
  assert (Hle : (length s <= n)%nat) by lia. clear Hn.
  revert s Hle. induction n as [|n IH]; intros s Hle t r Hs.
  - destruct s; [discriminate|cbn [length] in Hle; lia].
  - destruct s as [|c s]; [discriminate|].
    cbn [length] in Hle. cbn [scanstring] in Hs.
    repeat match type of Hs with
    | (if ?b then _ else _) = _ => destruct b
    | match ?l with [] => _ | _ :: _ => _ end = _ => destruct l
    | match ?o with Some _ => _ | None => _ end = _ => destruct o
    | None = Some _ => discriminate Hs
    | Some _ = Some _ => injection Hs as <- <-
    | prepend _ _ = Some _ =>
        apply prepend_some in Hs; destruct Hs as [? Hs];
        apply IH in Hs; cbn [length] in *; try lia
    end; cbn [length] in *; try lia.
Qed.


Lemma scan_digits_length s ds r :
  scan_digits s = (ds, r) -> (length s = length ds + length r)%nat.
Proof.
  revert ds r. induction s as [|c s IH]; intros ds r; cbn [scan_digits].
  - intros [= <- <-]. reflexivity.
  - destruct (is_digit c).
    + destruct (scan_digits s) as [ds' r'] eqn:Hs. intros [= <- <-].
      cbn [length]. rewrite (IH _ _ eq_refl). lia.
    + intros [= <- <-]. reflexivity.
Qed.

Lemma scan_sign_length s sign r :
  scan_sign s = (sign, r) -> (length r <= length s)%nat.
Proof.
  unfold scan_sign. destruct s as [|c s]; [intros [= <- <-]; lia|].
  destruct (c =? 45); intros [= <- <-]; cbn [length]; lia.
Qed.

Lemma scan_int_part_length s ip r :
  scan_int_part s = Some (ip, r) -> (length r < length s)%nat.
Proof.
  unfold scan_int_part. destruct s as [|c s]; [discriminate|].
  destruct (c =? 48); [intros [= <- <-]; cbn [length]; lia|].
  destruct (is_digit c) eqn:Hc; [|discriminate].
  intros [= Hs]. pose proof (scan_digits_length (c :: s) _ _ Hs) as Hlen.
  rewrite Hc in Hs.
  destruct (scan_digits s) as [ds' r']. injection Hs as <- <-.
  cbn [length] in Hlen. cbn [length]. lia.
Qed.

Lemma scan_frac_length s frac r :
  scan_frac s = (frac, r) -> (length r <= length s)%nat.
Proof.
  unfold scan_frac. destruct s as [|c s]; [intros [= <- <-]; lia|].
  destruct (c =? 46); [|intros [= <- <-]; lia].
  destruct (scan_digits s) as [ds r'] eqn:Hs.
  apply scan_digits_length in Hs.
  destruct ds; intros [= <- <-]; cbn [length] in *; lia.
Qed.

Lemma scan_exp_length s ex r :
  scan_exp s = (ex, r) -> (length r <= length s)%nat.
Proof.
  unfold scan_exp. destruct s as [|c s]; [intros [= <- <-]; lia|].
  destruct ((c =? 101) || (c =? 69)); [|intros [= <- <-]; lia].
  destruct s as [|d s'].
  - cbn [scan_digits]. intros [= <- <-]. lia.
  - destruct ((d =? 45) || (d =? 43)).
    + destruct (scan_digits s') as [ds r'] eqn:Hs.
      apply scan_digits_length in Hs.
      destruct ds; intros [= <- <-]; cbn [length] in *; lia.
    + destruct (scan_digits (d :: s')) as [ds r'] eqn:Hs.
      apply scan_digits_length in Hs.
      destruct ds; intros [= <- <-]; cbn [length] in *; lia.
Qed.

Lemma match_number_shortens : shortens match_number.
Proof.
  intros s v r. unfold match_number.
  destruct (scan_sign s) as [sign s1] eqn:H1.
  destruct (scan_int_part s1) as [[ip s2]|] eqn:H2; [|discriminate].
  destruct (scan_frac s2) as [frac s3] eqn:H3.
  destruct (scan_exp s3) as [ex s4] eqn:H4.
  apply scan_sign_length in H1. apply scan_int_part_length in H2.
  apply scan_frac_length in H3. apply scan_exp_length in H4.
  destruct frac, ex; intros [= <- <-]; lia.
Qed.

Lemma startswith_length p s :
  startswith p s = true -> (length p <= length s)%nat.
Proof.
  revert s. induction p as [|c p IH]; intros s; cbn [length]; [lia|].
  destruct s as [|d s]; cbn [startswith]; [discriminate|].
  intros [_ Hp]%andb_prop. apply IH in Hp. cbn [length]. lia.
Qed.

Lemma scan_value_shortens arr obj :
  shortens arr -> shortens obj -> shortens (scan_value arr obj).
Proof.
  intros Harr Hobj s v r Hs. unfold scan_value in Hs.
  destruct s as [|c s]; [discriminate|].
  destruct (c =? quote).
  { destruct (scanstring s) as [[t r']|] eqn:Hstr; [|discriminate].
    injection Hs as <- <-. apply scanstring_shortens in Hstr.
    cbn [length]. lia. }
  destruct (c =? 123).
  { pose proof (skip_ws_length s) as Hws.
    destruct (skip_ws s) as [|c1 r1]; [discriminate|].
    cbn [length] in *.
    destruct (c1 =? 125); [injection Hs as <- <-; lia|].
    destruct (c1 =? quote); [|discriminate].
    destruct (obj r1) as [[ps r']|] eqn:Ho; [|discriminate].
    injection Hs as <- <-. apply Hobj in Ho. lia. }
  destruct (c =? 91).
  { pose proof (skip_ws_length s) as Hws.
    destruct (skip_ws s) as [|c1 r1]; [discriminate|].
    cbn [length] in *.
    destruct (c1 =? 93); [injection Hs as <- <-; lia|].
    destruct (arr (c1 :: r1)) as [[vs r']|] eqn:Ha; [|discriminate].
    injection Hs as <- <-. apply Harr in Ha. cbn [length] in Ha. lia. }
  destruct (startswith (str "null") (c :: s)) eqn:E1.
  { injection Hs as <- <-. apply startswith_length in E1.
    rewrite length_skipn. cbn [length] in *. cbn in E1. lia. }
  destruct (startswith (str "true") (c :: s)) eqn:E2.
  { injection Hs as <- <-. apply startswith_length in E2.
    rewrite length_skipn. cbn [length] in *. cbn in E2. lia. }
  destruct (startswith (str "false") (c :: s)) eqn:E3.
  { injection Hs as <- <-. apply startswith_length in E3.
    rewrite length_skipn. cbn [length] in *. cbn in E3. lia. }
  destruct (match_number (c :: s)) as [[v' r']|] eqn:Hn.
  { injection Hs as <- <-. apply match_number_shortens in Hn. exact Hn. }
  destruct (startswith (str "NaN") (c :: s)) eqn:E4.
  { injection Hs as <- <-. apply startswith_length in E4.
    rewrite length_skipn. cbn [length] in *. cbn in E4. lia. }
  destruct (startswith (str "Infinity") (c :: s)) eqn:E5.
  { injection Hs as <- <-. apply startswith_length in E5.
    rewrite length_skipn. cbn [length] in *. cbn in E5. lia. }
  destruct (startswith (str "-Infinity") (c :: s)) eqn:E6; [|discriminate].
  injection Hs as <- <-. apply startswith_length in E6.
    rewrite length_skipn. cbn [length] in *. cbn in E6. lia.
Qed.

Lemma scan_array_shortens val arr :
  shortens val -> shortens arr -> shortens (scan_array val arr).
Proof.
  intros Hval Harr s vs r Hs. unfold scan_array in Hs.
  destruct (val s) as [[v r0]|] eqn:Hv; [|discriminate].
  apply Hval in Hv. pose proof (skip_ws_length r0) as Hws.
  destruct (skip_ws r0) as [|c r1]; [discriminate|]. cbn [length] in Hws.
  destruct (c =? 93); [injection Hs as <- <-; lia|].
  destruct (c =? comma); [|discriminate].
  destruct (arr (skip_ws r1)) as [[vs' r2]|] eqn:Ha; [|discriminate].
  injection Hs as <- <-. apply Harr in Ha.
  pose proof (skip_ws_length r1). lia.
Qed.

Lemma scan_object_shortens val obj :
  shortens val -> shortens obj -> shortens (scan_object val obj).
Proof.
  intros Hval Hobj s ps r Hs. unfold scan_object in Hs.
  destruct (scanstring s) as [[key r0]|] eqn:Hk; [|discriminate].
  apply scanstring_shortens in Hk. pose proof (skip_ws_length r0) as Hws.
  destruct (skip_ws r0) as [|c r1]; [discriminate|]. cbn [length] in Hws.
  destruct (c =? colon); [|discriminate].
  destruct (val (skip_ws r1)) as [[v r2]|] eqn:Hv; [|discriminate].
  apply Hval in Hv. pose proof (skip_ws_length r1) as Hws1.
  pose proof (skip_ws_length r2) as Hws2.
  destruct (skip_ws r2) as [|c2 r3]; [discriminate|]. cbn [length] in Hws2.
  destruct (c2 =? 125); [injection Hs as <- <-; lia|].
  destruct (c2 =? comma); [|discriminate].
  pose proof (skip_ws_length r3) as Hws3.
  destruct (skip_ws r3) as [|c3 r4]; [discriminate|]. cbn [length] in Hws3.
  destruct (c3 =? quote); [|discriminate].
  destruct (obj r4) as [[ps' r5]|] eqn:Ho; [|discriminate].
  injection Hs as <- <-. apply Hobj in Ho. lia.
Qed.

Lemma scanners_shorten fuel :
  shortens (scan_once fuel) /\ shortens (array_items fuel)
  /\ shortens (object_items fuel).
Proof.
  induction fuel as [|fuel (Hval & Harr & Hobj)].
  - repeat split; intros s x r; discriminate.
  - repeat split.
    + intros s x r. rewrite scan_once_S. now apply scan_value_shortens.
    + intros s x r. rewrite array_items_S. now apply scan_array_shortens.
    + intros s x r. rewrite object_items_S. now apply scan_object_shortens.
Qed.

Lemma scan_value_upto n arr arr' obj obj' :
  shortens arr -> shortens obj -> upto n arr arr' -> upto n obj obj' ->
  upto (S n) (scan_value arr obj) (scan_value arr' obj').
Proof.
  intros Sarr Sobj Harr Hobj s v r Hs Hlen. unfold scan_value in *.
  destruct s as [|c s]; [discriminate|].
  destruct (c =? quote); [exact Hs|].
  destruct (c =? 123).
  { pose proof (skip_ws_length s) as Hws.
    destruct (skip_ws s) as [|c1 r1]; [discriminate|].
    cbn [length] in *.
    destruct (c1 =? 125); [exact Hs|].
    destruct (c1 =? quote); [|discriminate].
    destruct (obj r1) as [[ps r']|] eqn:Ho; [|discriminate].
    injection Hs as <- <-. rewrite (Hobj _ _ _ Ho); [reflexivity|lia]. }
  destruct (c =? 91); [|exact Hs].
  pose proof (skip_ws_length s) as Hws.
  destruct (skip_ws s) as [|c1 r1]; [discriminate|].
  cbn [length] in *.
  destruct (c1 =? 93); [exact Hs|].
  destruct (arr (c1 :: r1)) as [[vs r']|] eqn:Ha; [|discriminate].
  injection Hs as <- <-.
  rewrite (Harr _ _ _ Ha); [reflexivity|cbn [length]; lia].
Qed.

Lemma scan_array_upto n val val' arr arr' :
  shortens val -> shortens arr -> upto n val val' -> upto n arr arr' ->
  upto (S n) (scan_array val arr) (scan_array val' arr').
Proof.
  intros Sval Sarr Hval Harr s vs r Hs Hlen. unfold scan_array in *.
  destruct (val s) as [[v r0]|] eqn:Hv; [|discriminate].
  pose proof (Sval _ _ _ Hv) as Hv0. pose proof (skip_ws_length r0) as Hws.
  destruct (skip_ws r0) as [|c r1] eqn:Hr0; [discriminate|].
  cbn [length] in Hws.
  destruct (c =? 93) eqn:Hc.
  { injection Hs as <- <-.
    rewrite (Hval _ _ _ Hv); [|lia]. rewrite Hr0, Hc. reflexivity. }
  destruct (c =? comma) eqn:Hc'; [|discriminate].
  destruct (arr (skip_ws r1)) as [[vs' r2]|] eqn:Ha; [|discriminate].
  injection Hs as <- <-. pose proof (Sarr _ _ _ Ha) as Ha0.
  pose proof (skip_ws_length r1) as Hws1.
  rewrite (Hval _ _ _ Hv); [|lia]. rewrite Hr0, Hc, Hc'.
  rewrite (Harr _ _ _ Ha); [reflexivity|lia].
Qed.

Lemma scan_object_upto n val val' obj obj' :
  shortens val -> shortens obj -> upto n val val' -> upto n obj obj' ->
  upto (S n) (scan_object val obj) (scan_object val' obj').
Proof.
  intros Sval Sobj Hval Hobj s ps r Hs Hlen. unfold scan_object in *.
  destruct (scanstring s) as [[key r0]|] eqn:Hk; [|discriminate].
  apply scanstring_shortens in Hk. pose proof (skip_ws_length r0) as Hws.
  destruct (skip_ws r0) as [|c r1]; [discriminate|]. cbn [length] in Hws.
  destruct (c =? colon); [|discriminate].
  destruct (val (skip_ws r1)) as [[v r2]|] eqn:Hv; [|discriminate].
  pose proof (Sval _ _ _ Hv) as Hv0. pose proof (skip_ws_length r1) as Hws1.
  pose proof (skip_ws_length r2) as Hws2.
  destruct (skip_ws r2) as [|c2 r3] eqn:Hr2; [discriminate|].
  cbn [length] in Hws2.
  destruct (c2 =? 125) eqn:Hc2.
  { injection Hs as <- <-.
    rewrite (Hval _ _ _ Hv); [|lia]. rewrite Hr2, Hc2. reflexivity. }
  destruct (c2 =? comma) eqn:Hc2'; [|discriminate].
  pose proof (skip_ws_length r3) as Hws3.
  destruct (skip_ws r3) as [|c3 r4] eqn:Hr3; [discriminate|].
  cbn [length] in Hws3.
  destruct (c3 =? quote) eqn:Hc3; [|discriminate].
  destruct (obj r4) as [[ps' r5]|] eqn:Ho; [|discriminate].
  injection Hs as <- <-. pose proof (Sobj _ _ _ Ho) as Ho0.
  rewrite (Hval _ _ _ Hv); [|lia]. rewrite Hr2, Hc2, Hc2', Hr3, Hc3.
  rewrite (Hobj _ _ _ Ho); [reflexivity|lia].
Qed.

(** Whatever some fuel reads, a fuel no smaller than the number of
    characters read reads as well. *)
Lemma scanners_need_little fuel :
  forall big,
    upto fuel (scan_once big) (scan_once fuel)
    /\ upto fuel (array_items big) (array_items fuel)
    /\ upto fuel (object_items big) (object_items fuel).
Proof.
  induction fuel as [|fuel IH]; intros big.
  - destruct (scanners_shorten big) as (Hval & Harr & Hobj).
    repeat split; intros s x r Hs Hlen;
      [apply Hval in Hs|apply Harr in Hs|apply Hobj in Hs]; lia.
  - destruct big as [|big]; [repeat split; intros s x r; discriminate|].
    destruct (IH big) as (Uval & Uarr & Uobj).
    destruct (scanners_shorten big) as (Hval & Harr & Hobj).
    repeat split; intros s x r.
    + rewrite !scan_once_S. now apply scan_value_upto.
    + rewrite !array_items_S. now apply scan_array_upto.
    + rewrite !object_items_S. now apply scan_object_upto.
Qed.

(** More fuel never changes a result. *)
Lemma scanners_monotone fuel :
  forall big n, (fuel <= big)%nat ->
    upto n (scan_once fuel) (scan_once big)
    /\ upto n (array_items fuel) (array_items big)
    /\ upto n (object_items fuel) (object_items big).
Proof.
  induction fuel as [|fuel IH]; intros big n Hle.
  - repeat split; intros s x r; discriminate.
  - destruct big as [|big]; [lia|].
    destruct (scanners_shorten fuel) as (Hval & Harr & Hobj).
    destruct (scanners_shorten (S fuel)) as (Hval' & Harr' & Hobj').
    destruct n as [|n].
    + repeat split; intros s x r Hs Hlen;
        [apply Hval' in Hs|apply Harr' in Hs|apply Hobj' in Hs]; lia.
    + destruct (IH big n ltac:(lia)) as (Uval & Uarr & Uobj).
      repeat split; intros s x r.
      * rewrite !scan_once_S. now apply scan_value_upto.
      * rewrite !array_items_S. now apply scan_array_upto.
      * rewrite !object_items_S. now apply scan_object_upto.
Qed.

(** The fuel [loads] gives the scanner is never what makes it fail: every
    larger fuel reads the same value, or fails as well. *)
Lemma scan_once_fuel (s t : pystr) fuel :
  (length t <= length s)%nat -> (S (length s) <= fuel)%nat ->
  scan_once fuel t = scan_once (S (length s)) t.
Proof.
  intros Ht Hfuel.
  destruct (scan_once fuel t) as [[v r]|] eqn:Hbig.
  - symmetry.
    apply (proj1 (scanners_need_little (S (length s)) fuel) _ _ _ Hbig). lia.
  - destruct (scan_once (S (length s)) t) as [[v r]|] eqn:Hsmall;
      [|reflexivity].
    assert (Hsame : scan_once fuel t = Some (v, r)); [|congruence].
    apply (proj1 (scanners_monotone _ fuel (length t) Hfuel) _ _ _ Hsmall).
    lia.
Qed.

Lemma loads_fuel (s : pystr) fuel :
  (S (length s) <= fuel)%nat ->
  loads s =
    if startswith [65279] s then None
    else
      match scan_once fuel (skip_ws s) with
      | Some (v, r) =>
          match skip_ws r with [] => Some v | _ :: _ => None end
      | None => None
      end.
Proof.
  intros Hfuel. unfold loads.
  rewrite (scan_once_fuel s (skip_ws s) fuel (skip_ws_length s) Hfuel).
  reflexivity.
Qed.

End Fuel.

(* ===================================================================== *)
(** ** Reading the inbound slot: other JSON, a call that raises *)
(* ===================================================================== *)

Section InputErrors.
Context `{PyFloat} `{!Psm}.

(** X1. A slot that holds JSON other than an object. When the inbound slot
    holds JSON text whose value is not a dict (a list, a number, a string,
    [null]) and no call raises, [update_inputs] prints the line about
    non-object JSON and returns: no call of [psm.set_var] is made, the
    controller and the files are as they were. *)
Theorem update_inputs_skips_other_json (w : world) data text v :
  quiet w -> fs w !! PSM.INPUT_PATH = Some data ->
  utf8_decode data = Some text -> loads text = Some v -> is_dict v = false ->
  exists w',
    PSM.update_inputs w = (Ok tt, w') /\
    stdout w' = stdout w ++ [PsmIgnoringNonObject] /\
    set_var_calls (trace w') = set_var_calls (trace w) /\
    controller w' = controller w /\ fs w' = fs w.
Proof.
  intros Hq Hfs Hdec Hload Hv.
  rewrite (update_inputs_non_object w data text v) by assumption.
  eexists. split; [reflexivity|].
  cbn [stdout trace controller fs tick emit].
  repeat split. rewrite set_var_calls_app. cbn. apply app_nil_r.
Qed.

Lemma for_each_apply_fault entries : forall w j e,
  quiet_for j w -> faults w (clock w + j)%nat = Some e ->
  (j < length (forwarded entries))%nat ->
  exists w',
    for_each entries PSM.apply_entry w = (Raise e, w') /\
    trace w' = trace w ++ List.map (fun kv => EvSetVar (fst kv) (snd kv))
                            (firstn (S j) (forwarded entries)) /\
    controller w' = after_set_vars (firstn j (forwarded entries)) (controller w) /\
    stdout w' = stdout w /\ fs w' = fs w.
Proof.
  induction entries as [|[k v] entries IH]; intros w j e Hq He Hj.
  - cbn in Hj. lia.
  - rewrite for_each_cons. rewrite forwarded_cons in *. cbn [fst snd] in *.
    unfold PSM.apply_entry at 1.
    destruct (startswith (str "%") k) eqn:Hk; cbn [negb].
    + unfold bind, psm_set_var, external.
      destruct j as [|j].
      * rewrite Nat.add_0_r in He. rewrite He.
        eexists. split; [reflexivity|]. cbn [trace controller stdout fs tick emit].
        repeat split.
      * pose proof (Hq 0%nat ltac:(lia)) as Hq0. rewrite Nat.add_0_r in Hq0.
        rewrite Hq0.
        destruct (IH (set_controller (plc_set_var (drop_chars 1 k) v)
                        (tick (emit (EvSetVar (drop_chars 1 k) v) w))) j e)
          as (w' & Hrun & Htr & Hc & Hout & Hfs).
        { intros i Hi. cbn [faults clock set_controller tick emit].
          rewrite <- (Hq (S i) ltac:(lia)). f_equal. lia. }
        { cbn [faults clock set_controller tick emit]. rewrite <- He. f_equal. lia. }
        { cbn [length] in Hj. lia. }
        exists w'. split; [exact Hrun|].
        rewrite Htr, Hc, Hout, Hfs.
        cbn [trace controller stdout fs set_controller tick emit].
        repeat split. rewrite <- app_assoc. reflexivity.
    + unfold bind, ret.
      destruct (IH w j e Hq He Hj) as (w' & Hrun & Hrest).
      exists w'. split; [exact Hrun|exact Hrest].
Qed.


(** X2. A call of [psm.set_var] that raises stops the loop where it is.
    The inbound slot holds an object; the read and the first [j] calls of
    [psm.set_var] return, and call number [j + 1] raises an [Exception]
    [e]. Then [update_inputs] prints the error and returns. The calls it
    made are those for the first [j + 1] forwarded entries, the controller
    has received the first [j] of them, and no later entry is looked at:
    what was applied is not undone. *)
Theorem update_inputs_stops_at_failed_call (w : world) text entries j e :
  slot_holds w PSM.INPUT_PATH text -> loads text = Some (JObj entries) ->
  quiet_for (S j) w -> faults w (clock w + S j)%nat = Some e ->
  is_Exception e = true -> (j < length (forwarded entries))%nat ->
  exists w',
    PSM.update_inputs w = (Ok tt, w') /\
    set_var_calls (trace w')
      = set_var_calls (trace w) ++ firstn (S j) (forwarded entries) /\
    controller w'
      = after_set_vars (firstn j (forwarded entries)) (controller w) /\
    stdout w' = stdout w ++ [PsmErrorInUpdateInputs e].
Proof.
  intros (data & Hfs & Hdec) Hload Hq He Hexc Hj.
  unfold PSM.update_inputs, try_except.
  rewrite (bind_ok _ _ _ _ _ (os_path_exists_some _ _ _ Hfs)). cbn [negb].
  unfold bind at 1. unfold read_text, external.
  pose proof (Hq 0%nat ltac:(lia)) as Hq0. rewrite Nat.add_0_r in Hq0.
  rewrite Hq0. cbn [fs tick emit]. rewrite Hfs, Hdec.
  unfold bind at 1. unfold json_loads. rewrite Hload. unfold ret at 1.
  destruct (for_each_apply_fault entries
              (tick (emit (EvOpenRead PSM.INPUT_PATH) w)) j e)
    as (w' & Hrun & Htr & Hc & Hout & _).
  { intros i Hi. cbn [faults clock tick emit].
    rewrite <- (Hq (S i) ltac:(lia)). f_equal. lia. }
  { cbn [faults clock tick emit]. rewrite <- He. f_equal. lia. }
  { exact Hj. }
  rewrite Hrun. cbn [handle]. rewrite Hexc.
  eexists. split; [reflexivity|].
  cbn [trace controller stdout print]. rewrite Htr, Hc, Hout.
  cbn [trace controller stdout tick emit]. repeat split.
  rewrite <- app_assoc, !set_var_calls_app, set_var_calls_map. reflexivity.
Qed.

End InputErrors.

(* ===================================================================== *)
(** ** A write that raises: the slot is whole or as it was *)
(* ===================================================================== *)

Section WriteErrors.
Context `{PyFloat} `{!Psm}.

#[local] Instance only_files_preorder : PreOrder only_files.
Proof.
  split.
  - intros w. repeat split.
  - intros a b c (H1 & H2 & H3 & H4) (H5 & H6 & H7 & H8).
    repeat split; congruence.
Qed.

Ltac files_prim :=
  apply keeps_external; [apply _ | intros ?; repeat split |];
  intros ?; unfold flush_buffer; repeat case_match; simplify_eq;
  repeat split.

Lemma files_NamedTemporaryFile dir : keeps only_files (NamedTemporaryFile dir).
Proof.
  intros w. unfold NamedTemporaryFile.
  pose proof (free_name_spec TMP_MAX dir w) as Hfree.
  destruct (free_name TMP_MAX dir w) as [[file|] w0];
    destruct Hfree as (_ & _ & Hout & _ & Hc & _ & Hf & Hn & _).
  - assert (Hw0 : only_files w w0) by (repeat split; assumption).
    etransitivity; [exact Hw0|].
    apply (keeps_external only_files); [intros ?; repeat split|].
    intros ?; repeat split.
  - repeat split; assumption.
Qed.

Lemma files_atomic_write path obj :
  keeps only_files (PSM._atomic_write_json path obj).
Proof.
  unfold PSM._atomic_write_json.
  apply keeps_bind; [apply _|apply files_NamedTemporaryFile|]. intros tf.
  apply keeps_bind; [apply _| |].
  - apply keeps_with_file; [apply _| |unfold tf_close; files_prim].
    apply keeps_bind; [apply _|unfold json_dump; files_prim|]. intros _.
    apply keeps_bind; [apply _|unfold tf_flush; files_prim|]. intros _.
    apply keeps_bind; [apply _|unfold os_fsync; files_prim|]. intros _.
    apply keeps_ret. apply _.
  - intros temp_name. unfold os_replace. files_prim.
Qed.


(** A guarded write of [obj] to the slot [path]: the slot ends with the
    whole text and nothing is printed, or it ends as it was and what was
    raised is an [Exception]. *)
Lemma guarded_write path obj w r w' :
  tmp_apart (PSM.directory_of path) path w -> only_errors w ->
  PSM._atomic_write_json path obj w = (r, w') ->
  only_files w w' /\
  match r with
  | Ok _ => fs w' !! path = Some (dumps obj)
  | Raise e => fs w' !! path = fs w !! path /\ is_Exception e = true
  end.
Proof.
  intros Hapart Herr Hrun. split.
  - pose proof (files_atomic_write path obj w) as Hk. rewrite Hrun in Hk.
    exact Hk.
  - destruct (atomic_write_any path obj w r w' Hapart Hrun) as [_ Hfs].
    destruct r as [a|e].
    + destruct Hfs as (data & Henc & Hfs). rewrite utf8_encode_dumps in Henc.
      congruence.
    + split; [exact Hfs|].
      destruct (tame_PSM_atomic_write path obj) as [_ Ht].
      apply (Ht w e Herr). rewrite Hrun. reflexivity.
Qed.

(** X3. [hardware_init] guards the write, not the start. If [psm.start()]
    raises, [hardware_init] raises the same exception and has done nothing
    else. If [psm.start()] returns, then whatever [Exception]s the later
    calls raise, [hardware_init] returns with the runtime started: either
    the outbound slot holds the empty object and nothing was printed, or
    the slot is as it was and the one line printed is the init warning. *)
Theorem hardware_init_fails_only_at_start (w : world) :
  (forall e, faults w (clock w) = Some e ->
             PSM.hardware_init w = (Raise e, tick (emit EvPsmStart w))) /\
  (faults w (clock w) = None -> only_errors w ->
   exists w',
     PSM.hardware_init w = (Ok tt, w') /\
     controller w' = plc_start (controller w) /\
     ((fs w' !! PSM.OUTPUT_PATH = Some (str "{}") /\ stdout w' = stdout w) \/
      (exists e,
          fs w' !! PSM.OUTPUT_PATH = fs w !! PSM.OUTPUT_PATH /\
          stdout w' = stdout w ++ [PsmInitWarning PSM.OUTPUT_PATH e]))).
Proof.
  split.
  - intros e He. unfold PSM.hardware_init, bind, psm_start, external.
    rewrite He. reflexivity.
  - intros Hnone Herr.
    unfold PSM.hardware_init, bind, psm_start, external. rewrite Hnone.
    set (w0 := set_controller plc_start (tick (emit EvPsmStart w))).
    unfold try_except.
    destruct (PSM._atomic_write_json PSM.OUTPUT_PATH (JObj []) w0)
      as [[[]|e] w1] eqn:Hrun;
      destruct (guarded_write _ _ _ _ _ (proj2 (tmp_apart_slots w0))
                  (fun n e => Herr n e) Hrun)
        as [(Hout & Hc & _ & _) Hfs].
    + exists w1. split; [reflexivity|]. split; [exact Hc|]. left.
      split; [exact Hfs|exact Hout].
    + destruct Hfs as [Hfs Hexc]. cbn [handle]. rewrite Hexc.
      eexists. split; [reflexivity|]. cbn [controller fs stdout print].
      split; [exact Hc|]. right. exists e. rewrite Hfs, Hout. split; reflexivity.
Qed.


(** Reading the exported variables changes neither a file nor the
    controller, and what it returns is the snapshot. *)
Lemma collect_any vars : forall output w r w',
  PSM.collect vars output w = (r, w') ->
  fs w' = fs w /\ only_files w w' /\
  forall o, r = Ok o -> o = collected vars (controller w) output.
Proof.
  induction vars as [|addr vars IH]; intros output w r w'; cbn [PSM.collect].
  - intros [= <- <-]. repeat split. intros o [= <-]. reflexivity.
  - unfold bind at 1. unfold psm_get_var, external.
    destruct (faults w (clock w)).
    + intros [= <- <-]. repeat split. discriminate.
    + intros Hrun. apply IH in Hrun. cbn [fs stdout controller faults tmp_names
                                            tick emit] in Hrun.
      exact Hrun.
Qed.

(** X4. [update_outputs] whatever [Exception]s the external calls raise:
    it returns and the controller is not changed; either the outbound slot
    holds the text of the whole snapshot and nothing was printed, or the
    slot is as it was and exactly one error line was printed. *)
Theorem update_outputs_replaces_or_logs (vars : list pystr) (w : world) :
  only_errors w ->
  exists w',
    PSM.update_outputs_of vars w = (Ok tt, w') /\
    controller w' = controller w /\
    ((fs w' !! PSM.OUTPUT_PATH
        = Some (dumps (JObj (collected vars (controller w) []))) /\
      stdout w' = stdout w) \/
     (exists e,
         fs w' !! PSM.OUTPUT_PATH = fs w !! PSM.OUTPUT_PATH /\
         stdout w' = stdout w ++ [PsmErrorInUpdateOutputs e])).
Proof.
  intros Herr. unfold PSM.update_outputs_of, try_except. unfold bind at 1.
  destruct (PSM.collect vars [] w) as [[output|e] w0] eqn:Hcollect;
    destruct (collect_any _ _ _ _ _ Hcollect)
      as (Hfs0 & (Hout0 & Hc0 & Hf0 & _) & Hsnap).
  - rewrite (Hsnap output eq_refl).
    assert (Herr0 : only_errors w0).
    { intros n e. rewrite Hf0. apply Herr. }
    destruct (PSM._atomic_write_json PSM.OUTPUT_PATH _ w0)
      as [[[]|e] w1] eqn:Hrun;
      destruct (guarded_write _ _ _ _ _ (proj2 (tmp_apart_slots w0)) Herr0 Hrun)
        as [(Hout & Hc & _ & _) Hfs].
    + exists w1. split; [reflexivity|]. split; [congruence|]. left.
      split; [exact Hfs|congruence].
    + destruct Hfs as [Hfs Hexc]. cbn [handle]. rewrite Hexc.
      eexists. split; [reflexivity|]. cbn [controller fs stdout print].
      split; [congruence|]. right. exists e.
      rewrite Hfs, Hfs0, Hout, Hout0. split; reflexivity.
  - destruct (tame_collect vars []) as [_ Ht].
    assert (Hexc : is_Exception e = true).
    { apply (Ht w e Herr). rewrite Hcollect. reflexivity. }
    cbn [handle]. rewrite Hexc.
    eexists. split; [reflexivity|]. cbn [controller fs stdout print].
    split; [exact Hc0|]. right. exists e. rewrite Hfs0, Hout0.
    split; reflexivity.
Qed.


(** X5. [on_message] for a payload that decodes to an object, whatever
    [Exception]s the external calls raise: it returns; either the inbound
    slot holds the text of the whole object and the line that reports the
    write follows the warning about the keys, or the slot is as it was and
    one error line follows the warning about the keys. *)
Theorem on_message_replaces_or_logs (payload : pybytes) (w : world) text entries :
  utf8_decode payload = Some text -> loads text = Some (JObj entries) ->
  only_errors w ->
  exists w',
    InputBridge.on_message payload w = (Ok tt, w') /\
    ((fs w' !! InputBridge.INPUT_PATH = Some (dumps (JObj entries)) /\
      stdout w' = stdout w ++ key_warning entries
                    ++ [InWrote InputBridge.INPUT_PATH (JObj entries)]) \/
     (exists e,
         fs w' !! InputBridge.INPUT_PATH = fs w !! InputBridge.INPUT_PATH /\
         stdout w' = stdout w ++ key_warning entries
                       ++ [if is_JSONDecodeError e then InNotValidJson
                           else InError e])).
Proof.
  intros Hdec Hload Herr.
  unfold InputBridge.on_message. unfold try_except.
  unfold bind at 1. unfold InputBridge.decode_payload. rewrite Hdec.
  unfold ret at 1. unfold bind at 1. unfold json_loads. rewrite Hload.
  unfold ret at 1.
  set (w1 := World (fs w) (buffers w) (stdout w ++ key_warning entries) (trace w)
                   (controller w) (clock w) (faults w) (tmp_seq w) (tmp_names w)).
  assert (Hwarn : (match InputBridge.bad_keys_of entries with
                   | [] => ret tt
                   | _ :: _ => print (InWarningKeys (InputBridge.bad_keys_of entries))
                   end) w = (Ok tt, w1)).
  { subst w1. unfold key_warning.
    destruct (InputBridge.bad_keys_of entries); [|reflexivity].
    unfold ret. rewrite app_nil_r. destruct w; reflexivity. }
  erewrite bind_ok by exact Hwarn.
  change (InputBridge.atomically_write_json InputBridge.INPUT_PATH (JObj entries))
    with (PSM._atomic_write_json InputBridge.INPUT_PATH (JObj entries)).
  unfold bind at 1.
  destruct (PSM._atomic_write_json InputBridge.INPUT_PATH (JObj entries) w1)
    as [[[]|e] w2] eqn:Hrun;
    destruct (guarded_write _ _ _ _ _ (proj1 (tmp_apart_slots w1))
                (fun n e => Herr n e) Hrun)
      as [(Hout & _ & _ & _) Hfs].
  - eexists. split; [reflexivity|]. left. cbn [fs stdout print].
    split; [exact Hfs|]. rewrite Hout. subst w1. cbn [stdout].
    rewrite <- app_assoc. reflexivity.
  - destruct Hfs as [Hfs Hexc]. cbn [handle]. rewrite Hexc.
    destruct (is_JSONDecodeError e) eqn:Hj;
      (eexists; split; [reflexivity|]; right; exists e; rewrite Hj;
       cbn [fs stdout print]; split; [exact Hfs|]; rewrite Hout; subst w1;
       cbn [stdout]; rewrite <- app_assoc; reflexivity).
Qed.

End WriteErrors.

(* ===================================================================== *)
(** ** After init: the outbound slot, if the write went through (C8) *)
(* ===================================================================== *)

Section InitWrite.
Context `{PyFloat} `{!Psm}.

(** C8, as the code has it. [hardware_init] writes the empty object to the
    outbound slot inside a guard, so the slot is pre-created on a best
    effort. When no call raises and the first temporary name is free,
    [psm.start()] was called first, the slot holds the two characters of
    the empty object, the outbound adapter's read returns the empty dict,
    not [None], and this is still so after the [update_inputs] of the
    first scan, however that one ends. But when [psm.start()] returns and
    the later calls raise [Exception]s, [hardware_init] still returns:
    either the slot holds the empty object and nothing was printed, or the
    write failed, the one line printed is the warning and the slot is as
    it was before init - if it did not exist it still does not, and the
    read of the outbound adapter returns [None]. *)
Theorem init_writes_empty_slot_or_warns (w : world) :
  (quiet w -> fresh_tmp "/tmp" w ->
   exists w',
     PSM.hardware_init w = (Ok tt, w') /\
     (exists t, trace w' = trace w ++ EvPsmStart :: t) /\
     stdout w' = stdout w /\
     fs w' !! OutputBridge.OUTPUT_PATH = Some (str "{}") /\
     (exists w2,
         OutputBridge.read_json_if_ready OutputBridge.OUTPUT_PATH w'
           = (Ok (JObj []), w2)) /\
     (forall r w1,
         PSM.update_inputs w' = (r, w1) ->
         fs w1 !! OutputBridge.OUTPUT_PATH = Some (str "{}") /\
         exists w2,
           OutputBridge.read_json_if_ready OutputBridge.OUTPUT_PATH w1
             = (Ok (JObj []), w2))) /\
  (faults w (clock w) = None -> only_errors w ->
   exists w',
     PSM.hardware_init w = (Ok tt, w') /\
     (exists t, trace w' = trace w ++ EvPsmStart :: t) /\
     ((fs w' !! OutputBridge.OUTPUT_PATH = Some (str "{}") /\
       stdout w' = stdout w) \/
      (exists e,
          is_Exception e = true /\
          stdout w' = stdout w ++ [PsmInitWarning PSM.OUTPUT_PATH e] /\
          fs w' !! OutputBridge.OUTPUT_PATH = fs w !! OutputBridge.OUTPUT_PATH /\
          (fs w !! OutputBridge.OUTPUT_PATH = None ->
           OutputBridge.read_json_if_ready OutputBridge.OUTPUT_PATH w'
             = (Ok JNull, w'))))) /\
  (forall e,
      faults w (clock w) = None -> faults w (S (clock w)) = Some e ->
      is_Exception e = true -> fresh_tmp "/tmp" w ->
      exists w',
        PSM.hardware_init w = (Ok tt, w') /\
        fs w' = fs w /\
        stdout w' = stdout w ++ [PsmInitWarning PSM.OUTPUT_PATH e]).
Proof.
  split; [|split].
  - intros Hq Hfresh.
    destruct (hardware_init_quiet w Hq Hfresh)
      as (w' & Hrun & Hfs & Hout & Hq' & Htr).
    assert (Hslot : fs w' !! OutputBridge.OUTPUT_PATH = Some (str "{}")).
    { rewrite Hfs. apply lookup_insert_eq. }
    exists w'. split; [exact Hrun|]. split; [exact Htr|].
    split; [exact Hout|]. split; [exact Hslot|]. split.
    + eexists. eapply read_value; [exact Hq'|exact Hslot|discriminate| |];
        reflexivity.
    + intros r w1 Hin.
      pose proof (update_inputs_same_files w') as Hsame. rewrite Hin in Hsame.
      cbn [snd] in Hsame. unfold same_files in Hsame.
      destruct (update_inputs_returns w' (quiet_only_errors w' Hq'))
        as (a & w1' & Hin' & Hplan).
      rewrite Hin in Hin'. injection Hin' as -> ->.
      assert (Hslot1 : fs w1' !! OutputBridge.OUTPUT_PATH = Some (str "{}")).
      { rewrite Hsame. exact Hslot. }
      split; [exact Hslot1|].
      eexists. eapply read_value;
        [eapply quiet_same_plan; eassumption|exact Hslot1|discriminate| |];
        reflexivity.
  - intros Hnone Herr.
    unfold PSM.hardware_init, bind, psm_start, external. rewrite Hnone.
    set (w0 := set_controller plc_start (tick (emit EvPsmStart w))).
    unfold try_except.
    destruct (PSM._atomic_write_json PSM.OUTPUT_PATH (JObj []) w0)
      as [[[]|e] w1] eqn:Hrun;
      destruct (guarded_write _ _ _ _ _ (proj2 (tmp_apart_slots w0))
                  (fun n e => Herr n e) Hrun)
        as [(Hout & _ & _ & _) Hfs];
      destruct (atomic_write_any _ _ _ _ _ (proj2 (tmp_apart_slots w0)) Hrun)
        as [(t & Ht & _) _].
    + exists w1. split; [reflexivity|]. split.
      * exists t. rewrite Ht. subst w0. cbn [trace set_controller tick emit].
        rewrite <- app_assoc. reflexivity.
      * left. split; [exact Hfs|exact Hout].
    + destruct Hfs as [Hfs Hexc]. cbn [handle]. rewrite Hexc.
      eexists. split; [reflexivity|]. cbn [trace fs stdout print]. split.
      * exists t. rewrite Ht. subst w0. cbn [trace set_controller tick emit].
        rewrite <- app_assoc. reflexivity.
      * right. exists e. split; [exact Hexc|]. rewrite Hout.
        split; [reflexivity|]. split; [exact Hfs|].
        intros Habsent. apply read_missing. cbn [fs].
        change OutputBridge.OUTPUT_PATH with PSM.OUTPUT_PATH.
        rewrite Hfs. exact Habsent.
  - intros e Hnone He Hexc Hfresh.
    unfold PSM.hardware_init, bind, psm_start, external. rewrite Hnone.
    set (w0 := set_controller plc_start (tick (emit EvPsmStart w))).
    unfold try_except, PSM._atomic_write_json.
    unfold bind at 1. unfold NamedTemporaryFile.
    destruct TMP_MAX_pos as [n ->].
    rewrite (free_name_fresh n (PSM.directory_of PSM.OUTPUT_PATH) w0 Hfresh).
    unfold external. cbn [faults clock draw_name]. subst w0.
    cbn [faults clock set_controller tick emit]. rewrite He.
    cbn [handle]. rewrite Hexc. eexists. split; [reflexivity|].
    split; reflexivity.
Qed.

End InitWrite.


(* ===================================================================== *)
(** ** What a failed write leaves *)
(* ===================================================================== *)

Section Leftovers.
Context `{PyFloat} `{!Psm}.

#[local] Instance keeps_tmp_preorder tf : PreOrder (keeps_tmp tf).
Proof.
  split.
  - intros w. split; [reflexivity|tauto].
  - intros a b c [H1 H2] [H3 H4]. split; [|tauto].
    intros p Hp. rewrite H3, H1 by assumption. reflexivity.
Qed.





End Leftovers.

(* ===================================================================== *)
(** ** The order of the calls of a scan *)
(* ===================================================================== *)

Section ScanOrder.
Context `{PyFloat} `{!Psm}.

Lemma applied_names entries w :
  tmp_seq (applied entries w) = tmp_seq w /\
  tmp_names (applied entries w) = tmp_names w /\
  faults (applied entries w) = faults w.
Proof.
  revert w; induction entries as [|kv entries IH]; intros w.
  - repeat split.
  - rewrite applied_cons. destruct (IH
      (if startswith (str "%") (fst kv)
       then set_controller (plc_set_var (drop_chars 1 (fst kv)) (snd kv))
              (tick (emit (EvSetVar (drop_chars 1 (fst kv)) (snd kv)) w))
       else w)) as (-> & -> & ->).
    destruct (startswith (str "%") (fst kv)); repeat split.
Qed.

Lemma polled_trace vars w :
  trace (polled vars w) = trace w ++ List.map EvGetVar vars.
Proof.
  revert w; induction vars as [|a vars IH]; intros w.
  - cbn. rewrite app_nil_r. reflexivity.
  - change (polled (a :: vars) w) with (polled vars (tick (emit (EvGetVar a) w))).
    rewrite IH. cbn [trace tick emit List.map]. rewrite <- app_assoc. reflexivity.
Qed.

(** The run of [update_outputs] when no call raises and the first
    temporary name is free, call by call. *)
Lemma update_outputs_run vars w :
  quiet w -> fresh_tmp "/tmp" w ->
  exists w',
    PSM.update_outputs_of vars w = (Ok tt, w') /\
    fs w' = <[PSM.OUTPUT_PATH :=
                dumps (JObj (collected vars (controller w) []))]> (fs w) /\
    trace w' =
      trace w ++ List.map EvGetVar vars ++
      [ EvMkstemp "/tmp" (tmp_of "/tmp" w);
        EvWrite (tmp_of "/tmp" w)
          (dumps (JObj (collected vars (controller w) [])));
        EvFlush (tmp_of "/tmp" w); EvFsync (tmp_of "/tmp" w);
        EvClose (tmp_of "/tmp" w);
        EvReplace (tmp_of "/tmp" w) PSM.OUTPUT_PATH ] /\
    only_files w w'.
Proof.
  intros Hq Hfresh. unfold PSM.update_outputs_of.
  destruct (polled_fields vars w) as (Hfs & Hout & Hctl & Hpl & Hseq & Hnames).
  destruct (atomic_write_quiet PSM.OUTPUT_PATH
              (JObj (collected vars (controller w) []))
              (dumps (JObj (collected vars (controller w) []))) (polled vars w))
    as (w2 & Hrun & Hfs2 & Htr2 & Hout2 & Hctl2 & Hplan).
  { intros n. rewrite Hpl. apply Hq. }
  { unfold fresh_tmp. rewrite Hfs, Hseq, Hnames. exact Hfresh. }
  { apply utf8_encode_dumps. }
  pose proof (files_atomic_write PSM.OUTPUT_PATH
                (JObj (collected vars (controller w) [])) (polled vars w)) as Hk.
  rewrite Hrun in Hk. cbn [snd] in Hk. destruct Hk as (_ & _ & _ & Hnames2).
  exists w2. split; [|split; [|split]].
  - apply try_except_ok. erewrite bind_ok by (apply collect_quiet, Hq). exact Hrun.
  - rewrite Hfs2, Hfs. reflexivity.
  - rewrite Htr2, polled_trace, <- app_assoc.
    change (PSM.directory_of PSM.OUTPUT_PATH) with "/tmp"%string.
    unfold tmp_of. rewrite Hseq, Hnames. reflexivity.
  - unfold only_files. rewrite Hout2, Hctl2, Hplan, Hnames2.
    repeat split; assumption.
Qed.

(** X7. One scan applies the inputs before it reads the outputs. When no
    call raises, the first temporary name is free and the inbound slot
    holds an object, the calls of a scan are, in this order: the read of
    the inbound slot, [psm.set_var] for each forwarded entry,
    [psm.get_var] for each exported variable, and the six calls of the
    write. The snapshot written is the one read from the controller after
    the inputs were applied. *)
Theorem scan_applies_inputs_before_outputs (w : world) text entries :
  quiet w -> fresh_tmp "/tmp" w ->
  slot_holds w PSM.INPUT_PATH text -> loads text = Some (JObj entries) ->
  let c' := after_set_vars (forwarded entries) (controller w) in
  let snapshot := dumps (JObj (collected PSM.OUTPUT_VARS c' [])) in
  exists w',
    PSM.scan w = (Ok tt, w') /\
    controller w' = c' /\
    fs w' = <[PSM.OUTPUT_PATH := snapshot]> (fs w) /\
    trace w' =
      trace w ++ EvOpenRead PSM.INPUT_PATH
        :: List.map (fun kv => EvSetVar (fst kv) (snd kv)) (forwarded entries)
        ++ List.map EvGetVar PSM.OUTPUT_VARS
        ++ [ EvMkstemp "/tmp" (tmp_of "/tmp" w);
             EvWrite (tmp_of "/tmp" w) snapshot;
             EvFlush (tmp_of "/tmp" w); EvFsync (tmp_of "/tmp" w);
             EvClose (tmp_of "/tmp" w);
             EvReplace (tmp_of "/tmp" w) PSM.OUTPUT_PATH ].
Proof.
  intros Hq Hfresh Hslot Hload c' snapshot.
  pose proof (update_inputs_object w text entries Hq Hslot Hload) as Hin.
  set (w1 := applied entries (tick (emit (EvOpenRead PSM.INPUT_PATH) w))) in Hin.
  destruct (applied_names entries (tick (emit (EvOpenRead PSM.INPUT_PATH) w)))
    as (Hseq & Hnames & Hpl).
  destruct (applied_rest entries (tick (emit (EvOpenRead PSM.INPUT_PATH) w)))
    as (Hfs & _).
  fold w1 in Hseq, Hnames, Hpl, Hfs.
  cbn [tmp_seq tmp_names faults fs tick emit] in Hseq, Hnames, Hpl, Hfs.
  assert (Hc1 : controller w1 = c').
  { subst w1 c'. rewrite applied_controller. reflexivity. }
  assert (Htr1 : trace w1 = trace w ++ EvOpenRead PSM.INPUT_PATH
                   :: List.map (fun kv => EvSetVar (fst kv) (snd kv))
                        (forwarded entries)).
  { subst w1. rewrite applied_trace. cbn [trace tick emit].
    rewrite <- app_assoc. reflexivity. }
  destruct (update_outputs_run PSM.OUTPUT_VARS w1)
    as (w2 & Hrun & Hfs2 & Htr2 & (_ & Hc2 & _ & _)).
  { intros n. rewrite Hpl. apply Hq. }
  { unfold fresh_tmp. rewrite Hfs, Hseq, Hnames. exact Hfresh. }
  exists w2. split; [|split; [|split]].
  - unfold PSM.scan. erewrite bind_ok by exact Hin. exact Hrun.
  - congruence.
  - rewrite Hfs2, Hc1, Hfs. reflexivity.
  - rewrite Htr2, Htr1, Hc1, <- app_assoc. cbn [app].
    unfold tmp_of. rewrite Hseq, Hnames. reflexivity.
Qed.

End ScanOrder.

(* ===================================================================== *)
(** ** Starting and stopping the runtime *)
(* ===================================================================== *)

Section Lifecycle.
Context `{PyFloat} `{!Psm}.

#[local] Instance no_lifecycle_preorder : PreOrder no_lifecycle.
Proof.
  split.
  - intros w. exists []. rewrite app_nil_r. split; [reflexivity|constructor].
  - intros a b c (t1 & H1 & F1) (t2 & H2 & F2). exists (t1 ++ t2).
    rewrite H2, H1, <- app_assoc. split; [reflexivity|].
    apply Forall_app. split; assumption.
Qed.

Lemma nl_same_trace w w' : trace w' = trace w -> no_lifecycle w w'.
Proof.
  intros Ht. exists []. rewrite app_nil_r. split; [exact Ht|constructor].
Qed.

Lemma nl_external {A} ev (effect : M A) :
  lifecycle ev = false -> (forall w, trace (snd (effect w)) = trace w) ->
  keeps no_lifecycle (external ev effect).
Proof.
  intros Hev Htr. apply keeps_external; [apply _| |].
  - intros w. exists [ev]. split; [reflexivity|]. repeat constructor. exact Hev.
  - intros w. apply nl_same_trace, Htr.
Qed.

Ltac nl_prim :=
  apply nl_external; [reflexivity|];
  intros ?; unfold flush_buffer; repeat case_match; simplify_eq; reflexivity.

Lemma nl_print line : keeps no_lifecycle (print line).
Proof. intros w. apply nl_same_trace. reflexivity. Qed.

Lemma nl_NamedTemporaryFile dir : keeps no_lifecycle (NamedTemporaryFile dir).
Proof.
  intros w. unfold NamedTemporaryFile.
  pose proof (free_name_spec TMP_MAX dir w) as Hfree.
  destruct (free_name TMP_MAX _ w) as [[file|] w0];
    destruct Hfree as (_ & _ & _ & Htr & _).
  - etransitivity; [apply nl_same_trace, Htr|].
    apply (nl_external (EvMkstemp dir file));
      [reflexivity|intros ?; reflexivity].
  - apply nl_same_trace, Htr.
Qed.

Lemma nl_write_block obj tf :
  keeps no_lifecycle
    (with_file tf (json_dump obj tf ;;; tf_flush tf ;;; os_fsync tf ;;; ret tf)).
Proof.
  apply keeps_with_file; [apply _| |unfold tf_close; nl_prim].
  apply keeps_bind; [apply _|unfold json_dump; nl_prim|]. intros _.
  apply keeps_bind; [apply _|unfold tf_flush; nl_prim|]. intros _.
  apply keeps_bind; [apply _|unfold os_fsync; nl_prim|]. intros _.
  apply keeps_ret. apply _.
Qed.

Lemma nl_atomic_write path obj :
  keeps no_lifecycle (PSM._atomic_write_json path obj).
Proof.
  unfold PSM._atomic_write_json.
  apply keeps_bind; [apply _|apply nl_NamedTemporaryFile|intros tf].
  apply keeps_bind; [apply _|apply nl_write_block|intros temp_name].
  unfold os_replace. nl_prim.
Qed.

Lemma nl_update_inputs : keeps no_lifecycle PSM.update_inputs.
Proof.
  unfold PSM.update_inputs.
  apply keeps_try_except; [apply _| |repeat constructor; intros e; apply nl_print].
  apply keeps_bind; [apply _| |intros present].
  { intros w. apply nl_same_trace. reflexivity. }
  destruct (negb present); [apply keeps_ret; apply _|].
  apply keeps_bind; [apply _|unfold read_text; nl_prim|]. intros text.
  apply keeps_bind; [apply _| |intros data].
  { unfold json_loads. destruct (loads text);
      [apply keeps_ret|apply keeps_raise]; apply _. }
  destruct data; try apply nl_print.
  apply keeps_for_each; [apply _|]. intros [k v]. unfold PSM.apply_entry.
  destruct (negb _); [apply keeps_ret; apply _|].
  unfold psm_set_var. nl_prim.
Qed.

Lemma nl_collect vars : forall output, keeps no_lifecycle (PSM.collect vars output).
Proof.
  induction vars as [|a vars IH]; intros output; cbn [PSM.collect].
  - apply keeps_ret. apply _.
  - apply keeps_bind; [apply _|unfold psm_get_var; nl_prim|].
    intros val. apply IH.
Qed.

Lemma nl_update_outputs vars : keeps no_lifecycle (PSM.update_outputs_of vars).
Proof.
  unfold PSM.update_outputs_of.
  apply keeps_try_except; [apply _| |repeat constructor; intros e; apply nl_print].
  apply keeps_bind; [apply _|apply nl_collect|]. intros output.
  apply nl_atomic_write.
Qed.

Lemma nl_scan_loop n : keeps no_lifecycle (PSM.scan_loop n).
Proof.
  induction n as [|n IH]; cbn [PSM.scan_loop].
  - apply keeps_ret. apply _.
  - apply keeps_bind; [apply _|unfold psm_should_quit; nl_prim|].
    intros quit.
    destruct quit; [apply keeps_ret; apply _|].
    apply keeps_bind; [apply _| |intros _; exact IH].
    unfold PSM.scan.
    apply keeps_bind; [apply _|apply nl_update_inputs|]. intros _.
    apply nl_update_outputs.
Qed.

(** X8. The main block of the driver starts the runtime first and stops
    it last. However the main block ends, [psm.start()] is its first call
    and is made once, and [psm.stop()] is made at most once, as the last
    call. When the main block returns, [psm.stop()] was called if and only
    if the loop was left because [psm.should_quit()] answered true. When
    it raises, [psm.stop()] either was not called at all, or it was the
    last call and it is the call that raised. *)
Theorem main_starts_first_and_stops_last (n : nat) (w w' : world) r :
  PSM.main n w = (r, w') ->
  exists t,
    trace w' = trace w ++ EvPsmStart :: t /\
    match r with
    | Ok true =>
        exists t0, t = t0 ++ [EvPsmStop] /\
                   Forall (fun ev => lifecycle ev = false) t0
    | Ok false => Forall (fun ev => lifecycle ev = false) t
    | Raise e =>
        Forall (fun ev => lifecycle ev = false) t \/
        (exists t0, t = t0 ++ [EvPsmStop] /\
                    Forall (fun ev => lifecycle ev = false) t0 /\
                    faults w' (Nat.pred (clock w')) = Some e)
    end.
Proof.
  unfold PSM.main, PSM.hardware_init.
  unfold bind at 1. unfold bind at 1. unfold psm_start, external.
  destruct (faults w (clock w)) as [e|] eqn:Hstart.
  { intros [= <- <-]. exists []. split; [reflexivity|]. left. constructor. }
  set (w0 := set_controller plc_start (tick (emit EvPsmStart w))).
  set (init := try_except _ _).
  assert (Hinit : keeps no_lifecycle init).
  { subst init. apply keeps_try_except; [apply _|apply nl_atomic_write|].
    repeat constructor. intros e. apply nl_print. }
  specialize (Hinit w0).
  destruct (init w0) as [[[]|e] w1]; cbn [snd] in Hinit;
    destruct Hinit as (t1 & Ht1 & Hf1).
  2:{ intros [= <- <-]. exists t1. rewrite Ht1. subst w0.
      cbn [trace set_controller tick emit]. rewrite <- app_assoc.
      split; [reflexivity|]. left. exact Hf1. }
  unfold bind at 1.
  pose proof (nl_scan_loop n w1) as Hloop.
  destruct (PSM.scan_loop n w1) as [[stopped|e] w2]; cbn [snd] in Hloop;
    destruct Hloop as (t2 & Ht2 & Hf2).
  2:{ intros [= <- <-]. exists (t1 ++ t2). rewrite Ht2, Ht1. subst w0.
      cbn [trace set_controller tick emit]. rewrite <- !app_assoc.
      split; [reflexivity|]. left.
      apply Forall_app. split; assumption. }
  assert (Htr : trace w2 = trace w ++ EvPsmStart :: (t1 ++ t2)).
  { rewrite Ht2, Ht1. subst w0. cbn [trace set_controller tick emit].
    rewrite <- !app_assoc. reflexivity. }
  assert (Hf : Forall (fun ev => lifecycle ev = false) (t1 ++ t2)).
  { apply Forall_app. split; assumption. }
  destruct stopped.
  - unfold bind, psm_stop, external.
    destruct (faults w2 (clock w2)) eqn:Hstop; intros [= <- <-];
      exists ((t1 ++ t2) ++ [EvPsmStop]);
      cbn [trace set_controller tick emit]; rewrite Htr;
      (split; [rewrite <- app_assoc; reflexivity|]).
    + right. exists (t1 ++ t2). split; [reflexivity|]. split; [exact Hf|].
      cbn [faults clock tick emit Nat.pred]. exact Hstop.
    + exists (t1 ++ t2). split; [reflexivity|exact Hf].
  - unfold ret. intros [= <- <-]. exists (t1 ++ t2). split; [exact Htr|exact Hf].
Qed.

End Lifecycle.

(* ===================================================================== *)
(** ** Interrupts pass the guards *)
(* ===================================================================== *)

Section Interrupts.
Context `{PyFloat} `{!Psm}.


End Interrupts.

(* ===================================================================== *)
(** ** What a bad period does to the scan (C9) *)
(* ===================================================================== *)

Section ScanLoop.
Context `{PyFloat} `{!Psm}.



















End ScanLoop.


(* ===================================================================== *)
(** ** A sequence of messages *)
(* ===================================================================== *)

Section Messages.
Context `{PyFloat} `{!Psm}.

Lemma all_tmp_free_fresh dir w : all_tmp_free dir w -> fresh_tmp dir w.
Proof. intros Hfree. apply Hfree. Qed.

(** A write to a slot under [/tmp] leaves every temporary name free. *)
Lemma all_tmp_free_after_write path data w w' :
  tmp_apart "/tmp" path w -> all_tmp_free "/tmp" w ->
  fs w' = <[path := data]> (fs w) -> tmp_names w' = tmp_names w ->
  all_tmp_free "/tmp" w'.
Proof.
  intros Hapart Hfree Hfs Hnames n. rewrite Hfs, Hnames.
  rewrite lookup_insert_ne; [apply Hfree|]. intros Heq. apply (Hapart n).
  congruence.
Qed.

Lemma on_message_object_run payload text entries w :
  utf8_decode payload = Some text -> loads text = Some (JObj entries) ->
  quiet w -> all_tmp_free "/tmp" w ->
  exists w',
    InputBridge.on_message payload w = (Ok tt, w') /\
    fs w' = <[InputBridge.INPUT_PATH := dumps (JObj entries)]> (fs w) /\
    stdout w' = stdout w ++ key_warning entries
                  ++ [InWrote InputBridge.INPUT_PATH (JObj entries)] /\
    controller w' = controller w /\
    quiet w' /\ all_tmp_free "/tmp" w' /\
    set_var_calls (trace w') = set_var_calls (trace w) /\
    publications (trace w') = publications (trace w).
Proof.
  intros Hdec Hload Hq Hfree.
  unfold InputBridge.on_message. unfold try_except.
  unfold bind at 1. unfold InputBridge.decode_payload. rewrite Hdec.
  unfold ret at 1. unfold bind at 1. unfold json_loads. rewrite Hload.
  unfold ret at 1.
  set (w1 := World (fs w) (buffers w) (stdout w ++ key_warning entries) (trace w)
                   (controller w) (clock w) (faults w) (tmp_seq w) (tmp_names w)).
  assert (Hwarn : (match InputBridge.bad_keys_of entries with
                   | [] => ret tt
                   | _ :: _ => print (InWarningKeys (InputBridge.bad_keys_of entries))
                   end) w = (Ok tt, w1)).
  { subst w1. unfold key_warning.
    destruct (InputBridge.bad_keys_of entries); [|reflexivity].
    unfold ret. rewrite app_nil_r. destruct w; reflexivity. }
  erewrite bind_ok by exact Hwarn.
  destruct (atomic_write_quiet InputBridge.INPUT_PATH (JObj entries)
              (dumps (JObj entries)) w1)
    as (w2 & Hrun & Hfs & Htr & Hout & Hctl & Hplan).
  { intros n. apply Hq. } { apply (Hfree (tmp_seq w)). }
  { apply utf8_encode_dumps. }
  pose proof (files_atomic_write InputBridge.INPUT_PATH (JObj entries) w1) as Hk.
  rewrite Hrun in Hk. cbn [snd] in Hk. destruct Hk as (_ & _ & _ & Hnames).
  change (InputBridge.atomically_write_json InputBridge.INPUT_PATH (JObj entries))
    with (PSM._atomic_write_json InputBridge.INPUT_PATH (JObj entries)).
  erewrite bind_ok by exact Hrun.
  subst w1.
  cbn [fs stdout controller faults tmp_names trace] in Hfs, Hout, Hctl, Hplan,
    Hnames, Htr.
  eexists. split; [reflexivity|].
  cbn [fs stdout controller trace print].
  split; [exact Hfs|]. split; [rewrite Hout, <- app_assoc; reflexivity|].
  split; [exact Hctl|]. split; [|split; [|split]].
  - intros n. cbn [faults]. rewrite Hplan. apply Hq.
  - apply (all_tmp_free_after_write InputBridge.INPUT_PATH
             (dumps (JObj entries)) w).
    + apply (proj1 (tmp_apart_slots w)).
    + exact Hfree.
    + exact Hfs.
    + exact Hnames.
  - rewrite Htr, set_var_calls_app. cbn. apply app_nil_r.
  - rewrite Htr, publications_app. cbn. apply app_nil_r.
Qed.

Lemma on_message_step payload w :
  quiet w -> all_tmp_free "/tmp" w ->
  exists w',
    InputBridge.on_message payload w = (Ok tt, w') /\
    fs w' = store_message (fs w) payload /\
    quiet w' /\ all_tmp_free "/tmp" w'.
Proof.
  intros Hq Hfree. unfold store_message, object_of.
  destruct (utf8_decode payload) as [text|] eqn:Hdec.
  2:{ rewrite on_message_bad_utf8 by exact Hdec.
      eexists. split; [reflexivity|]. repeat split; assumption. }
  destruct (loads text) as [v|] eqn:Hload.
  2:{ rewrite (on_message_bad_json payload text) by assumption.
      eexists. split; [reflexivity|]. repeat split; assumption. }
  destruct (is_dict v) eqn:Hv.
  - destruct v; try discriminate.
    destruct (on_message_object_run payload text entries w Hdec Hload Hq Hfree)
      as (w' & Hrun & Hfs & _ & _ & Hq' & Hfree' & _).
    exists w'. repeat split; assumption.
  - rewrite (on_message_non_object payload text v) by assumption.
    destruct v; try discriminate;
      (eexists; split; [reflexivity|]; repeat split; assumption).
Qed.

Lemma store_messages_last msgs : forall files,
  fold_left store_message msgs files
  = match last (omap object_of msgs) with
    | Some d => <[InputBridge.INPUT_PATH := dumps d]> files
    | None => files
    end.
Proof.
  induction msgs as [|p msgs IH]; intros files; [reflexivity|].
  cbn [fold_left]. rewrite IH. unfold store_message.
  change (omap object_of (p :: msgs))
    with (match object_of p with
          | Some d => d :: omap object_of msgs
          | None => omap object_of msgs
          end).
  destruct (object_of p) as [d0|]; [|reflexivity].
  rewrite last_cons.
  destruct (last (omap object_of msgs)); [|reflexivity].
  apply insert_insert_eq.
Qed.

(** X10. The last object wins. The messages are handed to [on_message]
    one after the other, as the network loop does. When no call raises and
    the temporary names are free, after any sequence of messages the
    inbound slot holds
    the canonical text of the last payload that decoded to an object: the
    messages that are dropped (not UTF-8, not JSON, not an object), before
    or after it, change no file. If no message carried an object, no file
    has changed. *)
Theorem last_object_message_wins (msgs : list pybytes) (w : world) :
  quiet w -> all_tmp_free "/tmp" w ->
  exists w',
    for_each msgs InputBridge.on_message w = (Ok tt, w') /\
    fs w' = match last (omap object_of msgs) with
            | Some d => <[InputBridge.INPUT_PATH := dumps d]> (fs w)
            | None => fs w
            end.
Proof.
  intros Hq Hfree. rewrite <- store_messages_last.
  revert w Hq Hfree. induction msgs as [|p msgs IH]; intros w Hq Hfree.
  - exists w. split; reflexivity.
  - destruct (on_message_step p w Hq Hfree) as (w1 & Hrun & Hfs & Hq1 & Hfree1).
    destruct (IH w1 Hq1 Hfree1) as (w' & Hrest & Hfs').
    exists w'. split.
    + rewrite for_each_cons. erewrite bind_ok by exact Hrun. exact Hrest.
    + cbn [fold_left]. rewrite Hfs', Hfs. reflexivity.
Qed.

End Messages.

(* ===================================================================== *)
(** ** Any sequence of states of the outbound slot *)
(* ===================================================================== *)

Section Polling.
Context `{PyFloat} `{!Psm}.

(** One read of the outbound slot in the state [content]. *)
Lemma read_slot_payload content w :
  quiet w -> fs w !! OutputBridge.OUTPUT_PATH = content ->
  exists data w1,
    OutputBridge.read_json_if_ready OutputBridge.OUTPUT_PATH w = (Ok data, w1) /\
    quiet w1 /\ publications (trace w1) = publications (trace w) /\
    payload_of content
      = if OutputBridge.is_None data then None else Some (dumps data).
Proof.
  intros Hq Hfs.
  pose proof (read_same_publications OutputBridge.OUTPUT_PATH w) as Hpub.
  destruct (read_json_if_ready_returns OutputBridge.OUTPUT_PATH w
              (quiet_only_errors w Hq)) as (data & w1 & Hread & Hplan).
  rewrite Hread in Hpub. cbn [snd] in Hpub.
  exists data, w1. split; [exact Hread|].
  split; [eapply quiet_same_plan; eassumption|]. split; [exact Hpub|].
  destruct content as [[|b bytes]|]; cbn [payload_of].
  - rewrite (read_empty _ w Hq Hfs) in Hread. injection Hread as <- _.
    reflexivity.
  - destruct (utf8_decode (b :: bytes)) as [text|] eqn:Hdec.
    + destruct (loads text) as [v|] eqn:Hload.
      * rewrite (read_value _ w _ text v Hq Hfs) in Hread;
          [|discriminate|exact Hdec|exact Hload].
        injection Hread as <- _. reflexivity.
      * rewrite (read_malformed _ w _ text Hq Hfs) in Hread;
          [|discriminate|exact Hdec|exact Hload].
        injection Hread as <- _. reflexivity.
    + rewrite (read_undecodable _ w _ Hq Hfs) in Hread;
        [|discriminate|exact Hdec].
      injection Hread as <- _. reflexivity.
  - rewrite (read_missing _ w Hfs) in Hread. injection Hread as <- _.
    reflexivity.
Qed.

(** The loop over any sequence of states of the slot. *)
Lemma poll_loop_contents contents : forall previous w,
  quiet w ->
  exists w',
    OutputBridge.poll_loop contents previous w
      = (Ok (last_payload previous (omap payload_of contents)), w') /\
    publications (trace w')
      = publications (trace w) ++ changes previous (omap payload_of contents).
Proof.
  induction contents as [|c contents IH]; intros previous w Hq.
  - exists w. split; [reflexivity|]. cbn. rewrite app_nil_r. reflexivity.
  - cbn [OutputBridge.poll_loop].
    unfold bind at 1. unfold OutputBridge.set_slot at 1.
    set (w0 := set_fs _ w).
    assert (Hq0 : quiet w0) by (intros n; apply Hq).
    assert (Hfs0 : fs w0 !! OutputBridge.OUTPUT_PATH = c).
    { subst w0. cbn [fs set_fs]. destruct c.
      - apply lookup_insert_eq.
      - apply lookup_delete_eq. }
    destruct (read_slot_payload c w0 Hq0 Hfs0)
      as (data & w1 & Hread & Hq1 & Hpub1 & Hpay).
    assert (Htr0 : publications (trace w1) = publications (trace w)).
    { rewrite Hpub1. subst w0. reflexivity. }
    destruct (poll_cases previous w0 data w1 Hread) as (Hnone & Hsame & Hdiff).
    change (omap payload_of (c :: contents))
      with (match payload_of c with
            | Some p => p :: omap payload_of contents
            | None => omap payload_of contents
            end).
    rewrite Hpay.
    destruct (OutputBridge.is_None data) eqn:Hdata.
    + erewrite bind_ok by (apply Hnone; reflexivity).
      destruct (IH previous w1 Hq1) as (w' & Hloop & Hpub).
      exists w'. split; [exact Hloop|]. rewrite Hpub, Htr0. reflexivity.
    + rewrite <- last_payload_cons. cbn [changes].
      destruct (OutputBridge.payload_differs (dumps data) previous) eqn:Hd.
      * destruct (Hdiff eq_refl) as (w2 & Hpoll & Htr & _ & _ & Hplan).
        { intros Hp. apply payload_differs_false in Hp. congruence. }
        erewrite bind_ok by exact Hpoll.
        destruct (IH (Some (dumps data)) w2) as (w' & Hloop & Hpub).
        { eapply quiet_same_plan; [exact Hplan|exact Hq1]. }
        exists w'. split; [exact Hloop|]. rewrite Hpub, Htr.
        rewrite publications_app, Htr0. cbn [publications flat_map app].
        rewrite <- app_assoc. reflexivity.
      * apply payload_differs_false in Hd.
        erewrite bind_ok by (apply Hsame; [reflexivity|exact Hd]).
        rewrite Hd.
        destruct (IH (Some (dumps data)) w1 Hq1) as (w' & Hloop & Hpub).
        exists w'. split; [exact Hloop|]. rewrite Hpub, Htr0. reflexivity.
Qed.

Lemma changes_no_repeat payloads : forall previous,
  no_repeat (changes previous payloads) /\
  (forall x rest, changes previous payloads = x :: rest -> previous <> Some x) /\
  last_payload previous payloads
    = match last (changes previous payloads) with
      | Some x => Some x
      | None => previous
      end.
Proof.
  induction payloads as [|p payloads IH]; intros previous.
  - repeat split. discriminate.
  - cbn [changes]. rewrite <- (last_payload_cons previous).
    destruct (OutputBridge.payload_differs p previous) eqn:Hd.
    + destruct (IH (Some p)) as (Hrep & Hhead & Hlast). repeat split.
      * destruct (changes (Some p) payloads) as [|b rest] eqn:Hc; [exact I|].
        split; [|exact Hrep]. intros ->. apply (Hhead b rest eq_refl).
        reflexivity.
      * intros x rest [= <- _] Hp. apply payload_differs_false in Hp.
        congruence.
      * rewrite Hlast, last_cons.
        destruct (last (changes (Some p) payloads)); reflexivity.
    + apply payload_differs_false in Hd. subst previous.
      apply IH.
Qed.

(** X11. Over any sequence of states of the outbound slot, one per turn -
    missing, empty, not UTF-8, not JSON, [null], or a value - and when no
    call raises, the adapter publishes exactly the changes of canonical
    text among the states it can read; a state it cannot read publishes
    nothing and leaves the fingerprint as it is. So no payload is published
    twice in a row, the first one differs from the fingerprint the loop
    started with, and the fingerprint at the end is the last payload
    published, or the initial one if none was. *)
Theorem publishes_each_change_once
    (contents : list (option pybytes)) (previous : option pystr) (w : world) :
  quiet w ->
  exists fingerprint w' news,
    OutputBridge.poll_loop contents previous w = (Ok fingerprint, w') /\
    publications (trace w') = publications (trace w) ++ news /\
    news = changes previous (omap payload_of contents) /\
    no_repeat news /\
    (forall x rest, news = x :: rest -> previous <> Some x) /\
    fingerprint = match last news with Some x => Some x | None => previous end.
Proof.
  intros Hq.
  destruct (poll_loop_contents contents previous w Hq) as (w' & Hrun & Hpub).
  destruct (changes_no_repeat (omap payload_of contents) previous)
    as (Hrep & Hhead & Hlast).
  eexists _, w', _. split; [exact Hrun|]. split; [exact Hpub|].
  split; [reflexivity|]. split; [exact Hrep|]. split; [exact Hhead|exact Hlast].
Qed.

End Polling.

(* ===================================================================== *)
(** ** The driver and the outbound adapter together *)
(* ===================================================================== *)

Section Mirror.
Context `{PyFloat} `{!Psm}.

(** One period of [update_outputs] and one turn of the adapter, when the
    snapshot is a JSON value. *)
Lemma mirror_round previous w :
  let snapshot := JObj (collected PSM.OUTPUT_VARS (controller w) []) in
  quiet w -> all_tmp_free "/tmp" w -> json_ok snapshot ->
  exists w',
    (PSM.update_outputs ;;; OutputBridge.poll previous) w
      = (Ok (Some (dumps (canon snapshot))), w') /\
    quiet w' /\ all_tmp_free "/tmp" w' /\ controller w' = controller w /\
    fs w' = <[PSM.OUTPUT_PATH := dumps snapshot]> (fs w) /\
    set_var_calls (trace w') = set_var_calls (trace w) /\
    publications (trace w')
      = publications (trace w)
        ++ changes previous [dumps (canon snapshot)].
Proof.
  intros snapshot Hq Hfree Hok.
  destruct (update_outputs_run PSM.OUTPUT_VARS w Hq (Hfree (tmp_seq w)))
    as (w1 & Hrun & Hfs1 & Htr1 & (_ & Hc1 & Hpl1 & Hn1)).
  fold snapshot in Hfs1, Htr1.
  assert (Hq1 : quiet w1) by (intros n; rewrite Hpl1; apply Hq).
  assert (Hslot : fs w1 !! OutputBridge.OUTPUT_PATH = Some (dumps snapshot)).
  { rewrite Hfs1. apply lookup_insert_eq. }
  assert (Hread : OutputBridge.read_json_if_ready OutputBridge.OUTPUT_PATH w1
                  = (Ok (canon snapshot), after_read OutputBridge.OUTPUT_PATH w1)).
  { eapply read_value; [exact Hq1|exact Hslot|discriminate|
                        apply utf8_decode_dumps|apply loads_dumps, Hok]. }
  assert (Hfree1 : all_tmp_free "/tmp" w1).
  { apply (all_tmp_free_after_write PSM.OUTPUT_PATH (dumps snapshot) w);
      [apply (proj2 (tmp_apart_slots w))|exact Hfree|exact Hfs1|exact Hn1]. }
  assert (Hpub1 : publications (trace w1) = publications (trace w)).
  { rewrite Htr1, publications_app.
    replace (publications (List.map EvGetVar PSM.OUTPUT_VARS ++ _)) with (@nil pystr)
      by reflexivity.
    apply app_nil_r. }
  assert (Hset1 : set_var_calls (trace w1) = set_var_calls (trace w)).
  { rewrite Htr1, set_var_calls_app.
    replace (set_var_calls (List.map EvGetVar PSM.OUTPUT_VARS ++ _))
      with (@nil (pystr * json)) by reflexivity.
    apply app_nil_r. }
  unfold PSM.update_outputs. erewrite bind_ok by exact Hrun.
  unfold OutputBridge.poll. erewrite bind_ok by exact Hread.
  change (negb (OutputBridge.is_None (canon snapshot))) with true.
  cbn iota. cbn [changes].
  destruct (OutputBridge.payload_differs (dumps (canon snapshot)) previous) eqn:Hd.
  - eexists. split; [reflexivity|].
    cbn [fs controller faults tmp_names trace after_read tick emit].
    split; [exact Hq1|]. split; [exact Hfree1|]. split; [exact Hc1|].
    split; [exact Hfs1|]. split.
    { rewrite !set_var_calls_app. cbn [set_var_calls flat_map app].
      rewrite !app_nil_r. exact Hset1. }
    rewrite !publications_app. cbn [publications flat_map app].
    rewrite !app_nil_r, Hpub1. reflexivity.
  - apply payload_differs_false in Hd. rewrite Hd.
    eexists. split; [reflexivity|].
    cbn [fs controller faults tmp_names trace after_read tick emit].
    split; [exact Hq1|]. split; [exact Hfree1|]. split; [exact Hc1|].
    split; [exact Hfs1|]. split.
    { rewrite !set_var_calls_app. cbn [set_var_calls flat_map app].
      rewrite !app_nil_r. exact Hset1. }
    rewrite !publications_app. cbn [publications flat_map app].
    rewrite !app_nil_r. exact Hpub1.
Qed.

(** X12. While the outputs do not change, the driver rewrites the
    outbound slot every period and the adapter publishes once. Over any
    positive number of periods, each an [update_outputs] followed by one
    turn of the adapter started with no fingerprint, when no call raises,
    the temporary names are free and the exported variable holds a JSON
    value: there is one publication, the canonical text of the value the
    adapter reads, and the slot holds the text of the snapshot. *)
Theorem unchanged_outputs_are_published_once (n : nat) (w : world) :
  let snapshot := JObj (collected PSM.OUTPUT_VARS (controller w) []) in
  quiet w -> all_tmp_free "/tmp" w ->
  json_ok (plc_get_var (str "QX0.0") (controller w)) ->
  exists w',
    mirror_rounds (S n) None w = (Ok (Some (dumps (canon snapshot))), w') /\
    publications (trace w')
      = publications (trace w) ++ [dumps (canon snapshot)] /\
    fs w' !! PSM.OUTPUT_PATH = Some (dumps snapshot).
Proof.
  intros snapshot Hq Hfree Hv.
  assert (Hok : json_ok snapshot).
  { subst snapshot. cbn. repeat split; [apply NoDup_singleton|exact Hv]. }
  assert (Hrest : forall k w1,
             quiet w1 -> all_tmp_free "/tmp" w1 -> controller w1 = controller w ->
             fs w1 !! PSM.OUTPUT_PATH = Some (dumps snapshot) ->
             exists w',
               mirror_rounds k (Some (dumps (canon snapshot))) w1
                 = (Ok (Some (dumps (canon snapshot))), w') /\
               publications (trace w') = publications (trace w1) /\
               fs w' !! PSM.OUTPUT_PATH = Some (dumps snapshot)).
  { induction k as [|k IH]; intros w1 Hq1 Hfree1 Hc1 Hfs1.
    - exists w1. repeat split. exact Hfs1.
    - destruct (mirror_round (Some (dumps (canon snapshot))) w1)
        as (w2 & Hrun & Hq2 & Hfree2 & Hc2 & Hfs2 & _ & Hpub2);
        [exact Hq1|exact Hfree1|rewrite Hc1; exact Hok|].
      rewrite Hc1 in Hrun, Hfs2, Hpub2. fold snapshot in Hrun, Hfs2, Hpub2.
      cbn [changes] in Hpub2.
      replace (OutputBridge.payload_differs (dumps (canon snapshot))
                 (Some (dumps (canon snapshot)))) with false in Hpub2
        by (symmetry; apply payload_differs_false; reflexivity).
      rewrite app_nil_r in Hpub2.
      destruct (IH w2 Hq2 Hfree2 (eq_trans Hc2 Hc1))
        as (w' & Hloop & Hpub & Hfs).
      { rewrite Hfs2. apply lookup_insert_eq. }
      exists w'. split; [|split; [congruence|exact Hfs]].
      cbn [mirror_rounds]. unfold bind at 1.
      unfold bind at 1 in Hrun.
      destruct (PSM.update_outputs w1) as [[[]|e] w1']; [|discriminate].
      unfold bind at 1. rewrite Hrun. exact Hloop. }
  destruct (mirror_round None w Hq Hfree Hok)
    as (w1 & Hrun & Hq1 & Hfree1 & Hc1 & Hfs1 & _ & Hpub1).
  fold snapshot in Hrun, Hfs1, Hpub1. cbn [changes OutputBridge.payload_differs] in Hpub1.
  destruct (Hrest n w1 Hq1 Hfree1 Hc1) as (w' & Hloop & Hpub & Hfs).
  { rewrite Hfs1. apply lookup_insert_eq. }
  exists w'. split; [|split; [congruence|exact Hfs]].
  cbn [mirror_rounds]. unfold bind at 1.
  unfold bind at 1 in Hrun.
  destruct (PSM.update_outputs w) as [[[]|e] w0]; [|discriminate].
  unfold bind at 1. rewrite Hrun. exact Hloop.
Qed.

(** X13. From a message to a publication. A payload that decodes to an
    object of JSON values is handled by [on_message], then the driver
    makes one scan and the adapter one turn, no call raising and the
    temporary names free. Then [psm.set_var] was called for the entries of
    the message whose key starts with [%], in the order of their keys, the
    inbound slot holds the text of the message's object, the outbound slot
    the text of the snapshot read after those calls, and the adapter has
    published the canonical text of that snapshot, once. *)
Theorem message_reaches_the_broker (payload : pybytes) (w : world) text entries :
  let inputs := forwarded (stored entries) in
  let c' := after_set_vars inputs (controller w) in
  let snapshot := JObj (collected PSM.OUTPUT_VARS c' []) in
  utf8_decode payload = Some text -> loads text = Some (JObj entries) ->
  json_ok (JObj entries) ->
  json_ok (plc_get_var (str "QX0.0") c') ->
  quiet w -> all_tmp_free "/tmp" w ->
  exists w',
    (InputBridge.on_message payload ;;; PSM.scan ;;; OutputBridge.poll None) w
      = (Ok (Some (dumps (canon snapshot))), w') /\
    set_var_calls (trace w') = set_var_calls (trace w) ++ inputs /\
    controller w' = c' /\
    fs w' !! PSM.INPUT_PATH = Some (dumps (JObj entries)) /\
    fs w' !! PSM.OUTPUT_PATH = Some (dumps snapshot) /\
    publications (trace w')
      = publications (trace w) ++ [dumps (canon snapshot)].
Proof.
  intros inputs c' snapshot Hdec Hload Hok Hv Hq Hfree.
  destruct (on_message_object_run payload text entries w Hdec Hload Hq Hfree)
    as (w1 & Hmsg & Hfs1 & _ & Hc1 & Hq1 & Hfree1 & Hset1 & Hpub1).
  assert (Hslot : slot_holds w1 PSM.INPUT_PATH (dumps (JObj entries))).
  { exists (dumps (JObj entries)). split; [|apply utf8_decode_dumps].
    rewrite Hfs1. apply lookup_insert_eq. }
  pose proof (update_inputs_object w1 (dumps (JObj entries)) (stored entries)
                Hq1 Hslot (loads_dumps _ Hok)) as Hin.
  set (w2 := applied (stored entries)
               (tick (emit (EvOpenRead PSM.INPUT_PATH) w1))) in Hin.
  destruct (applied_names (stored entries)
              (tick (emit (EvOpenRead PSM.INPUT_PATH) w1)))
    as (_ & Hnames2 & Hpl2).
  destruct (applied_rest (stored entries)
              (tick (emit (EvOpenRead PSM.INPUT_PATH) w1))) as (Hfs2 & _).
  fold w2 in Hnames2, Hpl2, Hfs2. cbn [tmp_names faults fs tick emit] in *.
  assert (Hc2 : controller w2 = c').
  { subst w2 c' inputs. rewrite applied_controller.
    cbn [controller tick emit]. rewrite Hc1. reflexivity. }
  assert (Hq2 : quiet w2) by (intros k; rewrite Hpl2; apply Hq1).
  assert (Hfree2 : all_tmp_free "/tmp" w2).
  { intros k. rewrite Hfs2, Hnames2. apply Hfree1. }
  assert (Htr2 : trace w2 = trace w1 ++ EvOpenRead PSM.INPUT_PATH
                   :: List.map (fun kv => EvSetVar (fst kv) (snd kv)) inputs).
  { subst w2. rewrite applied_trace. cbn [trace tick emit].
    rewrite <- app_assoc. reflexivity. }
  destruct (mirror_round None w2 Hq2 Hfree2)
    as (w3 & Hout & _ & _ & Hc3 & Hfs3 & Hset3 & Hpub3).
  { rewrite Hc2. cbn. repeat split; [apply NoDup_singleton|exact Hv]. }
  rewrite Hc2 in Hout, Hfs3, Hpub3. fold snapshot in Hout, Hfs3, Hpub3.
  exists w3. split; [|split; [|split; [|split; [|split]]]].
  - erewrite bind_ok by exact Hmsg.
    unfold PSM.scan. unfold bind at 1. unfold bind at 1. rewrite Hin.
    unfold bind at 1 in Hout.
    destruct (PSM.update_outputs w2) as [[[]|e] w2']; [|discriminate].
    exact Hout.
  - rewrite Hset3, Htr2, set_var_calls_app. cbn [set_var_calls flat_map app].
    change (flat_map _ (List.map (fun kv => EvSetVar (fst kv) (snd kv)) inputs))
      with (set_var_calls (List.map (fun kv => EvSetVar (fst kv) (snd kv)) inputs)).
    rewrite set_var_calls_map, Hset1. reflexivity.
  - congruence.
  - rewrite Hfs3, lookup_insert_ne by discriminate.
    rewrite Hfs2, Hfs1. apply lookup_insert_eq.
  - rewrite Hfs3. apply lookup_insert_eq.
  - rewrite Hpub3. cbn [changes OutputBridge.payload_differs].
    rewrite Htr2, publications_app.
    replace (publications (EvOpenRead PSM.INPUT_PATH :: _)) with (@nil pystr).
    + rewrite app_nil_r, Hpub1. reflexivity.
    + clear. induction inputs as [|kv l IH]; [reflexivity|exact IH].
Qed.

End Mirror.

(* ===================================================================== *)
(** ** The bytes of a slot, repeated scans, the first question *)
(* ===================================================================== *)

Section Further.
Context `{PyFloat} `{!Psm}.

(** X14. Slot files are ASCII. Whatever the object, when the write returns
    the slot holds bytes below 128 only, and they decode to the canonical
    text of the object: a character outside printable ASCII is in the file
    as a backslash escape. *)
Theorem slot_files_are_ascii (path : string) (obj : json) (w w' : world) :
  tmp_apart (PSM.directory_of path) path w ->
  PSM._atomic_write_json path obj w = (Ok tt, w') ->
  exists data,
    fs w' !! path = Some data /\
    Forall (fun b => b < 128) data /\
    utf8_decode data = Some (dumps obj).
Proof.
  intros Hapart Hrun.
  destruct (atomic_write_any path obj w _ w' Hapart Hrun) as [_ Hfs].
  destruct Hfs as (data & Henc & Hfs). rewrite utf8_encode_dumps in Henc.
  injection Henc as <-.
  exists (dumps obj). split; [exact Hfs|]. split.
  - apply dumps_ascii.
  - apply utf8_decode_dumps.
Qed.

Lemma update_inputs_again n : forall w text entries,
  quiet w -> slot_holds w PSM.INPUT_PATH text ->
  loads text = Some (JObj entries) ->
  exists w',
    for_each (repeat tt n) (fun _ => PSM.update_inputs) w = (Ok tt, w') /\
    fs w' = fs w /\
    set_var_calls (trace w')
      = set_var_calls (trace w) ++ concat (repeat (forwarded entries) n).
Proof.
  induction n as [|n IH]; intros w text entries Hq Hslot Hload.
  - exists w. repeat split. cbn. rewrite app_nil_r. reflexivity.
  - pose proof (update_inputs_object w text entries Hq Hslot Hload) as Hrun.
    set (w1 := applied entries (tick (emit (EvOpenRead PSM.INPUT_PATH) w))) in Hrun.
    destruct (applied_rest entries (tick (emit (EvOpenRead PSM.INPUT_PATH) w)))
      as (Hfs & _).
    destruct (applied_names entries (tick (emit (EvOpenRead PSM.INPUT_PATH) w)))
      as (_ & _ & Hpl).
    fold w1 in Hfs, Hpl. cbn [fs faults tick emit] in Hfs, Hpl.
    destruct (IH w1 text entries) as (w' & Hrest & Hfs' & Hcalls).
    { intros k. rewrite Hpl. apply Hq. }
    { destruct Hslot as (data & Hd & Hdec). exists data. rewrite Hfs.
      split; assumption. }
    { exact Hload. }
    exists w'. split; [|split].
    + cbn [repeat]. rewrite for_each_cons. erewrite bind_ok by exact Hrun.
      exact Hrest.
    + congruence.
    + rewrite Hcalls. subst w1. rewrite applied_trace.
      cbn [trace tick emit repeat concat].
      rewrite <- app_assoc, !set_var_calls_app, set_var_calls_map.
      cbn [set_var_calls flat_map app]. rewrite <- app_assoc. reflexivity.
Qed.

(** X15. [update_inputs] does not consume the slot. It changes no file,
    however it ends; so when no call raises, [n] runs over a slot that
    holds an object forward the same entries [n] times. *)
Theorem update_inputs_applies_the_slot_every_scan (n : nat) (w : world) :
  (forall r w', PSM.update_inputs w = (r, w') -> fs w' = fs w) /\
  (forall text entries,
      quiet w -> slot_holds w PSM.INPUT_PATH text ->
      loads text = Some (JObj entries) ->
      exists w',
        for_each (repeat tt n) (fun _ => PSM.update_inputs) w = (Ok tt, w') /\
        fs w' = fs w /\
        set_var_calls (trace w')
          = set_var_calls (trace w) ++ concat (repeat (forwarded entries) n)).
Proof.
  split.
  - intros r w' Hrun. pose proof (update_inputs_same_files w) as Hk.
    rewrite Hrun in Hk. exact Hk.
  - intros text entries. apply update_inputs_again.
Qed.

(** X16. [psm.should_quit()] is asked before the first scan. If the
    controller asks to stop right after the start and no call raises, the
    main block makes no scan: its calls are the start, the six calls that
    write the empty object to the outbound slot, the question whether to
    quit, and the stop. *)
Theorem main_asks_before_the_first_scan (n : nat) (w : world) :
  quiet w -> fresh_tmp "/tmp" w ->
  plc_should_quit (plc_start (controller w)) = true ->
  exists w',
    PSM.main (S n) w = (Ok true, w') /\
    trace w' =
      trace w ++
      [ EvPsmStart;
        EvMkstemp "/tmp" (tmp_of "/tmp" w);
        EvWrite (tmp_of "/tmp" w) (str "{}");
        EvFlush (tmp_of "/tmp" w); EvFsync (tmp_of "/tmp" w);
        EvClose (tmp_of "/tmp" w);
        EvReplace (tmp_of "/tmp" w) PSM.OUTPUT_PATH;
        EvShouldQuit;
        EvPsmStop ] /\
    fs w' = <[PSM.OUTPUT_PATH := str "{}"]> (fs w) /\
    controller w' = plc_stop (plc_start (controller w)).
Proof.
  intros Hq Hfresh Hquit.
  unfold PSM.main, PSM.hardware_init.
  unfold bind at 1. unfold bind at 1. unfold psm_start.
  rewrite external_quiet by exact Hq.
  set (w0 := set_controller plc_start (tick (emit EvPsmStart w))).
  destruct (atomic_write_quiet PSM.OUTPUT_PATH (JObj []) (str "{}") w0)
    as (w1 & Hrun & Hfs1 & Htr1 & _ & Hc1 & Hpl1).
  { intros k. apply Hq. } { exact Hfresh. } { reflexivity. }
  rewrite (try_except_ok _ _ _ _ _ Hrun).
  cbn [PSM.scan_loop]. unfold bind at 1. unfold bind at 1.
  unfold psm_should_quit.
  rewrite external_quiet by (intros k; rewrite Hpl1; apply Hq).
  cbn [controller tick emit]. rewrite Hc1. subst w0.
  cbn [controller set_controller tick emit]. rewrite Hquit.
  unfold ret at 1. unfold bind, psm_stop.
  rewrite external_quiet
    by (intros k; cbn [faults tick emit]; rewrite Hpl1; apply Hq).
  eexists. split; [reflexivity|].
  cbn [trace fs controller set_controller tick emit].
  rewrite Htr1, Hfs1, Hc1. cbn [trace fs controller set_controller tick emit].
  rewrite <- !app_assoc. repeat split.
Qed.

End Further.

(* ===================================================================== *)
(** ** The outbound adapter's process *)
(* ===================================================================== *)

Section OutputProcess.
Context `{PyFloat} `{!Psm}.
Import OutputBridge.

Lemma in_world_calls {A} (m : M A) s :
  snd (snd (in_world m s)) = snd s.
Proof. unfold in_world. destruct (m (fst s)). reflexivity. Qed.

Lemma serve_calls contents : forall previous s r s1,
  serve contents previous s = (r, s1) ->
  exists k, (k <= length contents)%nat /\
            snd s1 = snd s ++ repeat Sleep k /\
            (forall p, r = Ok p -> k = length contents).
Proof.
  induction contents as [|c contents IH]; intros previous s r s1; cbn [serve].
  - intros [= <- <-]. exists 0%nat. cbn. rewrite app_nil_r. repeat split. lia.
  - unfold and_then at 1.
    pose proof (in_world_calls
                  (OutputBridge.set_slot c ;;; OutputBridge.poll previous) s) as Hw.
    destruct (in_world _ s) as [[p|e] s0]; cbn [snd] in Hw.
    2:{ intros [= <- <-]. exists 0%nat. cbn. rewrite app_nil_r, Hw.
        repeat split; [lia|discriminate]. }
    unfold and_then at 1. unfold client_op.
    destruct (faults (fst s0) (clock (fst s0))).
    { intros [= <- <-]. exists 1%nat. cbn [snd repeat length]. rewrite Hw.
      repeat split; [lia|discriminate]. }
    intros Hrun. apply IH in Hrun. destruct Hrun as (k & Hk & Hcalls & Hok).
    exists (S k). cbn [snd repeat length] in *. rewrite Hcalls, Hw, <- app_assoc.
    repeat split; [lia|]. intros p' Hp. f_equal. eapply Hok, Hp.
Qed.

(** The clean-up, by which of its two calls raises. *)
Lemma finally_stop_run {A} (r : result A) w calls :
  finally_stop r (w, calls) =
    match faults w (clock w), faults w (S (clock w)) with
    | Some e1, _ => (Raise e1, (tick w, calls ++ [LoopStop]))
    | None, Some e2 => (Raise e2, (tick (tick w), calls ++ [LoopStop; Disconnect]))
    | None, None => (r, (tick (tick w), calls ++ [LoopStop; Disconnect]))
    end.
Proof.
  unfold finally_stop, and_then, client_op. cbn [fst snd].
  destruct (faults w (clock w)); [reflexivity|].
  cbn [fst snd faults clock tick].
  destruct (faults w (S (clock w))); rewrite <- app_assoc; reflexivity.
Qed.

(** X17. [main] of the outbound adapter stops the client once it has
    started it, and only then. If [connect] raises, [main] raises the same
    exception and has made no other call; if [loop_start] raises, no call
    follows it: the clean-up belongs to the loop. Once both returned, the
    calls on the client are [connect], [loop_start] and one [time.sleep]
    per turn until the loop is left by an exception [e]. Then
    [KeyboardInterrupt] makes [main] print the line that says it stops,
    and in every case [loop_stop] is called and, if it returned,
    [disconnect]. What the clean-up raises is what [main] raises; when the
    clean-up returns, [main] returns if [e] is [KeyboardInterrupt] and
    raises [e] again otherwise. *)
Theorem output_main_stops_the_client (contents : list (option pybytes))
    (w : world) (calls : list client_call) :
  (forall e,
      faults w (clock w) = Some e ->
      main contents (w, calls)
        = (Raise e, (tick w, calls ++ [Connect MQTT_HOST MQTT_PORT 60]))) /\
  (forall e,
      faults w (clock w) = None -> faults w (S (clock w)) = Some e ->
      main contents (w, calls)
        = (Raise e, (tick (tick w),
                     calls ++ [Connect MQTT_HOST MQTT_PORT 60; LoopStart]))) /\
  (faults w (clock w) = None -> faults w (S (clock w)) = None ->
   match serve contents None
           (snd (print OutConnected (tick (tick w))),
            calls ++ [Connect MQTT_HOST MQTT_PORT 60; LoopStart]) with
   | (Ok _, s1) =>
       main contents (w, calls) = (Ok false, s1) /\
       snd s1 = calls ++ client_calls (length contents) []
   | (Raise e, s1) =>
       exists k,
         (k <= length contents)%nat /\
         snd s1 = calls ++ client_calls k [] /\
         let w2 := if is_KeyboardInterrupt e
                   then snd (print OutStopping (fst s1)) else fst s1 in
         main contents (w, calls) =
           match faults w2 (clock w2), faults w2 (S (clock w2)) with
           | Some e1, _ =>
               (Raise e1, (tick w2, calls ++ client_calls k [LoopStop]))
           | None, Some e2 =>
               (Raise e2,
                (tick (tick w2), calls ++ client_calls k [LoopStop; Disconnect]))
           | None, None =>
               (if is_KeyboardInterrupt e then Ok true else Raise e,
                (tick (tick w2), calls ++ client_calls k [LoopStop; Disconnect]))
           end
   end).
Proof.
  split; [|split].
  - intros e He. unfold main, and_then, client_op. cbn [fst snd].
    rewrite He. reflexivity.
  - intros e H1 He. unfold main. unfold and_then at 1. unfold client_op at 1.
    cbn [fst snd]. rewrite H1.
    unfold and_then at 1. unfold client_op at 1.
    cbn [fst snd faults clock tick]. rewrite He.
    rewrite <- app_assoc. reflexivity.
  - intros H1 H2.
    assert (Hmain : main contents (w, calls) =
              match serve contents None
                      (snd (print OutConnected (tick (tick w))),
                       calls ++ [Connect MQTT_HOST MQTT_PORT 60; LoopStart]) with
              | (Ok _, s1) => (Ok false, s1)
              | (Raise e, s1) =>
                  if is_KeyboardInterrupt e
                  then and_then (in_world (print OutStopping))
                         (fun _ => finally_stop (Ok true)) s1
                  else finally_stop (Raise e) s1
              end).
    { unfold main. unfold and_then at 1. unfold client_op at 1.
      cbn [fst snd]. rewrite H1.
      unfold and_then at 1. unfold client_op at 1.
      cbn [fst snd faults clock tick]. rewrite H2.
      unfold and_then at 1. unfold in_world at 1. cbn [fst snd print].
      rewrite <- app_assoc. reflexivity. }
    rewrite Hmain. clear Hmain.
    set (s0 := (snd (print OutConnected (tick (tick w))), _)).
    pose proof (serve_calls contents None s0) as Hserve.
    destruct (serve contents None s0) as [[p|e] [w1 calls1]].
    + destruct (Hserve _ _ eq_refl) as (k & _ & Hcalls & Hk).
      split; [reflexivity|]. rewrite Hcalls, (Hk p eq_refl). subst s0.
      cbn [snd]. unfold client_calls. rewrite <- app_assoc, app_nil_r.
      reflexivity.
    + destruct (Hserve _ _ eq_refl) as (k & Hle & Hcalls & _).
      cbn [snd] in Hcalls. subst s0. cbn [snd] in Hcalls.
      assert (Hs1 : forall tail,
                 calls1 ++ tail = calls ++ client_calls k tail).
      { intros tail. rewrite Hcalls. unfold client_calls.
        rewrite <- !app_assoc. reflexivity. }
      exists k. split; [exact Hle|]. split.
      { cbn [snd]. rewrite <- (Hs1 []), app_nil_r. reflexivity. }
      cbn [fst]. rewrite <- !Hs1.
      destruct (is_KeyboardInterrupt e).
      * unfold and_then at 1. unfold in_world at 1. cbn [fst snd].
        unfold print at 1. rewrite finally_stop_run. reflexivity.
      * rewrite finally_stop_run. reflexivity.
Qed.

End OutputProcess.

(* ===================================================================== *)
(** ** Polling when reads fail *)
(* ===================================================================== *)

Section PollingErrors.
Context `{PyFloat} `{!Psm}.

(** One read of the outbound slot in the state [content], whatever
    [Exception]s its calls raise: what it returns and how many calls it
    made are those of [read_turn]. *)
Lemma read_slot_turn content w :
  only_errors w -> fs w !! OutputBridge.OUTPUT_PATH = content ->
  exists data w1,
    OutputBridge.read_json_if_ready OutputBridge.OUTPUT_PATH w = (Ok data, w1) /\
    faults w1 = faults w /\
    publications (trace w1) = publications (trace w) /\
    read_turn (faults w) (clock w) content
      = (if OutputBridge.is_None data then None else Some (dumps data),
         clock w1).
Proof.
  intros Herr Hfs.
  pose proof (read_same_publications OutputBridge.OUTPUT_PATH w) as Hpub.
  destruct (read_json_if_ready_returns OutputBridge.OUTPUT_PATH w Herr)
    as (data & w1 & Hread & Hplan).
  rewrite Hread in Hpub. cbn [snd] in Hpub.
  exists data, w1. split; [exact Hread|]. split; [exact Hplan|].
  split; [exact Hpub|].
  clear Hpub Hplan. revert Hread.
  unfold OutputBridge.read_json_if_ready, try_except.
  unfold bind at 1. unfold os_path_exists. rewrite Hfs.
  destruct content as [bytes|].
  2:{ rewrite bool_decide_eq_false_2 by (intros [? ?]; discriminate).
      cbn [negb]. unfold ret. intros [= <- <-]. reflexivity. }
  rewrite bool_decide_eq_true_2 by eauto. cbn [negb].
  assert (Hhandled : forall e w0,
             is_Exception e = true ->
             handle [(is_JSONDecodeError, fun _ => ret JNull);
                     (is_Exception,
                      fun e0 => print (OutErrorReading OutputBridge.OUTPUT_PATH e0)
                                ;;; ret JNull)] e w0 = (Ok data, w1) ->
             data = JNull /\ clock w1 = clock w0).
  { intros e w0 He. cbn [handle]. rewrite He.
    destruct (is_JSONDecodeError e); unfold bind, print, ret; intros [= <- <-];
      split; reflexivity. }
  unfold bind at 1. unfold os_path_getsize, external.
  cbn [read_turn].
  destruct (faults w (clock w)) as [e|] eqn:Hf0.
  { intros Hrun. destruct (Hhandled _ _ (Herr _ _ Hf0) Hrun) as [-> ->].
    reflexivity. }
  cbn [fs tick emit]. rewrite Hfs.
  destruct bytes as [|b bytes].
  { cbn [length Nat.eqb]. unfold ret. intros [= <- <-]. reflexivity. }
  cbn [length Nat.eqb]. unfold bind at 1. unfold read_text, external.
  cbn [faults clock tick emit].
  destruct (faults w (S (clock w))) as [e|] eqn:Hf1.
  { intros Hrun. destruct (Hhandled _ _ (Herr _ _ Hf1) Hrun) as [-> ->].
    reflexivity. }
  cbn [fs tick emit]. rewrite Hfs. cbn [payload_of].
  destruct (utf8_decode (b :: bytes)) as [text|].
  2:{ intros Hrun.
      destruct (Hhandled UnicodeDecodeError _ eq_refl Hrun) as [-> ->].
      reflexivity. }
  unfold json_loads. destruct (loads text) as [v|].
  - unfold ret. intros [= <- <-]. reflexivity.
  - unfold raise. intros Hrun.
    destruct (Hhandled JSONDecodeError _ eq_refl Hrun) as [-> ->]. reflexivity.
Qed.

(** A turn makes no call but those of its read. *)
Lemma poll_clock previous w data w1 r w2 :
  OutputBridge.read_json_if_ready OutputBridge.OUTPUT_PATH w = (Ok data, w1) ->
  OutputBridge.poll previous w = (r, w2) ->
  clock w2 = clock w1 /\ faults w2 = faults w1.
Proof.
  intros Hread. unfold OutputBridge.poll.
  rewrite (bind_ok _ _ _ _ _ Hread).
  destruct (negb _); [|intros [= _ <-]; split; reflexivity].
  destruct (OutputBridge.payload_differs _ _); intros [= _ <-]; split; reflexivity.
Qed.

(** The loop over any sequence of states, whatever [Exception]s the calls
    of the reads raise. *)
Lemma poll_loop_turns contents : forall previous w,
  only_errors w ->
  exists w',
    OutputBridge.poll_loop contents previous w
      = (Ok (last_payload previous
               (payloads_read (faults w) (clock w) contents)), w') /\
    publications (trace w')
      = publications (trace w)
        ++ changes previous (payloads_read (faults w) (clock w) contents).
Proof.
  induction contents as [|c contents IH]; intros previous w Herr.
  - exists w. split; [reflexivity|]. cbn. rewrite app_nil_r. reflexivity.
  - cbn [OutputBridge.poll_loop payloads_read].
    unfold bind at 1. unfold OutputBridge.set_slot at 1.
    set (w0 := set_fs _ w).
    assert (Herr0 : only_errors w0) by (intros n e; apply Herr).
    assert (Hfs0 : fs w0 !! OutputBridge.OUTPUT_PATH = c).
    { subst w0. cbn [fs set_fs]. destruct c.
      - apply lookup_insert_eq.
      - apply lookup_delete_eq. }
    destruct (read_slot_turn c w0 Herr0 Hfs0)
      as (data & w1 & Hread & Hplan1 & Hpub1 & Hturn).
    change (faults w0) with (faults w) in *.
    change (clock w0) with (clock w) in *.
    rewrite Hturn.
    assert (Htr0 : publications (trace w1) = publications (trace w)).
    { rewrite Hpub1. subst w0. reflexivity. }
    assert (Herr1 : only_errors w1).
    { intros n e. rewrite Hplan1. apply Herr. }
    destruct (poll_cases previous w0 data w1 Hread) as (Hnone & Hsame & Hdiff).
    destruct (OutputBridge.is_None data) eqn:Hdata.
    + erewrite bind_ok by (apply Hnone; reflexivity).
      destruct (IH previous w1 Herr1) as (w' & Hloop & Hpub).
      rewrite Hplan1 in Hloop, Hpub.
      exists w'. split; [exact Hloop|]. rewrite Hpub, Htr0. reflexivity.
    + destruct (OutputBridge.payload_differs (dumps data) previous) eqn:Hd.
      * destruct (Hdiff eq_refl) as (w2 & Hpoll & Htr & _ & _ & Hplan).
        { intros Hp. apply payload_differs_false in Hp. congruence. }
        destruct (poll_clock _ _ _ _ _ _ Hread Hpoll) as [Hc2 Hf2].
        erewrite bind_ok by exact Hpoll.
        destruct (IH (Some (dumps data)) w2) as (w' & Hloop & Hpub).
        { eapply only_errors_same_plan; [exact Hplan|exact Herr1]. }
        rewrite Hf2, Hc2, Hplan1 in Hloop, Hpub.
        exists w'. rewrite <- last_payload_cons.
        split; [exact Hloop|].
        cbn [changes]. rewrite Hd, Hpub, Htr.
        rewrite publications_app, Htr0. cbn [publications flat_map app].
        rewrite <- app_assoc. reflexivity.
      * apply payload_differs_false in Hd.
        erewrite bind_ok by (apply Hsame; [reflexivity|exact Hd]).
        subst previous.
        destruct (IH (Some (dumps data)) w1 Herr1) as (w' & Hloop & Hpub).
        rewrite Hplan1 in Hloop, Hpub.
        exists w'. rewrite <- last_payload_cons.
        split; [exact Hloop|].
        cbn [changes].
        replace (OutputBridge.payload_differs (dumps data) (Some (dumps data)))
          with false by (symmetry; apply payload_differs_false; reflexivity).
        rewrite Hpub, Htr0. reflexivity.
Qed.

(** The payloads read are among those of the states, in order, and all
    of them when no call raises. *)
Lemma payloads_read_sublist plan contents : forall k,
  sublist (payloads_read plan k contents) (omap payload_of contents).
Proof.
  induction contents as [|c contents IH]; intros k; [constructor|].
  cbn [payloads_read].
  change (omap payload_of (c :: contents))
    with (match payload_of c with
          | Some p => p :: omap payload_of contents
          | None => omap payload_of contents
          end).
  assert (Hturn : forall p k', read_turn plan k c = (Some p, k') ->
                               payload_of c = Some p).
  { intros p k'. unfold read_turn. destruct c as [[|b data]|];
      repeat case_match; intros; simplify_eq; assumption. }
  destruct (read_turn plan k c) as [[p|] k'] eqn:Hr.
  - rewrite (Hturn p k' eq_refl). apply sublist_skip, IH.
  - destruct (payload_of c); [apply sublist_cons|]; apply IH.
Qed.

Lemma payloads_read_quiet plan contents : forall k,
  (forall n, plan n = None) ->
  payloads_read plan k contents = omap payload_of contents.
Proof.
  intros k Hq. revert k.
  induction contents as [|c contents IH]; intros k; [reflexivity|].
  cbn [payloads_read].
  change (omap payload_of (c :: contents))
    with (match payload_of c with
          | Some p => p :: omap payload_of contents
          | None => omap payload_of contents
          end).
  assert (Hturn : fst (read_turn plan k c) = payload_of c).
  { unfold read_turn. destruct c as [[|b data]|]; rewrite ?Hq; reflexivity. }
  destruct (read_turn plan k c) as [p k']. cbn [fst] in Hturn. subst p.
  destruct (payload_of c); rewrite IH; reflexivity.
Qed.

(** X19. The polling loop survives failed reads. [client.publish] is taken
    to return. Whatever [Exception]s the calls of the reads raise, the
    loop over any sequence of states of the outbound slot returns. A turn
    whose [os.path.getsize] or whose read raises has no payload in hand:
    it publishes nothing and leaves the fingerprint. Every other turn has
    the payload of its state. The publications are exactly the changes of
    canonical text along the payloads in hand, so no payload is published
    twice in a row, and the fingerprint at the end is the last payload
    published, or the initial one if none was. The payloads in hand are
    among those of the states, in order, and they are all of them when no
    call raises. *)
Theorem polling_survives_failed_reads
    (contents : list (option pybytes)) (previous : option pystr) (w : world) :
  only_errors w ->
  exists fingerprint w' news,
    OutputBridge.poll_loop contents previous w = (Ok fingerprint, w') /\
    news = changes previous (payloads_read (faults w) (clock w) contents) /\
    publications (trace w') = publications (trace w) ++ news /\
    no_repeat news /\
    fingerprint = match last news with Some x => Some x | None => previous end /\
    sublist (payloads_read (faults w) (clock w) contents)
            (omap payload_of contents) /\
    (quiet w ->
     payloads_read (faults w) (clock w) contents = omap payload_of contents).
Proof.
  intros Herr.
  destruct (poll_loop_turns contents previous w Herr) as (w' & Hrun & Hpub).
  destruct (changes_no_repeat (payloads_read (faults w) (clock w) contents)
              previous) as (Hrep & _ & Hlast).
  eexists _, w', _. split; [exact Hrun|]. split; [reflexivity|].
  split; [exact Hpub|]. split; [exact Hrep|]. split; [exact Hlast|].
  split; [apply payloads_read_sublist|].
  intros Hq. apply payloads_read_quiet, Hq.
Qed.

End PollingErrors.

(* ===================================================================== *)
(** ** More concrete runs *)
(* ===================================================================== *)

Section MoreRuns.

Lemma demo_all_tmp_free :
  all_tmp_free "/tmp" (demo_world [] no_fault).
Proof. intros n. reflexivity. Qed.

(** X1 at a slot that holds a list. *)
Lemma update_inputs_skips_other_json_witness :
  exists w',
    PSM.update_inputs (demo_world [("/tmp/input.json", qstr "[1, 2]")] no_fault)
      = (Ok tt, w') /\
    stdout w' = [PsmIgnoringNonObject] /\
    set_var_calls (trace w') = [].
Proof.
  destruct (update_inputs_skips_other_json
              (demo_world [("/tmp/input.json", qstr "[1, 2]")] no_fault)
              (qstr "[1, 2]") (qstr "[1, 2]") (JArr [JInt 1; JInt 2]))
    as (w' & Hrun & Hout & Hcalls & _).
  - apply demo_quiet.
  - reflexivity.
  - vm_compute. reflexivity.
  - vm_compute. reflexivity.
  - reflexivity.
  - exists w'. split; [exact Hrun|]. split; [exact Hout|exact Hcalls].
Defined.

(** X2 at a slot of three entries when the second [set_var] raises. *)
Lemma update_inputs_stops_at_failed_call_witness :
  exists w',
    PSM.update_inputs
      (demo_world [("/tmp/input.json", qstr "{'%a': 1, '%b': 2, '%c': 3}")]
                  (fail_at 2 (RuntimeError "bad variable")))
      = (Ok tt, w') /\
    set_var_calls (trace w') = [(str "a", JInt 1); (str "b", JInt 2)] /\
    controller w' = ([(str "a", JInt 1)], false) /\
    stdout w' = [PsmErrorInUpdateInputs (RuntimeError "bad variable")].
Proof.
  destruct (update_inputs_stops_at_failed_call
              (demo_world [("/tmp/input.json",
                            qstr "{'%a': 1, '%b': 2, '%c': 3}")]
                          (fail_at 2 (RuntimeError "bad variable")))
              (qstr "{'%a': 1, '%b': 2, '%c': 3}")
              [(str "%a", JInt 1); (str "%b", JInt 2); (str "%c", JInt 3)]
              1%nat (RuntimeError "bad variable"))
    as (w' & Hrun & Hcalls & Hctl & Hout).
  - exists (qstr "{'%a': 1, '%b': 2, '%c': 3}").
    split; [reflexivity|vm_compute; reflexivity].
  - vm_compute. reflexivity.
  - intros [|[|i]] Hi; [reflexivity|reflexivity|lia].
  - reflexivity.
  - reflexivity.
  - vm_compute. lia.
  - exists w'. split; [exact Hrun|]. split; [exact Hcalls|].
    split; [exact Hctl|exact Hout].
Defined.


(** X3 when there is no room for the temporary file. *)
Lemma hardware_init_fails_only_at_start_witness :
  exists w',
    PSM.hardware_init (demo_world [] (fail_at 1 (OSError "ENOSPC")))
      = (Ok tt, w') /\
    ((fs w' !! PSM.OUTPUT_PATH = Some (str "{}") /\ stdout w' = []) \/
     (exists e,
         fs w' !! PSM.OUTPUT_PATH = None /\
         stdout w' = [PsmInitWarning PSM.OUTPUT_PATH e])).
Proof.
  destruct (hardware_init_fails_only_at_start
              (demo_world [] (fail_at 1 (OSError "ENOSPC"))))
    as (_ & Hinit).
  destruct Hinit as (w' & Hrun & _ & Hend).
  - reflexivity.
  - intros n e He. unfold demo_world, fail_at in He. cbn [faults] in He.
    destruct (Nat.eqb n 1); [injection He as <-; reflexivity|discriminate].
  - exists w'. split; [exact Hrun|exact Hend].
Defined.

(** X4 when every call raises. *)
Lemma update_outputs_replaces_or_logs_witness :
  exists w',
    PSM.update_outputs_of PSM.OUTPUT_VARS
      (demo_world [("/tmp/output.json", qstr "{'%QX0.0':true}")] all_fail)
      = (Ok tt, w') /\
    ((fs w' !! PSM.OUTPUT_PATH = Some (qstr "{'%QX0.0':false}") /\
      stdout w' = []) \/
     (exists e,
         fs w' !! PSM.OUTPUT_PATH = Some (qstr "{'%QX0.0':true}") /\
         stdout w' = [PsmErrorInUpdateOutputs e])).
Proof.
  destruct (update_outputs_replaces_or_logs PSM.OUTPUT_VARS
              (demo_world [("/tmp/output.json", qstr "{'%QX0.0':true}")]
                          all_fail))
    as (w' & Hrun & _ & Hend).
  - apply demo_only_errors.
  - exists w'. split; [exact Hrun|exact Hend].
Defined.

(** X5 when every call raises. *)
Lemma on_message_replaces_or_logs_witness :
  exists w',
    InputBridge.on_message (qstr "{'%IX0.0': true}")
      (demo_world [("/tmp/input.json", qstr "{'%IX0.0':false}")] all_fail)
      = (Ok tt, w') /\
    ((fs w' !! InputBridge.INPUT_PATH = Some (qstr "{'%IX0.0':true}") /\
      stdout w' = [InWrote InputBridge.INPUT_PATH
                     (JObj [(str "%IX0.0", JBool true)])]) \/
     (exists e,
         fs w' !! InputBridge.INPUT_PATH = Some (qstr "{'%IX0.0':false}") /\
         stdout w' = [if is_JSONDecodeError e then InNotValidJson
                      else InError e])).
Proof.
  destruct (on_message_replaces_or_logs (qstr "{'%IX0.0': true}")
              (demo_world [("/tmp/input.json", qstr "{'%IX0.0':false}")]
                          all_fail)
              (qstr "{'%IX0.0': true}") [(str "%IX0.0", JBool true)])
    as (w' & Hrun & Hend).
  - vm_compute. reflexivity.
  - vm_compute. reflexivity.
  - apply demo_only_errors.
  - exists w'. split; [exact Hrun|exact Hend].
Defined.



(** X7 when the inbound slot sets the exported variable. *)
Lemma scan_applies_inputs_before_outputs_witness :
  exists w',
    PSM.scan (demo_world [("/tmp/input.json", qstr "{'%QX0.0': true}")] no_fault)
      = (Ok tt, w') /\
    fs w' !! "/tmp/output.json" = Some (qstr "{'%QX0.0':true}").
Proof.
  destruct (scan_applies_inputs_before_outputs
              (demo_world [("/tmp/input.json", qstr "{'%QX0.0': true}")] no_fault)
              (qstr "{'%QX0.0': true}") [(str "%QX0.0", JBool true)])
    as (w' & Hrun & _ & Hfs & _).
  - apply demo_quiet.
  - vm_compute. reflexivity.
  - exists (qstr "{'%QX0.0': true}"). split; [reflexivity|vm_compute; reflexivity].
  - vm_compute. reflexivity.
  - exists w'. split; [exact Hrun|]. rewrite Hfs, lookup_insert_eq. reflexivity.
Defined.

(** X8 at a controller that asks to stop. *)
Lemma main_starts_first_and_stops_last_witness :
  exists w' t,
    PSM.main 2 (stopping_world [] no_fault) = (Ok true, w') /\
    trace w' = EvPsmStart :: t ++ [EvPsmStop] /\
    Forall (fun ev => lifecycle ev = false) t.
Proof.
  destruct (PSM.main 2 (stopping_world [] no_fault)) as [r w'] eqn:Hrun.
  assert (Hr : fst (PSM.main 2 (stopping_world [] no_fault)) = Ok true)
    by (vm_compute; reflexivity).
  rewrite Hrun in Hr. cbn [fst] in Hr. subst r.
  destruct (main_starts_first_and_stops_last _ _ _ _ Hrun)
    as (t & Htr & t0 & -> & Hf).
  exists w', t0. split; [reflexivity|]. split; [exact Htr|exact Hf].
Defined.

(** X10 at two objects, a broken message in between and a list after. *)
Lemma last_object_message_wins_witness :
  exists w',
    for_each [qstr "{'%IX0.0': true}"; qstr "{'%IX0.0': "; 
              qstr "{'%IX0.0': false}"; qstr "[1]"]
      InputBridge.on_message (demo_world [] no_fault) = (Ok tt, w') /\
    fs w' !! "/tmp/input.json" = Some (qstr "{'%IX0.0':false}").
Proof.
  destruct (last_object_message_wins
              [qstr "{'%IX0.0': true}"; qstr "{'%IX0.0': "; 
               qstr "{'%IX0.0': false}"; qstr "[1]"]
              (demo_world [] no_fault))
    as (w' & Hrun & Hfs).
  - apply demo_quiet.
  - apply demo_all_tmp_free.
  - exists w'. split; [exact Hrun|]. rewrite Hfs.
    replace (last (omap (@object_of text_float) _))
      with (Some (@JObj text_float [(str "%IX0.0", JBool false)]))
      by (vm_compute; reflexivity).
    rewrite lookup_insert_eq. reflexivity.
Defined.

(** X11 at a slot that is missing, then holds A, is truncated, holds A
    again in another layout, holds [null], then B. *)
Lemma publishes_each_change_once_witness :
  exists w',
    OutputBridge.poll_loop
      [None; Some (qstr "{'%QX0.0':false}"); Some (qstr "{'%QX0.0'");
       Some (qstr "{ '%QX0.0' : false }"); Some (qstr "null");
       Some (qstr "{'%QX0.0':true}")] None (demo_world [] no_fault)
      = (Ok (Some (qstr "{'%QX0.0':true}")), w') /\
    publications (trace w')
      = [qstr "{'%QX0.0':false}"; qstr "{'%QX0.0':true}"].
Proof.
  destruct (publishes_each_change_once
              [None; Some (qstr "{'%QX0.0':false}"); Some (qstr "{'%QX0.0'");
               Some (qstr "{ '%QX0.0' : false }"); Some (qstr "null");
               Some (qstr "{'%QX0.0':true}")] None (demo_world [] no_fault))
    as (p & w' & news & Hrun & Hpub & -> & _ & _ & ->).
  - apply demo_quiet.
  - exists w'. split; [exact Hrun|exact Hpub].
Defined.

(** X12 over three periods. *)
Lemma unchanged_outputs_are_published_once_witness :
  exists w',
    mirror_rounds 3 None (demo_world [] no_fault)
      = (Ok (Some (qstr "{'%QX0.0':false}")), w') /\
    publications (trace w') = [qstr "{'%QX0.0':false}"].
Proof.
  destruct (unchanged_outputs_are_published_once 2 (demo_world [] no_fault))
    as (w' & Hrun & Hpub & _).
  - apply demo_quiet.
  - apply demo_all_tmp_free.
  - exact I.
  - exists w'. split; [exact Hrun|exact Hpub].
Defined.

(** X14 at a string outside ASCII. *)
Lemma slot_files_are_ascii_witness :
  exists w' data,
    PSM._atomic_write_json "/tmp/input.json"
      (JObj [(str "%MW0", JStr [233; 128512])]) (demo_world [] no_fault)
      = (Ok tt, w') /\
    fs w' !! "/tmp/input.json" = Some data /\ Forall (fun b => b < 128) data.
Proof.
  destruct (PSM._atomic_write_json "/tmp/input.json"
              (JObj [(str "%MW0", JStr [233; 128512])]) (demo_world [] no_fault))
    as [r w'] eqn:Hrun.
  assert (Hr : fst (PSM._atomic_write_json "/tmp/input.json"
                      (JObj [(str "%MW0", JStr [233; 128512])])
                      (demo_world [] no_fault)) = Ok tt)
    by (vm_compute; reflexivity).
  rewrite Hrun in Hr. cbn [fst] in Hr. subst r.
  destruct (slot_files_are_ascii _ _ _ _
              (proj1 (tmp_apart_slots (demo_world [] no_fault))) Hrun)
    as (data & Hfs & Hascii & _).
  exists w', data. split; [reflexivity|]. split; [exact Hfs|exact Hascii].
Defined.

(** X15 over three scans. *)
Lemma update_inputs_applies_the_slot_every_scan_witness :
  exists w',
    for_each (repeat tt 3) (fun _ => PSM.update_inputs)
      (demo_world [("/tmp/input.json", qstr "{'%IX0.0': true}")] no_fault)
      = (Ok tt, w') /\
    set_var_calls (trace w')
      = [(str "IX0.0", JBool true); (str "IX0.0", JBool true);
         (str "IX0.0", JBool true)].
Proof.
  destruct (update_inputs_applies_the_slot_every_scan 3
              (demo_world [("/tmp/input.json", qstr "{'%IX0.0': true}")] no_fault))
    as (_ & Hagain).
  destruct (Hagain (qstr "{'%IX0.0': true}") [(str "%IX0.0", JBool true)])
    as (w' & Hrun & _ & Hcalls).
  - apply demo_quiet.
  - exists (qstr "{'%IX0.0': true}"). split; [reflexivity|vm_compute; reflexivity].
  - vm_compute. reflexivity.
  - exists w'. split; [exact Hrun|exact Hcalls].
Defined.

(** X16 at a controller that asks to stop, with an inbound slot that is
    never read. *)
Lemma main_asks_before_the_first_scan_witness :
  exists w',
    PSM.main 5 (stopping_world [("/tmp/input.json", qstr "{'%IX0.0': true}")]
                               no_fault)
      = (Ok true, w') /\
    set_var_calls (trace w') = [] /\
    fs w' !! "/tmp/output.json" = Some (str "{}").
Proof.
  destruct (main_asks_before_the_first_scan 4
              (stopping_world [("/tmp/input.json", qstr "{'%IX0.0': true}")]
                              no_fault))
    as (w' & Hrun & Htr & Hfs & _).
  - intros n. reflexivity.
  - vm_compute. reflexivity.
  - reflexivity.
  - exists w'. split; [exact Hrun|]. split.
    + rewrite Htr. reflexivity.
    + rewrite Hfs, lookup_insert_eq. reflexivity.
Defined.

(** X13 at a message that sets the exported variable. *)
Lemma message_reaches_the_broker_witness :
  exists w',
    (InputBridge.on_message (qstr "{'%QX0.0': true, 'note': 'x'}") ;;;
     PSM.scan ;;; OutputBridge.poll None) (demo_world [] no_fault)
      = (Ok (Some (qstr "{'%QX0.0':true}")), w') /\
    set_var_calls (trace w') = [(str "QX0.0", JBool true)] /\
    publications (trace w') = [qstr "{'%QX0.0':true}"].
Proof.
  destruct (message_reaches_the_broker (qstr "{'%QX0.0': true, 'note': 'x'}")
              (demo_world [] no_fault) (qstr "{'%QX0.0': true, 'note': 'x'}")
              [(str "%QX0.0", JBool true); (str "note", JStr (str "x"))])
    as (w' & Hrun & Hcalls & _ & _ & _ & Hpub).
  - vm_compute. reflexivity.
  - vm_compute. reflexivity.
  - cbn [json_ok fst snd]. split; [|repeat split].
    apply (bool_decide_unpack _). vm_compute. exact I.
  - exact I.
  - apply demo_quiet.
  - apply demo_all_tmp_free.
  - exists w'. split; [exact Hrun|]. split; [exact Hcalls|exact Hpub].
Defined.

(** C8 at a world with no file, and when there is no room for the
    temporary file. *)
Lemma init_witness :
  (exists w' w2,
      PSM.hardware_init (demo_world [] no_fault) = (Ok tt, w') /\
      fs w' !! "/tmp/output.json" = Some (str "{}") /\
      OutputBridge.read_json_if_ready "/tmp/output.json" w' = (Ok (JObj []), w2)) /\
  (exists w',
      PSM.hardware_init (demo_world [] (fail_at 1 (OSError "ENOSPC")))
        = (Ok tt, w') /\
      fs w' !! "/tmp/output.json" = None /\
      stdout w' = [PsmInitWarning "/tmp/output.json" (OSError "ENOSPC")]).
Proof.
  split.
  - destruct (init_writes_empty_slot_or_warns (demo_world [] no_fault))
      as (Hok & _).
    destruct Hok as (w' & Hrun & _ & _ & Hfs & (w2 & Hread) & _).
    + apply demo_quiet.
    + vm_compute. reflexivity.
    + exists w', w2. auto.
  - destruct (init_writes_empty_slot_or_warns
                (demo_world [] (fail_at 1 (OSError "ENOSPC"))))
      as (_ & _ & Hfail).
    destruct (Hfail (OSError "ENOSPC")) as (w' & Hrun & Hfs & Hout).
    + reflexivity.
    + reflexivity.
    + reflexivity.
    + vm_compute. reflexivity.
    + exists w'. split; [exact Hrun|]. split.
      * rewrite Hfs. vm_compute. reflexivity.
      * rewrite Hout. reflexivity.
Defined.

(** C8 as the specification states it fails: the disk is full when init
    creates its temporary file. [psm.start()] has returned and every
    exception is an [Exception], yet after init the outbound slot does not
    exist, and the outbound adapter's read returns [None]; init has only
    printed its warning. *)
Lemma init_can_leave_the_slot_absent :
  let '(r, w') :=
    PSM.hardware_init (demo_world [] (fail_at 1 (OSError "ENOSPC"))) in
  r = Ok tt /\
  fs w' !! "/tmp/output.json" = None /\
  stdout w' = [PsmInitWarning "/tmp/output.json" (OSError "ENOSPC")] /\
  fst (OutputBridge.read_json_if_ready "/tmp/output.json" w') = Ok JNull.
Proof. vm_compute. repeat split. Qed.

Lemma fail_at_only_errors files k e :
  is_Exception e = true -> only_errors (demo_world files (fail_at k e)).
Proof.
  intros He n e' Hf. unfold demo_world, fail_at in Hf. cbn [faults] in Hf.
  destruct (Nat.eqb n k); [injection Hf as <-; exact He|discriminate].
Qed.




(** X17 when Ctrl+C arrives during the second sleep. *)
Lemma output_main_stops_the_client_witness :
  exists s' k,
    OutputBridge.main [Some (qstr "{'%QX0.0':false}"); None; None]
      (demo_world [] (fail_at 5 KeyboardInterrupt), [])
      = (Ok true, s') /\
    snd s' = client_calls k [OutputBridge.LoopStop; OutputBridge.Disconnect] /\
    stdout (fst s') =
      [OutConnected;
       OutPublished "plc/output" (qstr "{'%QX0.0':false}");
       OutStopping].
Proof.
  destruct (output_main_stops_the_client
              [Some (qstr "{'%QX0.0':false}"); None; None]
              (demo_world [] (fail_at 5 KeyboardInterrupt)) [])
    as (_ & _ & Hloop).
  specialize (Hloop eq_refl eq_refl).
  set (run := OutputBridge.serve _ _ _) in Hloop.
  assert (Hrun : run = (Raise KeyboardInterrupt, snd run))
    by (vm_compute; reflexivity).
  rewrite Hrun in Hloop. destruct Hloop as (k & _ & _ & Hmain).
  cbn [is_KeyboardInterrupt snd] in Hmain.
  assert (Hf :
    faults (snd (print OutStopping (fst (snd run))))
           (clock (snd (print OutStopping (fst (snd run))))) = None /\
    faults (snd (print OutStopping (fst (snd run))))
           (S (clock (snd (print OutStopping (fst (snd run)))))) = None)
    by (split; vm_compute; reflexivity).
  cbv zeta in Hmain. destruct Hf as [Hf1 Hf2]. rewrite Hf1, Hf2 in Hmain.
  eexists _, k. split; [exact Hmain|]. split; [reflexivity|].
  vm_compute. reflexivity.
Defined.

(** X19 when the read of the second turn fails. *)
Lemma polling_survives_failed_reads_witness :
  exists fingerprint w',
    OutputBridge.poll_loop
      [Some (qstr "{'%QX0.0':false}"); Some (qstr "{'%QX0.0':true}");
       Some (qstr "{'%QX0.0':false}")] None
      (demo_world [] (fail_at 2 (OSError "EIO")))
      = (Ok fingerprint, w') /\
    publications (trace w') = [qstr "{'%QX0.0':false}"].
Proof.
  destruct (polling_survives_failed_reads
              [Some (qstr "{'%QX0.0':false}"); Some (qstr "{'%QX0.0':true}");
               Some (qstr "{'%QX0.0':false}")] None
              (demo_world [] (fail_at 2 (OSError "EIO"))))
    as (p & w' & news & Hrun & Hnews & Hpub & _).
  - apply fail_at_only_errors. reflexivity.
  - exists p, w'. split; [exact Hrun|]. rewrite Hpub, Hnews.
    vm_compute. reflexivity.
Defined.

End MoreRuns.
